(** * CS2-DeepScope: a shallow embedding of the session core

    The development follows the TypeScript sources:
    - [JS]: the fragment of JavaScript data the sources compute with;
    - [ProfileFetcher]: gc/profileFetcher.ts, the mapping of a coordinator
      response to a player profile and the correlation of requests and
      responses, over an explicit world of listeners, timers and promises;
    - [GCConnection]: gc/gcConnection.ts, the readiness flags;
    - [JSON], [FS]: the built-ins the credential files go through;
    - [SteamAuth]: auth/steamAuth.ts, the credential files, the login calls
      and the disconnect watchdog, as a process driven by the events of the
      client;
    - [APIServer]: api/server.ts, the profile route.

    Conventions.  A promise is a value that is pending, resolved or
    rejected and settles once.  What the event loop runs to completion is
    one step of a state machine; an event emitter is the list of its
    listeners in the order of registration.  Time is counted in
    milliseconds.  Whatever the sources take from outside (the client
    libraries, the clock, the environment) is an argument.

    Definitions come first, the statements proved about them second. *)

From Stdlib Require Import ZArith NArith Ascii String List Bool Lia DecimalString.
From Stdlib Require DecimalPos.
From stdpp Require Import base option list strings gmap.

Set Warnings "-register-all".
Local Open Scope string_scope.
Local Open Scope list_scope.

(** ** JavaScript data *)

Module JS.

(** A value that a decoded message, a JSON document or an event payload can
    hold.  [undefined] is not among them: it is what JavaScript answers for
    an absent property or an index out of range, and is [None] wherever a
    value may be absent.  Numbers are the integers the messages carry. *)
Inductive value : Type :=
| VNull
| VBool (b : bool)
| VNum (n : Z)
| VStr (s : string)
| VArr (items : list value)
| VObj (fields : list (string * value)).

(** What can be thrown or passed to [reject]: an [Error] with its message,
    or any other value, kept with its [String(...)] rendering. *)
Inductive exn : Type :=
| Error (message : string)
| NonError (rendering : string).

(** [error instanceof Error ? error.message : String(error)] *)
Definition errorMessage (e : exn) : string :=
  match e with
  | Error m => m
  | NonError r => r
  end.

Fixpoint assoc (k : string) (fs : list (string * value)) : option value :=
  match fs with
  | [] => None
  | (k', v) :: rest => if String.eqb k k' then Some v else assoc k rest
  end.

(** [v.k] on a value that is neither null nor undefined. *)
Definition prop (v : value) (k : string) : option value :=
  match v with
  | VObj fs => assoc k fs
  | _ => None
  end.

(** [o?.k] *)
Definition opt_prop (o : option value) (k : string) : option value :=
  match o with
  | None | Some VNull => None
  | Some v => prop v k
  end.

(** [k in v] for an object [v]. *)
Definition has_prop (k : string) (v : value) : bool :=
  match v with
  | VObj fs => match assoc k fs with Some _ => true | None => false end
  | _ => false
  end.

Definition truthy (o : option value) : bool :=
  match o with
  | None | Some VNull => false
  | Some (VBool b) => b
  | Some (VNum n) => negb (n =? 0)%Z
  | Some (VStr s) => negb (String.eqb s "")
  | Some (VArr _) | Some (VObj _) => true
  end.

(** [a || b] with a value on the right. *)
Definition or_else (a : option value) (b : value) : value :=
  match a with
  | Some v => if truthy a then v else b
  | None => b
  end.

(** [a ?? b] *)
Definition nullish (a : option value) (b : value) : value :=
  match a with
  | None | Some VNull => b
  | Some v => v
  end.

Definition isArray (o : option value) : bool :=
  match o with
  | Some (VArr _) => true
  | _ => false
  end.

(** [typeof o === 'object'] (which also holds of [null]). *)
Definition typeof_object (o : option value) : bool :=
  match o with
  | Some VNull | Some (VArr _) | Some (VObj _) => true
  | _ => false
  end.

Definition typeof_number (v : value) : bool :=
  match v with
  | VNum _ => true
  | _ => false
  end.

(** The elements of an array, and [xs[i]]. *)
Definition elements (o : option value) : list value :=
  match o with
  | Some (VArr xs) => xs
  | _ => []
  end.

Definition index (xs : list value) (i : nat) : option value := nth_error xs i.

(** [new Set(xs)] over numbers, kept in insertion order: [add] leaves the
    set alone when the element is already there; [Array.from] reads the
    elements back in that order. *)
Definition Set_has (x : Z) (s : list Z) : bool := existsb (Z.eqb x) s.

Definition Set_add (s : list Z) (x : Z) : list Z :=
  if Set_has x s then s else s ++ [x].

Definition new_Set (xs : list Z) : list Z := fold_left Set_add xs [].

(** [\d] and [/^\d{17}$/.test(s)] *)
Definition is_digit (c : ascii) : bool :=
  (48 <=? nat_of_ascii c)%nat && (nat_of_ascii c <=? 57)%nat.

Definition test_17_digits (s : string) : bool :=
  (String.length s =? 17)%nat && forallb is_digit (list_ascii_of_string s).

(** [String.prototype.trim].  A string is a sequence of code units below
    256; among these, the white space and the line terminators that [trim]
    removes are the code units 9 to 13, 32 and 160 (the no-break space). *)
Definition is_space (c : ascii) : bool :=
  let n := nat_of_ascii c in
  (n =? 32)%nat || ((9 <=? n)%nat && (n <=? 13)%nat) || (n =? 160)%nat.

Fixpoint trim_start (s : string) : string :=
  match s with
  | String c rest => if is_space c then trim_start rest else s
  | "" => ""
  end.

Fixpoint trim_end (s : string) : string :=
  match s with
  | String c rest =>
      match trim_end rest with
      | "" => if is_space c then "" else String c ""
      | r => String c r
      end
  | "" => ""
  end.

Definition trim (s : string) : string := trim_end (trim_start s).

End JS.

(** ** gc/profileFetcher.ts *)

Module ProfileFetcher.
Import JS.

Definition PROFILE_REQUEST_TIMEOUT_MS : N := 30000.

Record PlayerCommendations := {
  friendly : value;
  leader : value;
  teacher : value;
}.

Record ServiceMedal := { medalId : Z }.

Record PlayerProfile := {
  steamId64 : string;
  commendations : PlayerCommendations;
  medals : list ServiceMedal;
  equippedMedal : value;
  xpLevel : option value;
  fetchedAt : string;
}.

(** [.filter((id): id is number => typeof id === 'number')] *)
Fixpoint filter_numbers (xs : list value) : list Z :=
  match xs with
  | [] => []
  | VNum n :: rest => n :: filter_numbers rest
  | _ :: rest => filter_numbers rest
  end.

(** [profile.medals?.display_items_defidx] *)
Definition display_items_defidx (profile : value) : option value :=
  opt_prop (prop profile "medals") "display_items_defidx".

(** [parseProfileResponse(profile, steamId64)]; [today] is the reading of
    [new Date().toISOString()]. *)
Definition parseProfileResponse (today : string) (profile : value) (steamId64 : string)
  : PlayerProfile :=
  let commendation := prop profile "commendation" in
  let commendations :=
    {| friendly := or_else (opt_prop commendation "cmd_friendly") (VNum 0);
       leader := or_else (opt_prop commendation "cmd_leader") (VNum 0);
       teacher := or_else (opt_prop commendation "cmd_teaching") (VNum 0) |} in
  let items := display_items_defidx profile in
  let medals :=
    if truthy items && isArray items
    then map (fun medalId => {| medalId := medalId |})
             (new_Set (filter_numbers (elements items)))
    else [] in
  let equippedMedal :=
    if truthy items && isArray items
    then nullish (index (elements items) 0) VNull
    else VNull in
  let xpLevel := prop profile "player_level" in
  {| steamId64 := steamId64;
     commendations := commendations;
     medals := medals;
     equippedMedal := equippedMedal;
     xpLevel := xpLevel;
     fetchedAt := today |}.

(** *** The coordinator client as an event emitter, timers and promises *)

Inductive promise : Type :=
| Pending
| Resolved (profile : PlayerProfile)
| Rejected (reason : exn).

(** One call of [fetchProfile]: its argument and the promise it returned.
    The call's number also names its [responseHandler] closure and its
    timer handle. *)
Record Request := {
  req_steamId64 : string;
  req_promise : promise;
}.

Record Listener := {
  l_event : string;
  l_handler : nat;
  l_once : bool;
}.

Record Timer := {
  t_handle : nat;
  t_due : N;
}.

(** What [this.gc.requestPlayersProfile] is on this client. *)
Inductive gc_method : Type :=
| MethodReturns
| MethodThrows (e : exn)
| MethodAbsent.

Record World := {
  enableFileCache : bool;
  (** [Some e]: writing the profile file fails with [e] *)
  writeFault : option exn;
  today : string;
  clock : N;
  listeners : list Listener;
  timers : list Timer;
  (** arguments of the calls made to [gc.requestPlayersProfile] *)
  sent : list string;
  requests : list Request;
  (** handlers the emitter has removed, in order ('removeListener') *)
  deregistered : list nat;
}.

Definition init (cache : bool) (fault : option exn) (date : string) : World :=
  {| enableFileCache := cache; writeFault := fault; today := date; clock := 0;
     listeners := []; timers := []; sent := []; requests := [];
     deregistered := [] |}.

Definition with_listeners (ls : list Listener) (w : World) : World :=
  {| enableFileCache := enableFileCache w; writeFault := writeFault w;
     today := today w; clock := clock w;
     listeners := ls; timers := timers w; sent := sent w;
     requests := requests w; deregistered := deregistered w |}.

Definition with_timers (ts : list Timer) (w : World) : World :=
  {| enableFileCache := enableFileCache w; writeFault := writeFault w;
     today := today w; clock := clock w;
     listeners := listeners w; timers := ts; sent := sent w;
     requests := requests w; deregistered := deregistered w |}.

Definition with_sent (s : list string) (w : World) : World :=
  {| enableFileCache := enableFileCache w; writeFault := writeFault w;
     today := today w; clock := clock w;
     listeners := listeners w; timers := timers w; sent := s;
     requests := requests w; deregistered := deregistered w |}.

Definition with_requests (rs : list Request) (w : World) : World :=
  {| enableFileCache := enableFileCache w; writeFault := writeFault w;
     today := today w; clock := clock w;
     listeners := listeners w; timers := timers w; sent := sent w;
     requests := rs; deregistered := deregistered w |}.

Definition with_deregistered (d : list nat) (w : World) : World :=
  {| enableFileCache := enableFileCache w; writeFault := writeFault w;
     today := today w; clock := clock w;
     listeners := listeners w; timers := timers w; sent := sent w;
     requests := requests w; deregistered := d |}.

Definition with_clock (t : N) (w : World) : World :=
  {| enableFileCache := enableFileCache w; writeFault := writeFault w;
     today := today w; clock := t;
     listeners := listeners w; timers := timers w; sent := sent w;
     requests := requests w; deregistered := deregistered w |}.

Definition listens (ev : string) (h : nat) (l : Listener) : bool :=
  String.eqb (l_event l) ev && Nat.eqb (l_handler l) h.

(** Removes the most recently added element satisfying [p], if any. *)
Fixpoint remove_last {A} (p : A -> bool) (l : list A) : option (list A) :=
  match l with
  | [] => None
  | x :: rest =>
      match remove_last p rest with
      | Some rest' => Some (x :: rest')
      | None => if p x then Some rest else None
      end
  end.

(** [gc.once(ev, h)] *)
Definition once (ev : string) (h : nat) (w : World) : World :=
  with_listeners (listeners w ++ [{| l_event := ev; l_handler := h; l_once := true |}]) w.

(** [gc.removeListener(ev, h)]: nothing happens when [h] is not listening. *)
Definition removeListener (ev : string) (h : nat) (w : World) : World :=
  match remove_last (listens ev h) (listeners w) with
  | Some ls => with_deregistered (deregistered w ++ [h]) (with_listeners ls w)
  | None => w
  end.

Definition setTimeout (h : nat) (delay : N) (w : World) : World :=
  with_timers (timers w ++ [{| t_handle := h; t_due := (clock w + delay)%N |}]) w.

Definition clearTimeout (h : nat) (w : World) : World :=
  with_timers (List.filter (fun t => negb (Nat.eqb (t_handle t) h)) (timers w)) w.

(** [resolve] and [reject] of the promise of call [k]: a promise settles once. *)
Definition settle (k : nat) (outcome : promise) (w : World) : World :=
  match requests w !! k with
  | Some {| req_steamId64 := id; req_promise := Pending |} =>
      with_requests (<[k := {| req_steamId64 := id; req_promise := outcome |}]> (requests w)) w
  | _ => w
  end.

Definition eventName (steamId64 : string) : string := "playersProfile#" +:+ steamId64.

Definition steamId64_of (k : nat) (w : World) : string :=
  match requests w !! k with
  | Some r => req_steamId64 r
  | None => ""
  end.

(** The body of the promise executor in [fetchProfile(steamId64)]. *)
Definition fetchProfile (steamId64 : string) (gc : gc_method) (w : World) : World :=
  let k := length (requests w) in
  let w := with_requests (requests w ++ [{| req_steamId64 := steamId64; req_promise := Pending |}]) w in
  if negb (test_17_digits steamId64) then
    settle k (Rejected (Error "Invalid Steam ID 64 format. Must be 17 digits.")) w
  else
    let w := once (eventName steamId64) k w in
    let w := setTimeout k PROFILE_REQUEST_TIMEOUT_MS w in
    let failed (error : exn) (w : World) :=
      settle k (Rejected error) (removeListener (eventName steamId64) k (clearTimeout k w)) in
    match gc with
    | MethodReturns => with_sent (sent w ++ [steamId64]) w
    | MethodThrows error => failed error (with_sent (sent w ++ [steamId64]) w)
    | MethodAbsent => failed (Error "requestPlayersProfile method not available on GC instance") w
    end.

(** [responseHandler(profile)] of call [k].  A payload that is not an object
    makes the handler throw before its [try]: nothing else runs.  Otherwise
    the timer is cleared at once, and what the handler awaits (the parsing,
    the writing of the cache file) is taken in the same step: the call has
    no timer and no listener left through which another event could reach
    it meanwhile. *)
Definition responseHandler (k : nat) (profile : option value) (w : World) : World :=
  if negb (truthy profile) || negb (typeof_object profile) then w
  else
    match profile with
    | None => w
    | Some typedProfile =>
        let steamId64 := steamId64_of k w in
        let w := clearTimeout k w in
        let parsedProfile := parseProfileResponse (today w) typedProfile steamId64 in
        match (if enableFileCache w then writeFault w else None) with
        | None =>
            let w := removeListener (eventName steamId64) k w in
            settle k (Resolved parsedProfile) w
        | Some error =>
            let w := removeListener (eventName steamId64) k w in
            settle k (Rejected error) w
        end
    end.

(** The callback given to [setTimeout] by call [k]. *)
Definition timeoutCallback (k : nat) (w : World) : World :=
  let steamId64 := steamId64_of k w in
  let w := removeListener (eventName steamId64) k w in
  settle k (Rejected (Error ("Timeout waiting for profile response for " +:+ steamId64))) w.

(** [gc.emit(ev, payload)]: the listeners registered for [ev] when the
    emission starts are called in order; a [once] listener is removed just
    before it is called. *)
Definition call_listener (payload : option value) (w : World) (l : Listener) : World :=
  let w := if l_once l then removeListener (l_event l) (l_handler l) w else w in
  responseHandler (l_handler l) payload w.

Definition emit (ev : string) (payload : option value) (w : World) : World :=
  fold_left (call_listener payload)
            (List.filter (fun l => String.eqb (l_event l) ev) (listeners w)) w.

(** A timer that is still set when its turn comes fires and is gone. *)
Definition has_timer (h : nat) (w : World) : bool :=
  existsb (fun t => Nat.eqb (t_handle t) h) (timers w).

Definition fire (w : World) (t : Timer) : World :=
  if has_timer (t_handle t) w
  then timeoutCallback (t_handle t) (clearTimeout (t_handle t) w)
  else w.

(** Time passes: the timers that have come due fire. *)
Definition advance (dt : N) (w : World) : World :=
  let w := with_clock (clock w + dt)%N w in
  fold_left fire (List.filter (fun t => (t_due t <=? clock w)%N) (timers w)) w.

Inductive Event : Type :=
| Call (steamId64 : string) (gc : gc_method)
| Emit (ev : string) (payload : option value)
| Advance (dt : N).

Definition step (w : World) (e : Event) : World :=
  match e with
  | Call steamId64 gc => fetchProfile steamId64 gc w
  | Emit ev payload => emit ev payload w
  | Advance dt => advance dt w
  end.

Definition run (w : World) (es : list Event) : World := fold_left step es w.

Definition elapsed (es : list Event) : N :=
  fold_right (fun e acc => match e with Advance dt => (dt + acc)%N | _ => acc end) 0%N es.

Definition promise_of (k : nat) (w : World) : option promise :=
  req_promise <$> requests w !! k.

Definition listening (k : nat) (w : World) : bool :=
  existsb (fun l => Nat.eqb (l_handler l) k) (listeners w).

Definition times_deregistered (k : nat) (w : World) : nat :=
  count_occ Nat.eq_dec (deregistered w) k.

End ProfileFetcher.


(** ** gc/gcConnection.ts *)

Module GCConnection.
Import JS.

(** The two private flags of the class. *)
Record GCConnection := {
  isConnected : bool;
  isReady : bool;
}.

(** The fields as the class initialises them. *)
Definition constructed : GCConnection := {| isConnected := false; isReady := false |}.

(** The events of the coordinator client that [setupEventListeners]
    subscribes to. *)
Inductive Event : Type :=
| connectedToGC
| disconnectedFromGC (reason : Z)
| connectionStatus (status : Z)
| error (e : exn).

(** The listener registered for each event. *)
Definition handle (c : GCConnection) (e : Event) : GCConnection :=
  match e with
  | connectedToGC => {| isConnected := true; isReady := true |}
  | disconnectedFromGC _ => {| isConnected := false; isReady := false |}
  | connectionStatus status =>
      if (status =? 2)%Z then {| isConnected := false; isReady := false |}
      else if (status =? 4)%Z then c
      else if negb (status =? 3)%Z then {| isConnected := isConnected c; isReady := false |}
      else c
  | error _ => {| isConnected := false; isReady := false |}
  end.

Definition isGcReady (c : GCConnection) : bool := isReady c && isConnected c.

Definition run (c : GCConnection) (es : list Event) : GCConnection := fold_left handle es c.

(** An event that leaves a ready connection ready. *)
Definition keeps_ready (e : Event) : bool :=
  match e with
  | connectedToGC => true
  | connectionStatus status => (status =? 3)%Z || (status =? 4)%Z
  | _ => false
  end.

End GCConnection.


(** ** [JSON.stringify] and [JSON.parse], which the token file goes through *)

Module JSON.
Import JS.

Definition dquote : ascii := ascii_of_nat 34.
Definition backslash : ascii := ascii_of_nat 92.
Definition newline : ascii := ascii_of_nat 10.

Definition hex_digit (n : nat) : ascii :=
  if (n <? 10)%nat then ascii_of_nat (48 + n) else ascii_of_nat (87 + n).

Definition hex_value (c : ascii) : option nat :=
  let n := nat_of_ascii c in
  if (48 <=? n)%nat && (n <=? 57)%nat then Some (n - 48)%nat
  else if (97 <=? n)%nat && (n <=? 102)%nat then Some (n - 87)%nat
  else if (65 <=? n)%nat && (n <=? 70)%nat then Some (n - 55)%nat
  else None.

(** QuoteJSONString, one code unit at a time. *)
Definition quote_char (c : ascii) : string :=
  let n := nat_of_ascii c in
  if (n =? 34)%nat then String backslash (String dquote "")
  else if (n =? 92)%nat then String backslash (String backslash "")
  else if (n =? 8)%nat then String backslash "b"
  else if (n =? 9)%nat then String backslash "t"
  else if (n =? 10)%nat then String backslash "n"
  else if (n =? 12)%nat then String backslash "f"
  else if (n =? 13)%nat then String backslash "r"
  else if (n <? 32)%nat then
    String backslash
      (String "u" (String "0" (String "0"
         (String (hex_digit (n / 16)) (String (hex_digit (n mod 16)) "")))))
  else String c "".

Fixpoint quote_body (s : string) : string :=
  match s with
  | "" => ""
  | String c rest => quote_char c +:+ quote_body rest
  end.

Definition quote (s : string) : string :=
  String dquote (quote_body s +:+ String dquote "").

Definition string_of_Z (n : Z) : string :=
  DecimalString.NilZero.string_of_int (Z.to_int n).

Fixpoint join (sep : string) (parts : list string) : string :=
  match parts with
  | [] => ""
  | [p] => p
  | p :: rest => p +:+ sep +:+ join sep rest
  end.

(** SerializeJSONProperty with a [gap] (empty for the compact form) at the
    current [indent]. *)
Fixpoint serialize (gap indent : string) (v : value) : string :=
  match v with
  | VNull => "null"
  | VBool true => "true"
  | VBool false => "false"
  | VNum n => string_of_Z n
  | VStr s => quote s
  | VArr items =>
      match items with
      | [] => "[]"
      | _ =>
          let stepback := indent in
          let indent := indent +:+ gap in
          let partial := map (serialize gap indent) items in
          if String.eqb gap "" then "[" +:+ join "," partial +:+ "]"
          else "[" +:+ String newline indent
                   +:+ join ("," +:+ String newline indent) partial
                   +:+ String newline stepback +:+ "]"
      end
  | VObj fields =>
      match fields with
      | [] => "{}"
      | _ =>
          let stepback := indent in
          let indent := indent +:+ gap in
          let partial :=
            map (fun '(k, x) =>
                   quote k +:+ (if String.eqb gap "" then ":" else ": ")
                           +:+ serialize gap indent x) fields in
          if String.eqb gap "" then "{" +:+ join "," partial +:+ "}"
          else "{" +:+ String newline indent
                   +:+ join ("," +:+ String newline indent) partial
                   +:+ String newline stepback +:+ "}"
      end
  end.

(** [JSON.stringify(v)] and [JSON.stringify(v, null, 2)] *)
Definition stringify (v : value) : string := serialize "" "" v.
Definition stringify_2 (v : value) : string := serialize "  " "" v.

(** *** [JSON.parse] *)

Definition is_ws (c : ascii) : bool :=
  let n := nat_of_ascii c in
  (n =? 32)%nat || (n =? 9)%nat || (n =? 10)%nat || (n =? 13)%nat.

Fixpoint skip_ws (s : string) : string :=
  match s with
  | String c rest => if is_ws c then skip_ws rest else s
  | "" => ""
  end.

Fixpoint strip_prefix (p s : string) : option string :=
  match p, s with
  | "", _ => Some s
  | String a p', String b s' => if Ascii.eqb a b then strip_prefix p' s' else None
  | _, _ => None
  end.

Definition simple_escape (e : ascii) : option ascii :=
  let n := nat_of_ascii e in
  if (n =? 34)%nat then Some dquote
  else if (n =? 92)%nat then Some backslash
  else if (n =? 47)%nat then Some "/"%char
  else if (n =? 98)%nat then Some (ascii_of_nat 8)
  else if (n =? 102)%nat then Some (ascii_of_nat 12)
  else if (n =? 110)%nat then Some (ascii_of_nat 10)
  else if (n =? 114)%nat then Some (ascii_of_nat 13)
  else if (n =? 116)%nat then Some (ascii_of_nat 9)
  else None.

(** The code unit written [\uXXXX], when it fits the strings of this model. *)
Definition unicode_escape (h1 h2 h3 h4 : ascii) : option ascii :=
  match hex_value h1, hex_value h2, hex_value h3, hex_value h4 with
  | Some a, Some b, Some c, Some d =>
      let n := (((a * 16 + b) * 16 + c) * 16 + d)%nat in
      if (n <? 256)%nat then Some (ascii_of_nat n) else None
  | _, _, _, _ => None
  end.

(** Defining a property: a repeated key keeps its place and takes the new
    value. *)
Fixpoint set_field (k : string) (v : value) (fs : list (string * value))
  : list (string * value) :=
  match fs with
  | [] => [(k, v)]
  | (k', v') :: rest =>
      if String.eqb k k' then (k', v) :: rest else (k', v') :: set_field k v rest
  end.

Definition prepend (c : ascii) (r : option (string * string)) : option (string * string) :=
  match r with
  | Some (s, rest) => Some (String c s, rest)
  | None => None
  end.

(** The characters of a string literal after its opening quote, up to and
    including the closing quote. *)
Fixpoint parse_string_body (s : string) : option (string * string) :=
  match s with
  | "" => None
  | String c rest =>
      if (nat_of_ascii c =? 34)%nat then Some ("", rest)
      else if (nat_of_ascii c =? 92)%nat then
        match rest with
        | "" => None
        | String e rest' =>
            match simple_escape e with
            | Some c' => prepend c' (parse_string_body rest')
            | None =>
                if (nat_of_ascii e =? 117)%nat then
                  match rest' with
                  | String h1 (String h2 (String h3 (String h4 rest''))) =>
                      match unicode_escape h1 h2 h3 h4 with
                      | Some c' => prepend c' (parse_string_body rest'')
                      | None => None
                      end
                  | _ => None
                  end
                else None
            end
        end
      else if (nat_of_ascii c <? 32)%nat then None
      else prepend c (parse_string_body rest)
  end.

Fixpoint parse_digits (acc : Z) (s : string) : Z * string :=
  match s with
  | String c rest =>
      if is_digit c then parse_digits (acc * 10 + Z.of_nat (nat_of_ascii c - 48)) rest
      else (acc, s)
  | "" => (acc, s)
  end.

(** A zero that a digit follows: no number of a JSON text starts so. *)
Definition leading_zero (s : string) : bool :=
  match s with
  | String c (String d _) => (nat_of_ascii c =? 48)%nat && is_digit d
  | _ => false
  end.

(** Integers only: a number written with a fraction or an exponent has no
    value among the values of this development, and is not read. *)
Definition parse_number (s : string) : option (Z * string) :=
  let '(negative, s) :=
    match s with
    | String c rest => if (nat_of_ascii c =? 45)%nat then (true, rest) else (false, s)
    | "" => (false, s)
    end in
  match s with
  | String c _ =>
      if is_digit c then
        if leading_zero s then None
        else
          let '(n, rest) := parse_digits 0 s in
          match rest with
          | String d _ =>
              if (nat_of_ascii d =? 46)%nat || (nat_of_ascii d =? 101)%nat
                 || (nat_of_ascii d =? 69)%nat
              then None
              else Some (if negative then (- n)%Z else n, rest)
          | "" => Some (if negative then (- n)%Z else n, rest)
          end
      else None
  | "" => None
  end.

Fixpoint parse_value (fuel : nat) (s : string) : option (value * string) :=
  match fuel with
  | O => None
  | S fuel =>
      match skip_ws s with
      | "" => None
      | String c rest as s' =>
          let n := nat_of_ascii c in
          if (n =? 34)%nat then
            match parse_string_body rest with
            | Some (str, rest') => Some (VStr str, rest')
            | None => None
            end
          else if (n =? 123)%nat then
            match skip_ws rest with
            | String d rest' =>
                if (nat_of_ascii d =? 125)%nat then Some (VObj [], rest')
                else parse_members fuel [] (String d rest')
            | "" => None
            end
          else if (n =? 91)%nat then
            match skip_ws rest with
            | String d rest' =>
                if (nat_of_ascii d =? 93)%nat then Some (VArr [], rest')
                else parse_elements fuel [] (String d rest')
            | "" => None
            end
          else if (n =? 110)%nat then
            match strip_prefix "null" s' with
            | Some rest' => Some (VNull, rest')
            | None => None
            end
          else if (n =? 116)%nat then
            match strip_prefix "true" s' with
            | Some rest' => Some (VBool true, rest')
            | None => None
            end
          else if (n =? 102)%nat then
            match strip_prefix "false" s' with
            | Some rest' => Some (VBool false, rest')
            | None => None
            end
          else
            match parse_number s' with
            | Some (z, rest') => Some (VNum z, rest')
            | None => None
            end
      end
  end

with parse_elements (fuel : nat) (acc : list value) (s : string) : option (value * string) :=
  match fuel with
  | O => None
  | S fuel =>
      match parse_value fuel s with
      | Some (v, rest) =>
          match skip_ws rest with
          | String c rest' =>
              if (nat_of_ascii c =? 44)%nat then parse_elements fuel (v :: acc) rest'
              else if (nat_of_ascii c =? 93)%nat then Some (VArr (rev (v :: acc)), rest')
              else None
          | "" => None
          end
      | None => None
      end
  end

with parse_members (fuel : nat) (acc : list (string * value)) (s : string)
  : option (value * string) :=
  match fuel with
  | O => None
  | S fuel =>
      match skip_ws s with
      | String q rest =>
          if (nat_of_ascii q =? 34)%nat then
            match parse_string_body rest with
            | Some (key, rest) =>
                match skip_ws rest with
                | String colon rest =>
                    if (nat_of_ascii colon =? 58)%nat then
                      match parse_value fuel rest with
                      | Some (v, rest) =>
                          match skip_ws rest with
                          | String c rest' =>
                              if (nat_of_ascii c =? 44)%nat
                              then parse_members fuel (set_field key v acc) rest'
                              else if (nat_of_ascii c =? 125)%nat
                              then Some (VObj (set_field key v acc), rest')
                              else None
                          | "" => None
                          end
                      | None => None
                      end
                    else None
                | "" => None
                end
            | None => None
            end
          else None
      | "" => None
      end
  end.

(** [JSON.parse(text)]; [None] stands for the SyntaxError, and for a text
    that holds a number written with a fraction or an exponent. *)
Definition parse (text : string) : option value :=
  match parse_value (S (String.length text)) text with
  | Some (v, rest) => if String.eqb (skip_ws rest) "" then Some v else None
  | None => None
  end.

End JSON.


(** ** The files of [fs/promises], as far as the sources use them *)

Module FS.

(** A path is a directory and a name in it: [path.resolve(dir, name)],
    [path.join(dir, name)]; [path.dirname] gives the directory back. *)
Abbreviation path := (string * string)%type.

Definition dirname (p : path) : string := fst p.

Record FS := {
  dirs : gset string;
  files : gmap (string * string) string;
}.

(** Each operation fails only for want of the file or directory it names. *)
Definition access_dir (d : string) (fs : FS) : bool := bool_decide (d ∈ dirs fs).

Definition access (p : path) (fs : FS) : bool :=
  match files fs !! p with Some _ => true | None => false end.

Definition mkdir (d : string) (fs : FS) : FS :=
  {| dirs := {[d]} ∪ dirs fs; files := files fs |}.

Definition writeFile (p : path) (content : string) (fs : FS) : option FS :=
  if access_dir (dirname p) fs
  then Some {| dirs := dirs fs; files := <[p := content]> (files fs) |}
  else None.

Definition readFile (p : path) (fs : FS) : option string := files fs !! p.

Definition unlink (p : path) (fs : FS) : option FS :=
  if access p fs
  then Some {| dirs := dirs fs; files := delete p (files fs) |}
  else None.

End FS.

(** ** auth/steamAuth.ts *)

Module SteamAuth.
Import JS FS.

Definition MAX_DISCONNECTS : nat := 5.

(** The fields the constructor fixes. *)
Record Fields := {
  accountName : string;
  tokenPath : path;
  sentryPath : path;
  loginKeyPath : path;
  sharedSecret : option string;
}.

(** What reaches [saveSessionData] as [data]. *)
Inductive Data : Type :=
| Undefined
| Buffer (bytes : string)
| Plain (v : value).

Definition structured (token : value) (account date : string) : value :=
  VObj [("token", token); ("accountName", VStr account); ("savedAt", VStr date)].

(** [Buffer.prototype.toJSON] *)
Definition Buffer_toJSON (bytes : string) : value :=
  VObj [("type", VStr "Buffer");
        ("data", VArr (map (fun c => VNum (Z.of_nat (nat_of_ascii c)))
                           (list_ascii_of_string bytes)))].

Definition Object_keys_length (v : value) : nat :=
  match v with
  | VObj fs => length fs
  | VArr xs => length xs
  | _ => 0
  end.

(** [a || b || c || undefined] *)
Definition first_truthy (candidates : list (option value)) : option value :=
  List.find truthy candidates ≫= id.

(** The text [saveSessionData] prepares for [data] when [filename] is the
    token file; [date] is the reading of [new Date().toISOString()].  (The
    text the source prepares when it finds ['token' in dataObj] with a token
    that is not truthy is overwritten by the fallback that follows.) *)
Definition token_text (this : Fields) (date : string) (data : Data) : string :=
  let fallback :=                       (* JSON.stringify(data, null, 2) *)
    match data with
    | Plain v => JSON.stringify_2 v
    | Buffer bytes => JSON.stringify_2 (Buffer_toJSON bytes)
    | Undefined => ""
    end in
  let tokenValue : option value :=
    match data with
    | Plain (VStr s) => Some (VStr s)
    | Plain ((VObj _ | VArr _) as dataObj) =>
        let tokenValue :=
          first_truthy [prop dataObj "token"; prop dataObj "machineAuthToken";
                        prop dataObj "value"] in
        if negb (truthy tokenValue) && (0 <? Object_keys_length dataObj)%nat then
          if has_prop "token" dataObj then tokenValue
          else Some (VStr (JSON.stringify dataObj))
        else tokenValue
    | _ => None
    end in
  match tokenValue with
  | Some token =>
      if truthy tokenValue
      then JSON.stringify_2 (structured token (accountName this) date)
      else fallback
  | None => fallback
  end.

(** [saveSessionData(filename, data, source)]: the files afterwards and the
    boolean the promise resolves to. *)
Definition saveSessionData (this : Fields) (date : string)
  (filename : path) (data : Data) (fs : FS) : FS * bool :=
  match data with
  | Undefined => (fs, false)
  | _ =>
      let dir := dirname filename in
      let fs := if access_dir dir fs then fs else mkdir dir fs in
      let dataToSave : option string :=
        if bool_decide (filename = tokenPath this) then Some (token_text this date data)
        else
          match data with
          | Buffer bytes => Some bytes
          | Plain (VStr s) => Some (JSON.stringify_2 (VStr s))
          | Plain ((VObj _ | VArr _) as v) => Some (JSON.stringify_2 v)
          | _ => None
          end in
      match dataToSave with
      | None => (fs, false)
      | Some text =>
          match writeFile filename text fs with
          | Some fs' => (fs', access filename fs')
          | None => (fs, false)
          end
      end
  end.

(** [loadMachineAuthToken()]; [VNull] is the [null] it returns when there is
    no file. *)
Definition loadMachineAuthToken (this : Fields) (fs : FS) : value :=
  if negb (access (tokenPath this) fs) then VNull
  else
    match readFile (tokenPath this) fs with
    | None => VNull
    | Some tokenData =>
        match JSON.parse tokenData with
        | Some parsed =>
            if truthy (Some parsed) && typeof_object (Some parsed) && has_prop "token" parsed
            then nullish (prop parsed "token") VNull
            else parsed
        | None => VStr (trim tokenData)
        end
    end.

(** [saveLoginKey(key)] *)
Definition saveLoginKey (this : Fields) (key : string) (fs : FS) : FS * bool :=
  if String.eqb key "" then (fs, false)
  else
    let trimmedKey := trim key in
    if (String.length trimmedKey =? 0)%nat then (fs, false)
    else
      let dir := dirname (loginKeyPath this) in
      let fs := if access_dir dir fs then fs else mkdir dir fs in
      let testFile := (dir, ".write-test") in
      match writeFile testFile "test" fs ≫= unlink testFile with
      | None => (fs, false)
      | Some fs =>
          match writeFile (loginKeyPath this) trimmedKey fs with
          | None => (fs, false)
          | Some fs =>
              match readFile (loginKeyPath this) fs with
              | None => (fs, false)
              | Some readBack =>
                  if (String.length readBack =? 0)%nat then (fs, false)
                  else if negb (String.eqb (trim readBack) trimmedKey) then (fs, false)
                  else (fs, true)
              end
          end
      end.

(** [loadLoginKey()] *)
Definition loadLoginKey (this : Fields) (fs : FS) : option string :=
  if negb (access (loginKeyPath this) fs) then None
  else
    match readFile (loginKeyPath this) fs with
    | None => None
    | Some key =>
        let trimmedKey := trim key in
        if (String.length trimmedKey =? 0)%nat then None else Some trimmedKey
    end.

(** [loadSentryFile()] *)
Definition loadSentryFile (this : Fields) (fs : FS) : option string :=
  if negb (access (sentryPath this) fs) then None else readFile (sentryPath this) fs.

(** [handleInvalidLoginKey(username, error)]: the failure of [unlink] is
    caught. *)
Definition handleInvalidLoginKey (this : Fields) (fs : FS) : FS :=
  match unlink (loginKeyPath this) fs with
  | Some fs' => fs'
  | None => fs
  end.

(** *** The client, its listeners and the promises of [login] *)

Record LogOnOptions := {
  o_accountName : option string;
  o_password : option string;
  o_loginKey : option string;
  o_refreshToken : option string;
  o_machineAuthToken : option value;
  o_shaSentryfile : option string;
  o_twoFactorCode : option string;
}.

Inductive promise : Type :=
| Pending
| Resolved
| Rejected (reason : exn).

Inductive EventName : Type := on_loggedOn | on_error.

Inductive LoginMethod : Type := WithKey | WithPassword.

(** A [once] listener of a [login] call: [loggedOnHandler] or
    [errorHandler] of [loginWithKey] or [loginWithPassword], for the promise
    numbered [h_login]. *)
Record Handler := {
  h_event : EventName;
  h_method : LoginMethod;
  h_login : nat;
}.

Record State := {
  this : Fields;
  (** [SteamTotp.generateAuthCode] *)
  generateAuthCode : string -> string;
  today : string;
  disconnectCount : nat;
  disk : FS;
  (** the [once] listeners of the login calls, in the order registered,
      after the listeners of [setupEventListeners] *)
  handlers : list Handler;
  logOnCalls : list LogOnOptions;
  logins : list promise;
}.

Inductive Process : Type :=
| Running (s : State)
| Exited (code : Z) (s : State).

Definition constructed (fields : Fields) (totp : string -> string) (date : string) (fs : FS)
  : State :=
  {| this := fields; generateAuthCode := totp; today := date; disconnectCount := 0;
     disk := fs; handlers := []; logOnCalls := []; logins := [] |}.

Definition with_disconnectCount (n : nat) (s : State) : State :=
  {| this := this s; generateAuthCode := generateAuthCode s; today := today s;
     disconnectCount := n; disk := disk s; handlers := handlers s;
     logOnCalls := logOnCalls s; logins := logins s |}.

Definition with_disk (fs : FS) (s : State) : State :=
  {| this := this s; generateAuthCode := generateAuthCode s; today := today s;
     disconnectCount := disconnectCount s; disk := fs; handlers := handlers s;
     logOnCalls := logOnCalls s; logins := logins s |}.

Definition with_handlers (hs : list Handler) (s : State) : State :=
  {| this := this s; generateAuthCode := generateAuthCode s; today := today s;
     disconnectCount := disconnectCount s; disk := disk s; handlers := hs;
     logOnCalls := logOnCalls s; logins := logins s |}.

Definition with_logOnCalls (cs : list LogOnOptions) (s : State) : State :=
  {| this := this s; generateAuthCode := generateAuthCode s; today := today s;
     disconnectCount := disconnectCount s; disk := disk s; handlers := handlers s;
     logOnCalls := cs; logins := logins s |}.

Definition with_logins (ps : list promise) (s : State) : State :=
  {| this := this s; generateAuthCode := generateAuthCode s; today := today s;
     disconnectCount := disconnectCount s; disk := disk s; handlers := handlers s;
     logOnCalls := logOnCalls s; logins := ps |}.

Definition EventName_eqb (a b : EventName) : bool :=
  match a, b with
  | on_loggedOn, on_loggedOn | on_error, on_error => true
  | _, _ => false
  end.

Definition LoginMethod_eqb (a b : LoginMethod) : bool :=
  match a, b with
  | WithKey, WithKey | WithPassword, WithPassword => true
  | _, _ => false
  end.

Definition Handler_eqb (a b : Handler) : bool :=
  EventName_eqb (h_event a) (h_event b) && LoginMethod_eqb (h_method a) (h_method b)
  && Nat.eqb (h_login a) (h_login b).

(** [client.once(ev, h)], [client.removeListener(ev, h)], and the promise
    callbacks. *)
Definition once (h : Handler) (s : State) : State :=
  with_handlers (handlers s ++ [h]) s.

Definition removeListener (h : Handler) (s : State) : State :=
  match ProfileFetcher.remove_last (Handler_eqb h) (handlers s) with
  | Some hs => with_handlers hs s
  | None => s
  end.

Definition settle (p : nat) (outcome : promise) (s : State) : State :=
  match logins s !! p with
  | Some Pending => with_logins (<[p := outcome]> (logins s)) s
  | _ => s
  end.

(** [error instanceof Error ? error : new Error(String(error))] *)
Definition as_Error (e : exn) : exn := Error (errorMessage e).

(** [handleDisconnect()] *)
Definition handleDisconnect (s : State) : Process :=
  let s := with_disconnectCount (disconnectCount s + 1) s in
  if (MAX_DISCONNECTS <=? disconnectCount s)%nat then Exited 1 s else Running s.

(** [tryExtractLoginKeyFromClient()]: [candidates] are the strings its scan
    of the client object comes upon, in order; the first that
    [saveLoginKey] saves ends the scan. *)
Fixpoint tryExtractLoginKeyFromClient (this : Fields) (candidates : list string) (fs : FS) : FS :=
  match candidates with
  | [] => fs
  | key :: rest =>
      let '(fs', saved) := saveLoginKey this key fs in
      if saved then fs' else tryExtractLoginKeyFromClient this rest fs'
  end.

(** What a 'loggedOn' event finds in the client object: the candidates of
    the key scan and the machine auth token [tryExtractTokenFromClient]
    finds, if any. *)
Record Internals := {
  key_candidates : list string;
  found_token : option Data;
}.

Definition loggedOnHandler (h : Handler) (found : Internals) (s : State) : State :=
  let errorHandler := {| h_event := on_error; h_method := h_method h; h_login := h_login h |} in
  let s := removeListener errorHandler s in
  match h_method h with
  | WithKey => settle (h_login h) Resolved s
  | WithPassword =>
      let s := with_disk (tryExtractLoginKeyFromClient (this s) (key_candidates found) (disk s)) s in
      let s :=
        match found_token found with
        | Some token =>
            with_disk (fst (saveSessionData (this s) (today s) (tokenPath (this s)) token (disk s))) s
        | None => s
        end in
      settle (h_login h) Resolved s
  end.

Definition errorHandler (h : Handler) (error : exn) (s : State) : State :=
  let err := as_Error error in
  let loggedOnHandler := {| h_event := on_loggedOn; h_method := h_method h; h_login := h_login h |} in
  let s := removeListener loggedOnHandler s in
  match h_method h with
  | WithKey =>
      let s := with_disk (handleInvalidLoginKey (this s) (disk s)) s in
      settle (h_login h) (Rejected err) s
  | WithPassword => settle (h_login h) (Rejected err) s
  end.

(** [loginWithKey(username, loginKey)] and [loginWithPassword(loginOptions)]:
    the handlers are registered, then [client.logOn] is called. *)
Definition key_options (username loginKey : string) : LogOnOptions :=
  if String.prefix "eyJ" loginKey || String.prefix "eyA" loginKey
  then {| o_accountName := None; o_password := None; o_loginKey := None;
          o_refreshToken := Some loginKey; o_machineAuthToken := None;
          o_shaSentryfile := None; o_twoFactorCode := None |}
  else {| o_accountName := Some username; o_password := None; o_loginKey := Some loginKey;
          o_refreshToken := None; o_machineAuthToken := None;
          o_shaSentryfile := None; o_twoFactorCode := None |}.

Definition start_login (method : LoginMethod) (options : LogOnOptions) (s : State) : State :=
  let p := length (logins s) in
  let s := with_logins (logins s ++ [Pending]) s in
  let s := once {| h_event := on_loggedOn; h_method := method; h_login := p |} s in
  let s := once {| h_event := on_error; h_method := method; h_login := p |} s in
  with_logOnCalls (logOnCalls s ++ [options]) s.

Definition loginWithKey (username loginKey : string) (s : State) : State :=
  start_login WithKey (key_options username loginKey) s.

Definition loginWithPassword (options : LogOnOptions) (s : State) : State :=
  start_login WithPassword options s.

(** [login(username, password, sharedSecret)] *)
Definition login (username password : string) (secret : option string) (s : State) : State :=
  match loadLoginKey (this s) (disk s) with
  | Some loginKey => loginWithKey username loginKey s
  | None =>
      let machineAuthToken := loadMachineAuthToken (this s) (disk s) in
      let sentry := loadSentryFile (this s) (disk s) in
      loginWithPassword
        {| o_accountName := Some username;
           o_password := Some password;
           o_loginKey := None;
           o_refreshToken := None;
           o_machineAuthToken :=
             if truthy (Some machineAuthToken) then Some machineAuthToken else None;
           o_shaSentryfile := sentry;
           o_twoFactorCode :=
             match secret with
             | Some sec => if String.eqb sec "" then None else Some (generateAuthCode s sec)
             | None => None
             end |} s
  end.

(** *** The events of the client and the calls of [login]

    The listeners of [setupEventListeners] come first in the order of
    registration, the [once] listeners of the login calls after them.  What
    a listener awaits is taken in the step of its event.  The events whose
    listeners only log or answer the client ('steamGuardCode',
    'newGuardCode') are left out. *)

Inductive Event : Type :=
| Login (username password : string) (secret : option string)
| loggedOn (found : Internals)
| error (e : exn)
| disconnected (eresult : Z)
| loginKey (key : string)
| machineAuthToken (token : Data)
| sentry (bytes : string).

(** What the client hands to the listeners of an event. *)
Inductive Emission : Type :=
| emitted_loggedOn (found : Internals)
| emitted_error (e : exn).

Definition event_of (m : Emission) : EventName :=
  match m with
  | emitted_loggedOn _ => on_loggedOn
  | emitted_error _ => on_error
  end.

(** The listeners of the login calls that are registered for the event when
    the emission starts are called in order, each removed before its call. *)
Definition call_handler (m : Emission) (s : State) (h : Handler) : State :=
  let s := removeListener h s in
  match m with
  | emitted_loggedOn found => loggedOnHandler h found s
  | emitted_error e => errorHandler h e s
  end.

Definition emit_to_logins (m : Emission) (s : State) : State :=
  fold_left (call_handler m)
            (List.filter (fun h => EventName_eqb (h_event h) (event_of m)) (handlers s)) s.

Definition step (s : State) (ev : Event) : Process :=
  match ev with
  | Login username password secret => Running (login username password secret s)
  | loggedOn found =>
      (* the watchdog listener resets the counter *)
      let s := with_disconnectCount 0 s in
      let s := emit_to_logins (emitted_loggedOn found) s in
      (* the first listener's scan runs after its delay *)
      Running (with_disk (tryExtractLoginKeyFromClient (this s) (key_candidates found) (disk s)) s)
  | error e =>
      match handleDisconnect s with
      | Running s => Running (emit_to_logins (emitted_error e) s)
      | Exited code s => Exited code s
      end
  | disconnected _ => handleDisconnect s
  | loginKey key => Running (with_disk (fst (saveLoginKey (this s) key (disk s))) s)
  | machineAuthToken token =>
      Running (with_disk (fst (saveSessionData (this s) (today s) (tokenPath (this s)) token (disk s))) s)
  | sentry bytes =>
      Running (with_disk (fst (saveSessionData (this s) (today s) (sentryPath (this s)) (Buffer bytes) (disk s))) s)
  end.

(** Nothing runs in a process that has exited. *)
Definition next (p : Process) (ev : Event) : Process :=
  match p with
  | Running s => step s ev
  | Exited code s => Exited code s
  end.

Definition run (p : Process) (evs : list Event) : Process := fold_left next evs p.

(** The number of 'error' and 'disconnected' events since the last
    'loggedOn' event. *)
Definition counted (n : nat) (ev : Event) : nat :=
  match ev with
  | loggedOn _ => 0
  | error _ | disconnected _ => S n
  | _ => n
  end.

Definition streak (evs : list Event) : nat := fold_left counted evs 0.

Definition is_disconnect (ev : Event) : bool :=
  match ev with
  | error _ | disconnected _ => true
  | _ => false
  end.

End SteamAuth.


(** ** api/server.ts *)

Module APIServer.
Import JS.

(** What the handler of [GET /api/profile/:steamId64] reads of the request. *)
Record Request := {
  steamId64 : string;          (* req.params.steamId64 *)
  force : option string;       (* req.query.force *)
}.

(** What it reads of its surroundings: the readiness of the coordinator
    connection, the environment variable, what
    [profileFetcher.loadProfileFromFile] answers ([None] for [null]) and how
    the promise of [profileFetcher.fetchProfile] ends. *)
Record Surroundings := {
  isGcReady : bool;
  ENABLE_FILE_CACHE : option string;
  loadProfileFromFile : option value;
  fetchProfile : ProfileFetcher.promise;
}.

Inductive Body : Type :=
| error_body (error : string) (message : option string)
| cached_body (cached : value)
| profile_body (profile : ProfileFetcher.PlayerProfile).

Record Response := {
  status : Z;
  body : Body;
}.

Definition served_from_cache (env : Surroundings) (req : Request) : bool :=
  match ENABLE_FILE_CACHE env with
  | Some flag =>
      String.eqb flag "true" && truthy (loadProfileFromFile env)
      && negb (match force req with Some f => String.eqb f "true" | None => false end)
  | None => false
  end.

(** The route handler; [None] while the promise it awaits is pending. *)
Definition profile_route (env : Surroundings) (req : Request) : option Response :=
  if negb (test_17_digits (steamId64 req)) then
    Some {| status := 400;
            body := error_body "Invalid Steam ID 64 format. Must be 17 digits." None |}
  else if negb (isGcReady env) then
    Some {| status := 503;
            body := error_body "Game Coordinator not ready. Please wait for connection." None |}
  else if served_from_cache env req then
    match loadProfileFromFile env with
    | Some cached => Some {| status := 200; body := cached_body cached |}
    | None => None
    end
  else
    match fetchProfile env with
    | ProfileFetcher.Resolved profile => Some {| status := 200; body := profile_body profile |}
    | ProfileFetcher.Rejected error =>
        Some {| status := 500;
                body := error_body "Failed to fetch player profile" (Some (errorMessage error)) |}
    | ProfileFetcher.Pending => None
    end.

End APIServer.

(** ** One call of [fetchProfile] within the world

    The vocabulary of the statements about the correlation of requests and
    responses: what the world holds for one call, what each operation does
    to that, and the phases a call goes through. *)

Module Calls.
Import JS ProfileFetcher.

(** What the world holds for call [k]: its listeners, its timers, its
    request and the number of times its handler was deregistered. *)
Definition on_handler (k : nat) (l : Listener) : bool := Nat.eqb (l_handler l) k.
Definition on_handle (k : nat) (t : Timer) : bool := Nat.eqb (t_handle t) k.

Record View := {
  v_listeners : list Listener;
  v_timers : list Timer;
  v_request : option Request;
  v_deregistered : nat;
}.

Definition view (k : nat) (w : World) : View :=
  {| v_listeners := List.filter (on_handler k) (listeners w);
     v_timers := List.filter (on_handle k) (timers w);
     v_request := requests w !! k;
     v_deregistered := times_deregistered k w |}.

(** The operations of the emitter, of the timers and of the promise, as
    they act on the view of the call they concern. *)
Definition v_once (ev : string) (k : nat) (v : View) : View :=
  {| v_listeners := v_listeners v ++ [{| l_event := ev; l_handler := k; l_once := true |}];
     v_timers := v_timers v; v_request := v_request v;
     v_deregistered := v_deregistered v |}.

Definition v_removeListener (ev : string) (k : nat) (v : View) : View :=
  match remove_last (listens ev k) (v_listeners v) with
  | Some ls =>
      {| v_listeners := ls; v_timers := v_timers v; v_request := v_request v;
         v_deregistered := v_deregistered v + 1 |}
  | None => v
  end.

Definition v_setTimeout (k : nat) (due : N) (v : View) : View :=
  {| v_listeners := v_listeners v;
     v_timers := v_timers v ++ [{| t_handle := k; t_due := due |}];
     v_request := v_request v; v_deregistered := v_deregistered v |}.

Definition v_clearTimeout (v : View) : View :=
  {| v_listeners := v_listeners v; v_timers := [];
     v_request := v_request v; v_deregistered := v_deregistered v |}.

Definition v_settle (o : promise) (v : View) : View :=
  match v_request v with
  | Some {| req_steamId64 := id; req_promise := Pending |} =>
      {| v_listeners := v_listeners v; v_timers := v_timers v;
         v_request := Some {| req_steamId64 := id; req_promise := o |};
         v_deregistered := v_deregistered v |}
  | _ => v
  end.

(** The phases of call [k]: not made yet; refused for its identifier;
    waiting, with its listener and its timer; left with its timer only, after
    a payload that was no object; settled. *)
Inductive phase (k : nat) : View -> Prop :=
| Unborn :
    phase k {| v_listeners := []; v_timers := []; v_request := None; v_deregistered := 0 |}
| Refused (id : string) :
    test_17_digits id = false ->
    phase k {| v_listeners := []; v_timers := [];
               v_request := Some {| req_steamId64 := id;
                                    req_promise := Rejected (Error "Invalid Steam ID 64 format. Must be 17 digits.") |};
               v_deregistered := 0 |}
| Live (id : string) (due : N) :
    test_17_digits id = true ->
    phase k {| v_listeners := [{| l_event := eventName id; l_handler := k; l_once := true |}];
               v_timers := [{| t_handle := k; t_due := due |}];
               v_request := Some {| req_steamId64 := id; req_promise := Pending |};
               v_deregistered := 0 |}
| Orphan (id : string) (due : N) :
    test_17_digits id = true ->
    phase k {| v_listeners := [];
               v_timers := [{| t_handle := k; t_due := due |}];
               v_request := Some {| req_steamId64 := id; req_promise := Pending |};
               v_deregistered := 1 |}
| Settled (id : string) (p : promise) :
    test_17_digits id = true -> p <> Pending ->
    (forall profile, p = Resolved profile -> steamId64 profile = id) ->
    phase k {| v_listeners := []; v_timers := [];
               v_request := Some {| req_steamId64 := id; req_promise := p |};
               v_deregistered := 1 |}.

(** Every call is in one of its phases. *)
Definition consistent (w : World) : Prop := forall k, phase k (view k w).

(** The handlers and [fetchProfile] itself, on the view of their call. *)
Definition v_steamId64 (v : View) : string :=
  match v_request v with
  | Some r => req_steamId64 r
  | None => ""
  end.

Definition v_responseHandler (date : string) (cache : bool) (fault : option exn)
  (k : nat) (profile : option value) (v : View) : View :=
  if negb (truthy profile) || negb (typeof_object profile) then v
  else
    match profile with
    | None => v
    | Some typedProfile =>
        let steamId64 := v_steamId64 v in
        let v := v_clearTimeout v in
        let parsedProfile := parseProfileResponse date typedProfile steamId64 in
        match (if cache then fault else None) with
        | None => v_settle (Resolved parsedProfile) (v_removeListener (eventName steamId64) k v)
        | Some error => v_settle (Rejected error) (v_removeListener (eventName steamId64) k v)
        end
    end.

Definition v_call_listener (date : string) (cache : bool) (fault : option exn)
  (payload : option value) (l : Listener) (v : View) : View :=
  let v := if l_once l then v_removeListener (l_event l) (l_handler l) v else v in
  v_responseHandler date cache fault (l_handler l) payload v.

Definition v_timeoutCallback (k : nat) (v : View) : View :=
  let steamId64 := v_steamId64 v in
  v_settle (Rejected (Error ("Timeout waiting for profile response for " +:+ steamId64)))
           (v_removeListener (eventName steamId64) k v).

Definition v_fire (k : nat) (v : View) : View :=
  match v_timers v with
  | [] => v
  | _ :: _ => v_timeoutCallback k (v_clearTimeout v)
  end.

Definition v_fetchProfile (now : N) (steamId64 : string) (gc : gc_method) (k : nat) (v : View)
  : View :=
  let v := {| v_listeners := v_listeners v; v_timers := v_timers v;
              v_request := Some {| req_steamId64 := steamId64; req_promise := Pending |};
              v_deregistered := v_deregistered v |} in
  if negb (test_17_digits steamId64) then
    v_settle (Rejected (Error "Invalid Steam ID 64 format. Must be 17 digits.")) v
  else
    let v := v_setTimeout k (now + PROFILE_REQUEST_TIMEOUT_MS) (v_once (eventName steamId64) k v) in
    let failed (error : exn) :=
      v_settle (Rejected error) (v_removeListener (eventName steamId64) k (v_clearTimeout v)) in
    match gc with
    | MethodReturns => v
    | MethodThrows error => failed error
    | MethodAbsent => failed (Error "requestPlayersProfile method not available on GC instance")
    end.

(** The time an event takes. *)
Definition duration (e : Event) : N :=
  match e with
  | Advance dt => dt
  | _ => 0
  end.

(** The view of a call that waits for its response until [due], of a call
    that has timed out, and of any call that is settled. *)
Definition waiting (id : string) (k : nat) (due : N) : View :=
  {| v_listeners := [{| l_event := eventName id; l_handler := k; l_once := true |}];
     v_timers := [{| t_handle := k; t_due := due |}];
     v_request := Some {| req_steamId64 := id; req_promise := Pending |};
     v_deregistered := 0 |}.

Definition timed_out (id : string) : View :=
  {| v_listeners := []; v_timers := [];
     v_request :=
       Some {| req_steamId64 := id;
               req_promise := Rejected (Error ("Timeout waiting for profile response for " +:+ id)) |};
     v_deregistered := 1 |}.

Definition settled (v : View) : Prop :=
  v_listeners v = [] /\ v_timers v = [] /\
  exists r, v_request v = Some r /\ req_promise r <> Pending.

(** The identifiers [fetchProfile] was called with, in a history and in a
    world. *)
Definition calls (es : list Event) : list string :=
  flat_map (fun e => match e with Call id _ => [id] | _ => [] end) es.

Definition ids (w : World) : list string := map req_steamId64 (requests w).

End Calls.

(** ** What the listeners of the login calls preserve *)

Module KeyLoginInvariants.
Import JS FS SteamAuth.

(** What the listeners of the login calls leave alone. *)
Record same_setup (s s' : State) : Prop := {
  same_this : this s' = this s;
  same_calls : logOnCalls s' = logOnCalls s;
  same_count : disconnectCount s' = disconnectCount s;
}.

(** The promise of call [p] while an 'error' event is being delivered. *)
Definition pending_or_rejected (p : nat) (e : exn) (s : State) : Prop :=
  logins s !! p = Some Pending \/ logins s !! p = Some (Rejected (as_Error e)).

End KeyLoginInvariants.

(** ** The text of an object of strings, as [JSON.stringify(..., null, 2)] lays it out *)

Module TokenText.
Import JS JSON.

(** A member [\n  "key": "value"] of an object whose values are strings,
    followed by a comma or by the closing brace. *)
Definition member_text (key val rest : string) : string :=
  String newline (String " " (String " " (String dquote
    (quote_body key +:+ String dquote (String ":" (String " " (String dquote
       (quote_body val +:+ String dquote rest)))))))).

End TokenText.

(** ** Sample data for the examples *)

Module Samples.
Import JS FS SteamAuth.

Definition sample_response : value :=
  VObj [("account_id", VNum 1480750710);
        ("commendation", VObj [("cmd_friendly", VNum 3); ("cmd_leader", VNum 0)]);
        ("medals", VObj [("display_items_defidx",
                          VArr [VNum 4873; VStr "4873"; VNum 970; VNum 4873; VNull])]);
        ("player_level", VNum 12)].

Definition response_of_someone_else : value :=
  VObj [("account_id", VNum 42); ("player_level", VNum 3)].

Definition sample_fields : Fields :=
  {| accountName := "deepscope";
     tokenPath := ("/srv/app", "token_deepscope.json");
     sentryPath := ("/srv/app", "sentry_deepscope.bin");
     loginKeyPath := ("/srv/app", "loginKey_deepscope.txt");
     sharedSecret := None |}.

Definition disk_with_key : FS :=
  {| dirs := {["/srv/app"]};
     files := {[ ("/srv/app", "loginKey_deepscope.txt") := "eyJhbGciOiJFZERTQSJ9.e30.c2ln" ]} |}.

Definition sample_auth : State :=
  constructed sample_fields (fun _ => "2F9J5") "2024-01-01T00:00:00.000Z" disk_with_key.

Definition empty_disk : FS := {| dirs := ∅; files := ∅ |}.

End Samples.

(** ** The layout of a JSON text *)

Module JSONLayout.
Import JS JSON.

(** An object holds each of its keys once. *)
Fixpoint keys_once (ks : list string) : bool :=
  match ks with
  | [] => true
  | k :: rest => negb (existsb (String.eqb k) rest) && keys_once rest
  end.

Fixpoint distinct_keys (v : value) : bool :=
  match v with
  | VArr items => forallb distinct_keys items
  | VObj fields =>
      keys_once (map fst fields) && forallb (fun '(_, x) => distinct_keys x) fields
  | _ => true
  end.

(** The steps the reading of a value takes. *)
Fixpoint weight (v : value) : nat :=
  match v with
  | VArr items => S (list_sum (map (fun x => S (weight x)) items))
  | VObj fields => S (list_sum (map (fun '(_, x) => S (weight x)) fields))
  | _ => 1
  end.

(** White space only. *)
Fixpoint blank (s : string) : bool :=
  match s with
  | "" => true
  | String c rest => is_ws c && blank rest
  end.

(** A text before which a number ends. *)
Definition ends_number (rest : string) : bool :=
  match rest with
  | "" => true
  | String c _ =>
      negb (is_digit c)
      && negb ((nat_of_ascii c =? 46)%nat || (nat_of_ascii c =? 101)%nat
               || (nat_of_ascii c =? 69)%nat)
  end.

(** The first character of the text of a value. *)
Definition starts_value (c : ascii) : bool :=
  let n := nat_of_ascii c in
  (n =? 34)%nat || (n =? 123)%nat || (n =? 91)%nat || (n =? 110)%nat
  || (n =? 116)%nat || (n =? 102)%nat || (n =? 45)%nat || is_digit c.

(** The value of the digits [d] after the digits that gave [acc]. *)
Fixpoint digits_value (d : Decimal.uint) (acc : Z) : Z :=
  match d with
  | Decimal.Nil => acc
  | Decimal.D0 d => digits_value d (acc * 10 + 0)
  | Decimal.D1 d => digits_value d (acc * 10 + 1)
  | Decimal.D2 d => digits_value d (acc * 10 + 2)
  | Decimal.D3 d => digits_value d (acc * 10 + 3)
  | Decimal.D4 d => digits_value d (acc * 10 + 4)
  | Decimal.D5 d => digits_value d (acc * 10 + 5)
  | Decimal.D6 d => digits_value d (acc * 10 + 6)
  | Decimal.D7 d => digits_value d (acc * 10 + 7)
  | Decimal.D8 d => digits_value d (acc * 10 + 8)
  | Decimal.D9 d => digits_value d (acc * 10 + 9)
  end.

(** What follows an element of an array, and a member of an object: the
    elements and members still to come, each after a comma and its
    indentation, then the closing bracket. *)
Fixpoint elements_text (lead trail : string) (parts : list string) (rest : string) : string :=
  match parts with
  | [] => trail +:+ String "]" rest
  | p :: parts => String "," (lead +:+ p +:+ elements_text lead trail parts rest)
  end.

Fixpoint members_text (lead trail : string) (parts : list string) (rest : string) : string :=
  match parts with
  | [] => trail +:+ String "}" rest
  | p :: parts => String "," (lead +:+ p +:+ members_text lead trail parts rest)
  end.

(** The indentation [JSON.stringify] puts before an element and before the
    closing bracket. *)
Definition lead_of (gap indent : string) : string :=
  if String.eqb gap "" then "" else String newline (indent +:+ gap).

Definition trail_of (gap indent : string) : string :=
  if String.eqb gap "" then "" else String newline indent.

Definition member (gap indent : string) (kv : string * value) : string :=
  quote (fst kv) +:+ (if String.eqb gap "" then ":" else ": ")
    +:+ serialize gap (indent +:+ gap) (snd kv).

(** A value whose text is read back as the value, whatever follows it. *)
Definition reads_back (v : value) : Prop :=
  forall (gap indent rest : string) (fuel : nat),
    blank gap = true -> blank indent = true -> distinct_keys v = true ->
    ends_number rest = true -> weight v <= fuel ->
    parse_value fuel (serialize gap indent v +:+ rest) = Some (v, rest).

End JSONLayout.

(** ** gc/profileFetcher.ts: the profile files and the account identifier *)

Module ProfileFiles.
Import JS FS ProfileFetcher.

(** What [JSON.stringify] reads of a profile: the properties in the order
    the object literal of [parseProfileResponse] gives them; a property
    whose value is [undefined] is left out. *)
Definition medal_json (m : ServiceMedal) : value := VObj [("medalId", VNum (medalId m))].

Definition profile_json (p : PlayerProfile) : value :=
  VObj ([("steamId64", VStr (steamId64 p));
         ("commendations",
          VObj [("friendly", friendly (commendations p));
                ("leader", leader (commendations p));
                ("teacher", teacher (commendations p))]);
         ("medals", VArr (map medal_json (medals p)));
         ("equippedMedal", equippedMedal p)]
        ++ match xpLevel p with
           | Some level => [("xpLevel", level)]
           | None => []
           end
        ++ [("fetchedAt", VStr (fetchedAt p))]).

(** [path.join(this.outputDir, `${steamId64}.json`)] *)
Definition profile_path (outputDir steamId64 : string) : path :=
  (outputDir, steamId64 +:+ ".json").

(** The error of an operation on a file whose directory is not there. *)
Definition ENOENT (p : path) : exn :=
  Error ("ENOENT: no such file or directory, open '" +:+ fst p +:+ "/" +:+ snd p +:+ "'").

(** [ensureOutputDirectory()] *)
Definition ensureOutputDirectory (outputDir : string) (fs : FS) : FS :=
  if access_dir outputDir fs then fs else mkdir outputDir fs.

(** [saveProfileToFile(profile)]: the files afterwards, and the error it
    throws, if any. *)
Definition saveProfileToFile (outputDir : string) (profile : PlayerProfile) (fs : FS)
  : FS * option exn :=
  if negb (test_17_digits (steamId64 profile)) then
    (fs, Some (Error ("Invalid Steam ID 64 format: " +:+ steamId64 profile)))
  else
    let fs := ensureOutputDirectory outputDir fs in
    let filePath := profile_path outputDir (steamId64 profile) in
    match writeFile filePath (JSON.stringify_2 (profile_json profile)) fs with
    | Some fs' => (fs', None)
    | None => (fs, Some (ENOENT filePath))
    end.

(** [loadProfileFromFile(steamId64)]; [VNull] is the [null] it returns. *)
Definition loadProfileFromFile (outputDir steamId64 : string) (fs : FS) : value :=
  if negb (test_17_digits steamId64) then VNull
  else
    match readFile (profile_path outputDir steamId64) fs with
    | Some data =>
        match JSON.parse data with
        | Some parsed => parsed
        | None => VNull
        end
    | None => VNull
    end.

(** [BigInt(s)] for a string: white space around the literal is dropped,
    the empty literal is zero, a decimal literal may carry a sign, a
    literal with the prefix [0x], [0o] or [0b] may not; [None] stands for
    the SyntaxError. *)
Fixpoint digits_in (base : nat) (acc : Z) (s : string) : option Z :=
  match s with
  | "" => Some acc
  | String c rest =>
      match JSON.hex_value c with
      | Some d =>
          if (d <? base)%nat then digits_in base (acc * Z.of_nat base + Z.of_nat d) rest
          else None
      | None => None
      end
  end.

Definition literal_in (base : nat) (s : string) : option Z :=
  match s with
  | "" => None
  | _ => digits_in base 0 s
  end.

(** The base a prefix announces, and the digits after it. *)
Definition prefixed (s : string) : option (nat * string) :=
  match s with
  | String zero (String letter digits) =>
      if (nat_of_ascii zero =? 48)%nat then
        let n := nat_of_ascii letter in
        if (n =? 120)%nat || (n =? 88)%nat then Some (16, digits)
        else if (n =? 111)%nat || (n =? 79)%nat then Some (8, digits)
        else if (n =? 98)%nat || (n =? 66)%nat then Some (2, digits)
        else None
      else None
  | _ => None
  end.

Definition BigInt (s : string) : option Z :=
  let s := trim s in
  match s with
  | "" => Some 0%Z
  | String c digits =>
      match prefixed s with
      | Some (base, digits) => literal_in base digits
      | None =>
          if (nat_of_ascii c =? 43)%nat then literal_in 10 digits
          else if (nat_of_ascii c =? 45)%nat then Z.opp <$> literal_in 10 digits
          else literal_in 10 s
      end
  end.

(** [steamId64ToAccountId(steamId64)]: [Number(BigInt(steamId64) &
    BigInt(0xFFFFFFFF))]. *)
Definition steamId64ToAccountId (steamId64 : string) : option Z :=
  (fun id => Z.land id 4294967295) <$> BigInt steamId64.

End ProfileFiles.

(** ** White space, as [String.prototype.trim] has it *)

Module WhiteSpace.

(** The code units below 256 that are WhiteSpace or LineTerminator in
    ECMAScript: TAB, LF, VT, FF, CR, SP and NBSP. *)
Definition code_units : list nat := [9; 10; 11; 12; 13; 32; 160].

Definition is_white (c : ascii) : Prop := In (nat_of_ascii c) code_units.

Definition all_white (s : string) : Prop :=
  forall c, In c (list_ascii_of_string s) -> is_white c.

(** A text that neither starts nor ends with white space. *)
Definition trimmed (s : string) : Prop :=
  (forall c rest, s = String c rest -> ~ is_white c) /\
  (forall init c, s = init +:+ String c "" -> ~ is_white c).

End WhiteSpace.

(** ** auth/steamAuth.ts: the session files and the calls of [login] *)

Module SteamAuthSetup.
Import JS FS SteamAuth.

(** The token file, the sentry file and the key file are three files. *)
Definition separate_files (this : Fields) : Prop :=
  tokenPath this <> sentryPath this /\
  loginKeyPath this <> tokenPath this /\
  loginKeyPath this <> sentryPath this.

(** The promise of a login call while a 'loggedOn' event is delivered. *)
Definition pending_or_resolved (p : nat) (s : State) : Prop :=
  logins s !! p = Some Pending \/ logins s !! p = Some Resolved.

(** The token [saveSessionData] finds in an object: [dataObj.token ||
    dataObj.machineAuthToken || dataObj.value]. *)
Definition token_of (dataObj : value) : option value :=
  first_truthy [prop dataObj "token"; prop dataObj "machineAuthToken"; prop dataObj "value"].

(** A key [saveLoginKey] does not refuse. *)
Definition usable (key : string) : bool := negb (String.eqb (trim key) "").

End SteamAuthSetup.

(** ** gc/gcConnection.ts: waiting for the coordinator *)

Module GCWait.
Import JS GCConnection.

Definition GC_WAIT_FOR_READY_TIMEOUT_MS : N := 30000.

Inductive promise : Type :=
| Pending
| Resolved
| Rejected (reason : exn).

(** The listeners a call of [waitForReady] puts on the coordinator client:
    [statusHandler] on 'connectionStatus' and [readyHandler], once, on
    'connectedToGC'; the number of the call names its closures, its timer
    and its promise.  The listeners of [setupEventListeners] are on the
    client before any of them. *)
Inductive Listener : Type :=
| readyHandler (k : nat)
| statusHandler (k : nat).

Record Timer := {
  t_handle : nat;
  t_due : N;
}.

Record World := {
  connection : GCConnection;
  clock : N;
  listeners : list Listener;
  timers : list Timer;
  waits : list promise;
}.

Definition init : World :=
  {| connection := constructed; clock := 0; listeners := []; timers := []; waits := [] |}.

Definition with_connection (c : GCConnection) (w : World) : World :=
  {| connection := c; clock := clock w; listeners := listeners w; timers := timers w;
     waits := waits w |}.

Definition with_clock (t : N) (w : World) : World :=
  {| connection := connection w; clock := t; listeners := listeners w; timers := timers w;
     waits := waits w |}.

Definition with_listeners (ls : list Listener) (w : World) : World :=
  {| connection := connection w; clock := clock w; listeners := ls; timers := timers w;
     waits := waits w |}.

Definition with_timers (ts : list Timer) (w : World) : World :=
  {| connection := connection w; clock := clock w; listeners := listeners w; timers := ts;
     waits := waits w |}.

Definition with_waits (ps : list promise) (w : World) : World :=
  {| connection := connection w; clock := clock w; listeners := listeners w;
     timers := timers w; waits := ps |}.

Definition Listener_eqb (a b : Listener) : bool :=
  match a, b with
  | readyHandler i, readyHandler j | statusHandler i, statusHandler j => Nat.eqb i j
  | _, _ => false
  end.

(** [gc.on(ev, l)] and [gc.once(ev, l)] put the listener last;
    [gc.removeListener(ev, l)] does nothing when it is not there. *)
Definition on (l : Listener) (w : World) : World :=
  with_listeners (listeners w ++ [l]) w.

Definition once (l : Listener) (w : World) : World := on l w.

Definition removeListener (l : Listener) (w : World) : World :=
  match ProfileFetcher.remove_last (Listener_eqb l) (listeners w) with
  | Some ls => with_listeners ls w
  | None => w
  end.

(** The delay of a timer: a delay that is not between 1 and 2^31 - 1
    milliseconds is taken as 1. *)
Definition delay_of (timeout : N) : N :=
  if (1 <=? timeout)%N && (timeout <=? 2147483647)%N then timeout else 1%N.

Definition setTimeout (h : nat) (timeout : N) (w : World) : World :=
  with_timers (timers w ++ [{| t_handle := h; t_due := (clock w + delay_of timeout)%N |}]) w.

Definition clearTimeout (h : nat) (w : World) : World :=
  with_timers (List.filter (fun t => negb (Nat.eqb (t_handle t) h)) (timers w)) w.

Definition settle (k : nat) (outcome : promise) (w : World) : World :=
  match waits w !! k with
  | Some Pending => with_waits (<[k := outcome]> (waits w)) w
  | _ => w
  end.

(** [waitForReady(timeout)] *)
Definition waitForReady (timeout : N) (w : World) : World :=
  let k := length (waits w) in
  if isReady (connection w) then with_waits (waits w ++ [Resolved]) w
  else
    let w := with_waits (waits w ++ [Pending]) w in
    let w := setTimeout k timeout w in
    let w := on (statusHandler k) w in
    once (readyHandler k) w.

(** [readyHandler] of call [k], and the callback of its timer. *)
Definition readyCallback (k : nat) (w : World) : World :=
  let w := clearTimeout k w in
  let w := removeListener (statusHandler k) w in
  settle k Resolved w.

Definition timeoutCallback (k : nat) (w : World) : World :=
  let w := removeListener (readyHandler k) w in
  let w := removeListener (statusHandler k) w in
  settle k (Rejected (Error "GC connection timeout")) w.

(** A [once] listener is removed before it is called; [statusHandler] does
    nothing. *)
Definition call_listener (w : World) (l : Listener) : World :=
  match l with
  | readyHandler k => readyCallback k (removeListener (readyHandler k) w)
  | statusHandler _ => w
  end.

Definition listens_to (e : Event) (l : Listener) : bool :=
  match e, l with
  | connectedToGC, readyHandler _ => true
  | connectionStatus _, statusHandler _ => true
  | _, _ => false
  end.

(** An event of the client: the listener of [setupEventListeners] runs
    first, then the listeners that were on the client for the event when it
    was emitted. *)
Definition emit (e : Event) (w : World) : World :=
  fold_left call_listener (List.filter (listens_to e) (listeners w))
            (with_connection (handle (connection w) e) w).

Definition has_timer (h : nat) (w : World) : bool :=
  existsb (fun t => Nat.eqb (t_handle t) h) (timers w).

Definition fire (w : World) (t : Timer) : World :=
  if has_timer (t_handle t) w
  then timeoutCallback (t_handle t) (clearTimeout (t_handle t) w)
  else w.

(** The timers in the order they come due, those due at the same time in
    the order they were set. *)
Fixpoint insert_by_due (t : Timer) (ts : list Timer) : list Timer :=
  match ts with
  | [] => [t]
  | u :: rest => if (t_due t <? t_due u)%N then t :: u :: rest else u :: insert_by_due t rest
  end.

Definition by_due (ts : list Timer) : list Timer :=
  fold_left (fun sorted t => insert_by_due t sorted) ts [].

Definition advance (dt : N) (w : World) : World :=
  let w := with_clock (clock w + dt)%N w in
  fold_left fire (by_due (List.filter (fun t => (t_due t <=? clock w)%N) (timers w))) w.

Inductive Step : Type :=
| Wait (timeout : N)
| Emit (e : Event)
| Advance (dt : N).

Definition step (w : World) (s : Step) : World :=
  match s with
  | Wait timeout => waitForReady timeout w
  | Emit e => emit e w
  | Advance dt => advance dt w
  end.

Definition run (w : World) (ss : list Step) : World := fold_left step ss w.

Definition elapsed (ss : list Step) : N :=
  fold_right (fun s acc => match s with Advance dt => (dt + acc)%N | _ => acc end) 0%N ss.

Definition duration (s : Step) : N :=
  match s with
  | Advance dt => dt
  | _ => 0%N
  end.

(** What the world holds for call [k]. *)
Definition of_call (k : nat) (l : Listener) : bool :=
  match l with
  | readyHandler j | statusHandler j => Nat.eqb j k
  end.

Definition on_handle (k : nat) (t : Timer) : bool := Nat.eqb (t_handle t) k.

Record View := {
  v_listeners : list Listener;
  v_timers : list Timer;
  v_wait : option promise;
}.

Definition view (k : nat) (w : World) : View :=
  {| v_listeners := List.filter (of_call k) (listeners w);
     v_timers := List.filter (on_handle k) (timers w);
     v_wait := waits w !! k |}.

(** The operations of the emitter, of the timers and of the promise, as
    they act on the view of the call they concern. *)
Definition v_on (l : Listener) (v : View) : View :=
  {| v_listeners := v_listeners v ++ [l]; v_timers := v_timers v; v_wait := v_wait v |}.

Definition v_removeListener (l : Listener) (v : View) : View :=
  match ProfileFetcher.remove_last (Listener_eqb l) (v_listeners v) with
  | Some ls => {| v_listeners := ls; v_timers := v_timers v; v_wait := v_wait v |}
  | None => v
  end.

Definition v_setTimeout (k : nat) (due : N) (v : View) : View :=
  {| v_listeners := v_listeners v;
     v_timers := v_timers v ++ [{| t_handle := k; t_due := due |}];
     v_wait := v_wait v |}.

Definition v_clearTimeout (v : View) : View :=
  {| v_listeners := v_listeners v; v_timers := []; v_wait := v_wait v |}.

Definition v_settle (outcome : promise) (v : View) : View :=
  match v_wait v with
  | Some Pending =>
      {| v_listeners := v_listeners v; v_timers := v_timers v; v_wait := Some outcome |}
  | _ => v
  end.

Definition v_readyCallback (k : nat) (v : View) : View :=
  v_settle Resolved (v_removeListener (statusHandler k) (v_clearTimeout v)).

Definition v_call_listener (l : Listener) (v : View) : View :=
  match l with
  | readyHandler k => v_readyCallback k (v_removeListener (readyHandler k) v)
  | statusHandler _ => v
  end.

Definition v_timeoutCallback (k : nat) (v : View) : View :=
  v_settle (Rejected (Error "GC connection timeout"))
           (v_removeListener (statusHandler k) (v_removeListener (readyHandler k) v)).

Definition v_fire (k : nat) (v : View) : View :=
  match v_timers v with
  | [] => v
  | _ :: _ => v_timeoutCallback k (v_clearTimeout v)
  end.

(** A call that waits until [due], and a call that is over. *)
Definition waiting (k : nat) (due : N) : View :=
  {| v_listeners := [statusHandler k; readyHandler k];
     v_timers := [{| t_handle := k; t_due := due |}];
     v_wait := Some Pending |}.

Definition over (outcome : promise) : View :=
  {| v_listeners := []; v_timers := []; v_wait := Some outcome |}.

Definition unborn : View := {| v_listeners := []; v_timers := []; v_wait := None |}.

(** The phases of call [k] when the clock shows [now]. *)
Inductive phase (k : nat) (now : N) : View -> Prop :=
| Unborn : phase k now unborn
| Waiting (due : N) : (now < due)%N -> phase k now (waiting k due)
| Granted : phase k now (over Resolved)
| TimedOut : phase k now (over (Rejected (Error "GC connection timeout"))).

Definition consistent (w : World) : Prop := forall k, phase k (clock w) (view k w).

Definition is_connected (s : Step) : bool :=
  match s with
  | Emit connectedToGC => true
  | _ => false
  end.

(** What the events do to a call that is in one of its phases: the welcome
    of the coordinator grants it when it waits, the passing of time ends it
    when its timer has come due. *)
Definition is_waiting (v : View) : bool :=
  match v_wait v with
  | Some Pending => true
  | _ => false
  end.

Definition granted (v : View) : View := if is_waiting v then over Resolved else v.

Definition expired (now : N) (v : View) : View :=
  if is_waiting v && existsb (fun t => (t_due t <=? now)%N) (v_timers v)
  then over (Rejected (Error "GC connection timeout"))
  else v.

(** Whether a listener of call [k] is on the client. *)
Definition listening (k : nat) (w : World) : bool := existsb (of_call k) (listeners w).

(** The events of the client in a history. *)
Definition events (ss : list Step) : list Event :=
  flat_map (fun s => match s with Emit e => [e] | _ => [] end) ss.

End GCWait.

(** ** The ways a call of [fetchProfile] is answered *)

Module Responses.
Import JS ProfileFetcher Calls.

(** A payload that passes the guard of [responseHandler]. *)
Definition is_object (payload : option value) : bool :=
  truthy payload && typeof_object payload.

(** The outcome of a call whose response was accepted. *)
Definition answered (date : string) (cache : bool) (fault : option exn)
  (payload : value) (id : string) : promise :=
  match (if cache then fault else None) with
  | None => Resolved (parseProfileResponse date payload id)
  | Some error => Rejected error
  end.

(** The view of a call that was answered, and of a call whose listener a
    payload that is no object has used up. *)
Definition answered_view (outcome : promise) (id : string) : View :=
  {| v_listeners := []; v_timers := [];
     v_request := Some {| req_steamId64 := id; req_promise := outcome |};
     v_deregistered := 1 |}.

Definition orphan (id : string) (k : nat) (due : N) : View :=
  {| v_listeners := [];
     v_timers := [{| t_handle := k; t_due := due |}];
     v_request := Some {| req_steamId64 := id; req_promise := Pending |};
     v_deregistered := 1 |}.

(** The identifiers the calls of a history pass to
    [gc.requestPlayersProfile]. *)
Definition sends (es : list Event) : list string :=
  flat_map (fun e =>
              match e with
              | Call id (MethodReturns | MethodThrows _) =>
                  if test_17_digits id then [id] else []
              | _ => []
              end) es.

(** What a world is configured with. *)
Definition settings (w : World) : string * bool * option exn :=
  (today w, enableFileCache w, writeFault w).

End Responses.

(** ** index.ts *)

Module Main.
Import JS.

(** *** The reconnection monitoring of [main] *)

(** The variables [isSteamLoggedIn], [hasInitialLogin] and
    [gcReconnectInterval], the intervals [setInterval] has started and
    [clearInterval] has not stopped, the number of handles given out, and
    the number of timeouts the 'loggedOn' listener has set for the
    re-initialisation of the coordinator connection. *)
Record Monitor := {
  isSteamLoggedIn : bool;
  hasInitialLogin : bool;
  gcReconnectInterval : option nat;
  intervals : list nat;
  handles : nat;
  reinitialisations : nat;
}.

Definition monitoring : Monitor :=
  {| isSteamLoggedIn := true;
     hasInitialLogin := false;
     gcReconnectInterval := None;
     intervals := [];
     handles := 0;
     reinitialisations := 0 |}.

Definition with_isSteamLoggedIn (b : bool) (m : Monitor) : Monitor :=
  {| isSteamLoggedIn := b;
     hasInitialLogin := hasInitialLogin m;
     gcReconnectInterval := gcReconnectInterval m;
     intervals := intervals m;
     handles := handles m;
     reinitialisations := reinitialisations m |}.

Definition with_hasInitialLogin (b : bool) (m : Monitor) : Monitor :=
  {| isSteamLoggedIn := isSteamLoggedIn m;
     hasInitialLogin := b;
     gcReconnectInterval := gcReconnectInterval m;
     intervals := intervals m;
     handles := handles m;
     reinitialisations := reinitialisations m |}.

Definition with_gcReconnectInterval (h : option nat) (m : Monitor) : Monitor :=
  {| isSteamLoggedIn := isSteamLoggedIn m;
     hasInitialLogin := hasInitialLogin m;
     gcReconnectInterval := h;
     intervals := intervals m;
     handles := handles m;
     reinitialisations := reinitialisations m |}.

Definition clearInterval (h : nat) (m : Monitor) : Monitor :=
  {| isSteamLoggedIn := isSteamLoggedIn m;
     hasInitialLogin := hasInitialLogin m;
     gcReconnectInterval := gcReconnectInterval m;
     intervals := List.filter (fun i => negb (i =? h)%nat) (intervals m);
     handles := handles m;
     reinitialisations := reinitialisations m |}.

(** [setInterval(...)]: the handle and the monitor with the interval
    running. *)
Definition setInterval (m : Monitor) : nat * Monitor :=
  (handles m,
   {| isSteamLoggedIn := isSteamLoggedIn m;
      hasInitialLogin := hasInitialLogin m;
      gcReconnectInterval := gcReconnectInterval m;
      intervals := handles m :: intervals m;
      handles := S (handles m);
      reinitialisations := reinitialisations m |}).

(** The [setTimeout] of the 'loggedOn' listener. *)
Definition schedule_reinitialisation (m : Monitor) : Monitor :=
  {| isSteamLoggedIn := isSteamLoggedIn m;
     hasInitialLogin := hasInitialLogin m;
     gcReconnectInterval := gcReconnectInterval m;
     intervals := intervals m;
     handles := handles m;
     reinitialisations := S (reinitialisations m) |}.

(** [if (gcReconnectInterval) { clearInterval(gcReconnectInterval);
    gcReconnectInterval = null; }] *)
Definition stop_retry_loop (m : Monitor) : Monitor :=
  match gcReconnectInterval m with
  | Some h => with_gcReconnectInterval None (clearInterval h m)
  | None => m
  end.

(** The listener of 'loggedOn'. *)
Definition loggedOn_listener (m : Monitor) : Monitor :=
  if hasInitialLogin m && negb (isSteamLoggedIn m) then
    schedule_reinitialisation (with_isSteamLoggedIn true m)
  else if negb (hasInitialLogin m) then with_isSteamLoggedIn true m
  else m.

(** The listener of 'disconnected'. *)
Definition disconnected_listener (m : Monitor) : Monitor :=
  stop_retry_loop (with_isSteamLoggedIn false m).

(** The end of the re-initialisation, reached when nothing before it
    threw: [if (gcReconnectInterval) clearInterval(gcReconnectInterval);
    gcReconnectInterval = setInterval(...)]. *)
Definition start_retry_loop (m : Monitor) : Monitor :=
  let m := match gcReconnectInterval m with
           | Some h => clearInterval h m
           | None => m
           end in
  let (h, m) := setInterval m in
  with_gcReconnectInterval (Some h) m.

(** What the callback of the interval does where it reads
    [gcConnection.isGcReady()]: at its start, and again after its attempt
    and its delay. *)
Definition retry_check (isGcReady : bool) (m : Monitor) : Monitor :=
  if isGcReady then stop_retry_loop m else m.

(** What happens to the monitor: the timeout that ends the initial window
    fires; the client emits 'loggedOn' or 'disconnected'; a
    re-initialisation reaches its end; a callback of the interval starts,
    or resumes after its delay, and reads [isGcReady()]; [shutdown] runs. *)
Inductive Event : Type :=
| initial_window_over
| loggedOn
| disconnected
| reinitialised
| retry_started (isGcReady : bool)
| retry_resumed (isGcReady : bool)
| shutdown.

Definition step (m : Monitor) (e : Event) : Monitor :=
  match e with
  | initial_window_over => with_hasInitialLogin true m
  | loggedOn => loggedOn_listener m
  | disconnected => disconnected_listener m
  | reinitialised => start_retry_loop m
  | retry_started isGcReady => retry_check isGcReady m
  | retry_resumed isGcReady => retry_check isGcReady m
  | shutdown => stop_retry_loop m
  end.

Definition run (m : Monitor) (es : list Event) : Monitor := fold_left step es m.

Definition is_disconnected (e : Event) : bool :=
  match e with disconnected => true | _ => false end.

Definition is_initial_window_over (e : Event) : bool :=
  match e with initial_window_over => true | _ => false end.

(** The intervals running are the one [gcReconnectInterval] names, if
    any. *)
Definition one_loop (m : Monitor) : Prop :=
  intervals m = match gcReconnectInterval m with Some h => [h] | None => [] end.

(** One while a 'disconnected' has not been answered by a 'loggedOn'. *)
Definition waiting_for_login (m : Monitor) : nat := if isSteamLoggedIn m then 0 else 1.

(** *** The listener of 'unhandledRejection' *)

(** [s.startsWith(part)] and [s.includes(part)] *)
Fixpoint startsWith (s part : string) : bool :=
  match part, s with
  | "", _ => true
  | String _ _, "" => false
  | String p part, String c s => Ascii.eqb p c && startsWith s part
  end.

Fixpoint includes (s part : string) : bool :=
  startsWith s part ||
  match s with
  | "" => false
  | String _ rest => includes rest part
  end.

Inductive Level : Type := warn | error.

(** The level of the line the listener logs for [reason]. *)
Definition unhandledRejection (reason : exn) : Level :=
  let errorMessage := errorMessage reason in
  if includes errorMessage "timeout" || includes errorMessage "Timeout" then warn
  else error.

End Main.

(** * Verification *)

(** ** The mapping of a coordinator response *)

Section ParseProfile.
Import JS ProfileFetcher Samples.

Lemma Set_has_In (x : Z) (s : list Z) : Set_has x s = true <-> In x s.
Proof.
  unfold Set_has. rewrite existsb_exists. split.
  - intros (y & Hy & Heq). apply Z.eqb_eq in Heq. now subst.
  - intros H. exists x. split; [assumption | apply Z.eqb_refl].
Qed.

Lemma Set_add_In (s : list Z) (x y : Z) :
  In y (Set_add s x) <-> In y s \/ y = x.
Proof.
  unfold Set_add. destruct (Set_has x s) eqn:E.
  - apply Set_has_In in E. split; [tauto | intros [H | ->]; assumption].
  - rewrite in_app_iff. simpl. intuition congruence.
Qed.

Lemma Set_add_NoDup (s : list Z) (x : Z) : NoDup s -> NoDup (Set_add s x).
Proof.
  intros Hs. unfold Set_add. destruct (Set_has x s) eqn:E; [assumption |].
  apply NoDup_app. repeat split.
  - assumption.
  - intros y Hy Hy'. apply list_elem_of_In in Hy, Hy'. simpl in Hy'.
    destruct Hy' as [<- | []].
    apply Set_has_In in Hy. congruence.
  - apply NoDup_singleton.
Qed.

Lemma fold_Set_add_spec (xs acc : list Z) :
  NoDup acc ->
  NoDup (fold_left Set_add xs acc) /\
  forall y, In y (fold_left Set_add xs acc) <-> In y acc \/ In y xs.
Proof.
  revert acc. induction xs as [| x xs IH]; intros acc Hacc; simpl.
  - split; [assumption | tauto].
  - destruct (IH (Set_add acc x) (Set_add_NoDup acc x Hacc)) as [Hnd Hin].
    split; [assumption |].
    intros y. rewrite Hin, Set_add_In. intuition congruence.
Qed.

Lemma new_Set_NoDup (xs : list Z) : NoDup (new_Set xs).
Proof. apply (fold_Set_add_spec xs []). constructor. Qed.

Lemma new_Set_In (xs : list Z) (y : Z) : In y (new_Set xs) <-> In y xs.
Proof.
  unfold new_Set.
  destruct (fold_Set_add_spec xs [] (NoDup_nil_2 : NoDup [])) as [_ H].
  rewrite H. simpl. tauto.
Qed.

Lemma filter_numbers_In (xs : list value) (n : Z) :
  In n (filter_numbers xs) <-> In (VNum n) xs.
Proof.
  induction xs as [| v xs IH]; simpl; [tauto |].
  destruct v; simpl; rewrite IH; intuition congruence.
Qed.

Lemma medalId_map (ids : list Z) :
  map medalId (map (fun medalId => {| medalId := medalId |}) ids) = ids.
Proof. induction ids as [| i ids IH]; simpl; congruence. Qed.

(** C7. When the response carries a medal list [display_items_defidx], the
    medal identifiers of the parsed profile are pairwise distinct, and a
    number is among them exactly when it is an entry of the list (entries
    that are not numbers leave no trace). *)
Theorem parse_medals_unique_numeric
  (date : string) (profile : value) (id : string) (items : list value) :
  display_items_defidx profile = Some (VArr items) ->
  let parsed := parseProfileResponse date profile id in
  NoDup (map medalId (medals parsed)) /\
  forall n : Z, In n (map medalId (medals parsed)) <-> In (VNum n) items.
Proof.
  intros Hitems parsed. subst parsed. unfold parseProfileResponse. simpl.
  rewrite Hitems. simpl. rewrite medalId_map. split.
  - apply new_Set_NoDup.
  - intros n. rewrite new_Set_In. apply filter_numbers_In.
Qed.

Lemma parse_medals_unique_numeric_witness :
  let parsed := parseProfileResponse "2024-01-01T00:00:00.000Z" sample_response "76561199441016438" in
  NoDup (map medalId (medals parsed)) /\
  forall n : Z, In n (map medalId (medals parsed)) <->
                In (VNum n) [VNum 4873; VStr "4873"; VNum 970; VNum 4873; VNull].
Proof.
  apply (parse_medals_unique_numeric _ sample_response _
           [VNum 4873; VStr "4873"; VNum 970; VNum 4873; VNull]).
  reflexivity.
Defined.

Example parse_sample_medals :
  map medalId (medals (parseProfileResponse "" sample_response "76561199441016438"))
  = [4873; 970]%Z.
Proof. reflexivity. Qed.

Lemma assoc_absent (k : string) (fields : list (string * value)) :
  ~ In k (map fst fields) -> assoc k fields = None.
Proof.
  induction fields as [| [k' v] fields IH]; [reflexivity |].
  cbn [map fst In assoc]. intros H.
  destruct (String.eqb_spec k k') as [-> | _]; [exfalso; apply H; now left |].
  apply IH. intros Hin. apply H. now right.
Qed.

Lemma assoc_present (k : string) (v : value) (before after : list (string * value)) :
  ~ In k (map fst before) -> assoc k (before ++ (k, v) :: after) = Some v.
Proof.
  induction before as [| [k' v'] before IH]; cbn [map fst In app assoc]; intros H.
  - now rewrite String.eqb_refl.
  - destruct (String.eqb_spec k k') as [-> | _]; [exfalso; apply H; now left |].
    apply IH. intros Hin. apply H. now right.
Qed.

Lemma equipped_of_list (date id : string) (profile : value) (list : value) :
  display_items_defidx profile = Some list ->
  equippedMedal (parseProfileResponse date profile id)
  = match list with
    | VArr (first :: _) => first
    | _ => VNull
    end.
Proof.
  intros H. unfold parseProfileResponse. cbn [equippedMedal]. rewrite H.
  destruct list as [| flag | n | text | items | fields]; cbn; try reflexivity.
  - now destruct flag.
  - now destruct (n =? 0)%Z.
  - now destruct (String.eqb text "").
  - destruct items as [| [] rest]; reflexivity.
Qed.

Lemma equipped_without_list (date id : string) (profile : value) :
  display_items_defidx profile = None ->
  equippedMedal (parseProfileResponse date profile id) = VNull.
Proof. intros H. unfold parseProfileResponse. cbn [equippedMedal]. now rewrite H. Qed.

(** C8. The equipped medal of the parsed profile is the first entry of the
    list [display_items_defidx] of the [medals] of the response, as the
    service sent it, whatever that entry is; it is [null] when the list is
    empty, when the response has no [medals], when the [medals] have no
    such list, and when what is there is not an array. *)
Theorem parse_equipped_is_first (date id : string) :
  (forall (before after mbefore mafter : list (string * value)) (items : list value),
     ~ In "medals" (map fst before) ->
     ~ In "display_items_defidx" (map fst mbefore) ->
     equippedMedal
       (parseProfileResponse date
          (VObj (before
                 ++ ("medals",
                     VObj (mbefore ++ ("display_items_defidx", VArr items) :: mafter))
                 :: after)) id)
     = match items with
       | first :: _ => first
       | [] => VNull
       end) /\
  (forall profile : value,
     (forall fields, profile = VObj fields -> ~ In "medals" (map fst fields)) ->
     equippedMedal (parseProfileResponse date profile id) = VNull) /\
  (forall (before after : list (string * value)) (medals : value),
     ~ In "medals" (map fst before) ->
     (forall mfields, medals = VObj mfields ->
                      ~ In "display_items_defidx" (map fst mfields)) ->
     equippedMedal
       (parseProfileResponse date (VObj (before ++ ("medals", medals) :: after)) id)
     = VNull) /\
  (forall (before after mbefore mafter : list (string * value)) (list : value),
     ~ In "medals" (map fst before) ->
     ~ In "display_items_defidx" (map fst mbefore) ->
     (forall items, list <> VArr items) ->
     equippedMedal
       (parseProfileResponse date
          (VObj (before
                 ++ ("medals", VObj (mbefore ++ ("display_items_defidx", list) :: mafter))
                 :: after)) id)
     = VNull).
Proof.
  assert (Hfound : forall before after mbefore mafter list,
             ~ In "medals" (map fst before) ->
             ~ In "display_items_defidx" (map fst mbefore) ->
             display_items_defidx
               (VObj (before
                      ++ ("medals", VObj (mbefore ++ ("display_items_defidx", list) :: mafter))
                      :: after))
             = Some list).
  { intros before after mbefore mafter list Hb Hm.
    unfold display_items_defidx. cbn [prop]. rewrite (assoc_present _ _ _ _ Hb).
    cbn [opt_prop prop]. now apply assoc_present. }
  split; [| split; [| split]].
  - intros before after mbefore mafter items Hb Hm.
    rewrite (equipped_of_list date id _ (VArr items)) by now apply Hfound.
    reflexivity.
  - intros profile Hprofile. apply equipped_without_list.
    unfold display_items_defidx.
    destruct profile as [| | | | | fields]; try reflexivity.
    cbn [prop]. now rewrite (assoc_absent _ _ (Hprofile fields eq_refl)).
  - intros before after medals Hb Hmedals. apply equipped_without_list.
    unfold display_items_defidx. cbn [prop]. rewrite (assoc_present _ _ _ _ Hb).
    destruct medals as [| | | | | mfields]; try reflexivity.
    cbn [opt_prop prop]. now apply assoc_absent, Hmedals.
  - intros before after mbefore mafter list Hb Hm Hlist.
    rewrite (equipped_of_list date id _ list) by now apply Hfound.
    destruct list as [| | | | items |]; try reflexivity.
    now destruct (Hlist items).
Qed.

Lemma parse_equipped_is_first_witness :
  equippedMedal
    (parseProfileResponse "2024-01-01T00:00:00.000Z"
       (VObj [("account_id", VNum 1480750710);
              ("medals", VObj [("medal_team", VNum 2);
                               ("display_items_defidx", VArr [VStr "4873"; VNum 970; VNum 4873]);
                               ("medal_combat", VNum 1)]);
              ("player_level", VNum 12)])
       "76561199441016438")
  = VStr "4873" /\
  equippedMedal
    (parseProfileResponse "2024-01-01T00:00:00.000Z"
       (VObj [("medals", VObj [("display_items_defidx", VArr [])])]) "76561199441016438")
  = VNull /\
  equippedMedal
    (parseProfileResponse "2024-01-01T00:00:00.000Z"
       (VObj [("account_id", VNum 42); ("player_level", VNum 3)]) "76561199441016438")
  = VNull.
Proof.
  destruct (parse_equipped_is_first "2024-01-01T00:00:00.000Z" "76561199441016438")
    as (Hfirst & Hnone & _ & _).
  split; [| split].
  - apply (Hfirst [("account_id", VNum 1480750710)] [("player_level", VNum 12)]
                  [("medal_team", VNum 2)] [("medal_combat", VNum 1)]
                  [VStr "4873"; VNum 970; VNum 4873]);
      cbn; intros [H | []]; discriminate H.
  - apply (Hfirst [] [] [] [] []); cbn; intros [].
  - apply Hnone. intros fields [= <-]. cbn. intros [H | [H | []]]; discriminate H.
Defined.

Example parse_sample_equipped :
  equippedMedal (parseProfileResponse "" sample_response "76561199441016438") = VNum 4873.
Proof. reflexivity. Qed.

Example parse_equipped_not_numeric :
  equippedMedal (parseProfileResponse ""
    (VObj [("medals", VObj [("display_items_defidx", VArr [VStr "x"; VNum 7])])]) "1")
  = VStr "x".
Proof. reflexivity. Qed.

End ParseProfile.

(** ** Correlation of requests and responses *)

Section Correlation.
Import JS ProfileFetcher Calls Samples.

Lemma remove_last_none {A} (p : A -> bool) (l : list A) :
  remove_last p l = None <-> existsb p l = false.
Proof.
  induction l as [| x l IH]; simpl; [tauto |].
  destruct (remove_last p l) as [l' |].
  - split; [discriminate |]. intros H. apply orb_false_iff in H as [_ H].
    apply IH in H. discriminate.
  - destruct (p x); simpl; [split; discriminate |].
    split; intros _; [now apply IH | reflexivity].
Qed.

(** Removing the last [p]-element commutes with filtering by a coarser [q];
    filtering by a [q] disjoint from [p] does not see the removal. *)
Lemma remove_last_filter_sub {A} (p q : A -> bool) (l : list A) :
  (forall x, p x = true -> q x = true) ->
  remove_last p (List.filter q l) = List.filter q <$> remove_last p l.
Proof.
  intros Hpq. induction l as [| x l IH]; simpl; [reflexivity |].
  destruct (q x) eqn:Hq; simpl.
  - rewrite IH. destruct (remove_last p l) as [l' |]; simpl.
    + now rewrite Hq.
    + destruct (p x); reflexivity.
  - rewrite IH. destruct (remove_last p l) as [l' |]; simpl.
    + now rewrite Hq.
    + destruct (p x) eqn:Hp; [| reflexivity].
      apply Hpq in Hp. congruence.
Qed.

Lemma remove_last_filter_disj {A} (p q : A -> bool) (l l' : list A) :
  (forall x, p x = true -> q x = false) ->
  remove_last p l = Some l' -> List.filter q l' = List.filter q l.
Proof.
  intros Hpq. revert l'. induction l as [| x l IH]; simpl; intros l' H; [discriminate |].
  destruct (remove_last p l) as [r |].
  - injection H as <-. simpl. now rewrite (IH r eq_refl).
  - destruct (p x) eqn:Hp; [| discriminate]. injection H as <-.
    now rewrite (Hpq x Hp).
Qed.

Lemma listens_on_handler (ev : string) (k : nat) (l : Listener) :
  listens ev k l = true -> on_handler k l = true.
Proof. unfold listens, on_handler. intros H. now apply andb_true_iff in H. Qed.

Lemma listens_off_handler (ev : string) (j k : nat) (l : Listener) :
  j <> k -> listens ev j l = true -> on_handler k l = false.
Proof.
  unfold listens, on_handler. intros Hjk H. apply andb_true_iff in H as [_ H].
  apply Nat.eqb_eq in H. apply Nat.eqb_neq. congruence.
Qed.

Lemma count_occ_snoc (l : list nat) (h k : nat) :
  count_occ Nat.eq_dec (l ++ [h]) k =
  (count_occ Nat.eq_dec l k + if Nat.eqb h k then 1 else 0)%nat.
Proof.
  rewrite count_occ_app. simpl. destruct (Nat.eq_dec h k) as [-> | Hne].
  - now rewrite Nat.eqb_refl.
  - apply Nat.eqb_neq in Hne. now rewrite Hne.
Qed.

(** *** The calls leave each other alone *)

Lemma view_once_other (ev : string) (j k : nat) (w : World) :
  j <> k -> view k (once ev j w) = view k w.
Proof.
  intros Hjk. unfold view, once, times_deregistered. simpl.
  rewrite List.filter_app. simpl. unfold on_handler at 2. simpl.
  apply Nat.eqb_neq in Hjk. rewrite Hjk. now rewrite app_nil_r.
Qed.

Lemma view_removeListener_other (ev : string) (j k : nat) (w : World) :
  j <> k -> view k (removeListener ev j w) = view k w.
Proof.
  intros Hjk. unfold removeListener.
  destruct (remove_last (listens ev j) (listeners w)) as [ls |] eqn:E; [| reflexivity].
  unfold view, times_deregistered. simpl.
  rewrite (remove_last_filter_disj _ (on_handler k) _ _ (fun l => listens_off_handler ev j k l Hjk) E).
  rewrite count_occ_snoc. apply Nat.eqb_neq in Hjk. rewrite Hjk.
  now rewrite Nat.add_0_r.
Qed.

Lemma view_setTimeout_other (j k : nat) (d : N) (w : World) :
  j <> k -> view k (setTimeout j d w) = view k w.
Proof.
  intros Hjk. unfold view, setTimeout, times_deregistered. simpl.
  rewrite List.filter_app. simpl. unfold on_handle at 2. simpl.
  apply Nat.eqb_neq in Hjk. rewrite Hjk. now rewrite app_nil_r.
Qed.

Lemma filter_filter_other (j k : nat) (ts : list Timer) :
  j <> k ->
  List.filter (on_handle k) (List.filter (fun t => negb (Nat.eqb (t_handle t) j)) ts)
  = List.filter (on_handle k) ts.
Proof.
  intros Hjk. induction ts as [| t ts IH]; simpl; [reflexivity |].
  destruct (Nat.eqb (t_handle t) j) eqn:Ej; simpl.
  - apply Nat.eqb_eq in Ej. unfold on_handle at 2. rewrite Ej.
    apply Nat.eqb_neq in Hjk. now rewrite Hjk.
  - now rewrite IH.
Qed.

Lemma view_clearTimeout_other (j k : nat) (w : World) :
  j <> k -> view k (clearTimeout j w) = view k w.
Proof.
  intros Hjk. unfold view, clearTimeout, times_deregistered. simpl.
  now rewrite filter_filter_other.
Qed.

Lemma view_settle_other (j k : nat) (o : promise) (w : World) :
  j <> k -> view k (settle j o w) = view k w.
Proof.
  intros Hjk. unfold settle.
  destruct (requests w !! j) as [[id []] |]; try reflexivity.
  unfold view, times_deregistered. simpl.
  now rewrite list_lookup_insert_ne.
Qed.

(** *** What an operation of call [k] does to its own view *)

Lemma view_once_self (ev : string) (k : nat) (w : World) :
  view k (once ev k w) = v_once ev k (view k w).
Proof.
  unfold view, once, v_once, times_deregistered. simpl.
  rewrite List.filter_app. simpl. unfold on_handler at 2. simpl.
  now rewrite Nat.eqb_refl.
Qed.

Lemma view_removeListener_self (ev : string) (k : nat) (w : World) :
  view k (removeListener ev k w) = v_removeListener ev k (view k w).
Proof.
  unfold removeListener, v_removeListener. simpl.
  rewrite (remove_last_filter_sub _ (on_handler k) _ (listens_on_handler ev k)).
  destruct (remove_last (listens ev k) (listeners w)) as [ls |] eqn:E; simpl; [| reflexivity].
  unfold view, times_deregistered. simpl.
  rewrite count_occ_snoc, Nat.eqb_refl. reflexivity.
Qed.

Lemma view_setTimeout_self (k : nat) (d : N) (w : World) :
  view k (setTimeout k d w) = v_setTimeout k (clock w + d) (view k w).
Proof.
  unfold view, setTimeout, v_setTimeout, times_deregistered. simpl.
  rewrite List.filter_app. simpl. unfold on_handle at 2. simpl.
  now rewrite Nat.eqb_refl.
Qed.

Lemma filter_filter_self (k : nat) (ts : list Timer) :
  List.filter (on_handle k) (List.filter (fun t => negb (Nat.eqb (t_handle t) k)) ts) = [].
Proof.
  induction ts as [| t ts IH]; simpl; [reflexivity |].
  destruct (Nat.eqb (t_handle t) k) eqn:E; simpl; [assumption |].
  unfold on_handle at 1. now rewrite E.
Qed.

Lemma view_clearTimeout_self (k : nat) (w : World) :
  view k (clearTimeout k w) = v_clearTimeout (view k w).
Proof.
  unfold view, clearTimeout, v_clearTimeout, times_deregistered. simpl.
  now rewrite filter_filter_self.
Qed.

Lemma view_settle_self (k : nat) (o : promise) (w : World) :
  view k (settle k o w) = v_settle o (view k w).
Proof.
  unfold settle, v_settle. simpl.
  destruct (requests w !! k) as [[id p] |] eqn:E; [| reflexivity].
  destruct p; try reflexivity.
  unfold view, times_deregistered. simpl.
  rewrite list_lookup_insert_eq; [reflexivity |].
  now apply lookup_lt_Some in E.
Qed.

(** *** The phases of a call are kept *)

Lemma consistent_init (cache : bool) (fault : option exn) (date : string) :
  consistent (init cache fault date).
Proof. intros k. unfold view, init, times_deregistered. simpl. constructor. Qed.

(** *** The handlers, seen from one call *)

Lemma steamId64_of_view (k : nat) (w : World) : steamId64_of k w = v_steamId64 (view k w).
Proof. reflexivity. Qed.

Lemma view_responseHandler_other (j k : nat) (payload : option value) (w : World) :
  j <> k -> view k (responseHandler j payload w) = view k w.
Proof.
  intros Hjk. unfold responseHandler.
  destruct (negb (truthy payload) || negb (typeof_object payload)); [reflexivity |].
  destruct payload as [tp |]; [| reflexivity].
  destruct (if enableFileCache (clearTimeout j w) then writeFault (clearTimeout j w) else None);
    rewrite view_settle_other, view_removeListener_other, view_clearTimeout_other by assumption;
    reflexivity.
Qed.

Lemma view_responseHandler_self (k : nat) (payload : option value) (w : World) :
  view k (responseHandler k payload w)
  = v_responseHandler (today w) (enableFileCache w) (writeFault w) k payload (view k w).
Proof.
  unfold responseHandler, v_responseHandler.
  destruct (negb (truthy payload) || negb (typeof_object payload)); [reflexivity |].
  destruct payload as [tp |]; [| reflexivity].
  change (enableFileCache (clearTimeout k w)) with (enableFileCache w).
  change (writeFault (clearTimeout k w)) with (writeFault w).
  change (today (clearTimeout k w)) with (today w).
  rewrite steamId64_of_view.
  destruct (if enableFileCache w then writeFault w else None);
    rewrite view_settle_self, view_removeListener_self, view_clearTimeout_self;
    reflexivity.
Qed.

Lemma view_call_listener_other (k : nat) (payload : option value) (w : World) (l : Listener) :
  l_handler l <> k -> view k (call_listener payload w l) = view k w.
Proof.
  intros Hjk. unfold call_listener.
  rewrite view_responseHandler_other by assumption.
  destruct (l_once l); [now apply view_removeListener_other | reflexivity].
Qed.

Lemma config_removeListener (ev : string) (k : nat) (w : World) :
  today (removeListener ev k w) = today w /\
  enableFileCache (removeListener ev k w) = enableFileCache w /\
  writeFault (removeListener ev k w) = writeFault w /\
  clock (removeListener ev k w) = clock w /\
  sent (removeListener ev k w) = sent w.
Proof.
  unfold removeListener. destruct (remove_last _ _); repeat split; reflexivity.
Qed.

Lemma view_call_listener_self (payload : option value) (w : World) (l : Listener) :
  view (l_handler l) (call_listener payload w l)
  = v_call_listener (today w) (enableFileCache w) (writeFault w) payload l
      (view (l_handler l) w).
Proof.
  unfold call_listener, v_call_listener.
  rewrite view_responseHandler_self.
  destruct (l_once l); [| reflexivity].
  destruct (config_removeListener (l_event l) (l_handler l) w) as (-> & -> & -> & _).
  now rewrite view_removeListener_self.
Qed.

Lemma has_timer_view (k : nat) (w : World) :
  has_timer k w = match v_timers (view k w) with [] => false | _ :: _ => true end.
Proof.
  unfold has_timer, view. simpl. induction (timers w) as [| t ts IH]; simpl; [reflexivity |].
  unfold on_handle at 1. destruct (Nat.eqb (t_handle t) k); simpl; [reflexivity | assumption].
Qed.

Lemma view_timeoutCallback_other (j k : nat) (w : World) :
  j <> k -> view k (timeoutCallback j w) = view k w.
Proof.
  intros Hjk. unfold timeoutCallback.
  now rewrite view_settle_other, view_removeListener_other.
Qed.

Lemma view_fire_other (k : nat) (w : World) (t : Timer) :
  t_handle t <> k -> view k (fire w t) = view k w.
Proof.
  intros Hjk. unfold fire. destruct (has_timer (t_handle t) w); [| reflexivity].
  now rewrite view_timeoutCallback_other, view_clearTimeout_other.
Qed.

Lemma view_fire_self (w : World) (t : Timer) :
  view (t_handle t) (fire w t) = v_fire (t_handle t) (view (t_handle t) w).
Proof.
  unfold fire, v_fire. rewrite has_timer_view.
  destruct (v_timers (view (t_handle t) w)) eqn:E; [reflexivity |].
  unfold timeoutCallback, v_timeoutCallback.
  rewrite view_settle_self, view_removeListener_self, steamId64_of_view.
  now rewrite view_clearTimeout_self.
Qed.

Lemma view_push_other (k : nat) (r : Request) (w : World) :
  k <> length (requests w) ->
  view k (with_requests (requests w ++ [r]) w) = view k w.
Proof.
  intros Hk. unfold view, times_deregistered. simpl. f_equal.
  destruct (Nat.lt_ge_cases k (length (requests w))) as [Hlt | Hge].
  - now apply lookup_app_l.
  - rewrite (lookup_ge_None_2 (requests w) k Hge).
    apply lookup_ge_None_2. rewrite length_app. simpl. lia.
Qed.

Lemma view_fetchProfile_other (k : nat) (id : string) (gc : gc_method) (w : World) :
  k <> length (requests w) -> view k (fetchProfile id gc w) = view k w.
Proof.
  intros Hk. assert (Hk' : length (requests w) <> k) by congruence.
  unfold fetchProfile.
  destruct (negb (test_17_digits id)).
  - rewrite view_settle_other by assumption. now apply view_push_other.
  - destruct gc as [| e |].
    + change (view k (setTimeout (length (requests w)) PROFILE_REQUEST_TIMEOUT_MS
                (once (eventName id) (length (requests w))
                   (with_requests (requests w ++ [{| req_steamId64 := id; req_promise := Pending |}]) w)))
              = view k w).
      rewrite view_setTimeout_other, view_once_other by assumption.
      now apply view_push_other.
    + rewrite view_settle_other, view_removeListener_other, view_clearTimeout_other by assumption.
      change (view k (setTimeout (length (requests w)) PROFILE_REQUEST_TIMEOUT_MS
                (once (eventName id) (length (requests w))
                   (with_requests (requests w ++ [{| req_steamId64 := id; req_promise := Pending |}]) w)))
              = view k w).
      rewrite view_setTimeout_other, view_once_other by assumption.
      now apply view_push_other.
    + rewrite view_settle_other, view_removeListener_other, view_clearTimeout_other,
        view_setTimeout_other, view_once_other by assumption.
      now apply view_push_other.
Qed.

Lemma view_push_self (r : Request) (w : World) :
  view (length (requests w)) (with_requests (requests w ++ [r]) w)
  = {| v_listeners := v_listeners (view (length (requests w)) w);
       v_timers := v_timers (view (length (requests w)) w);
       v_request := Some r;
       v_deregistered := v_deregistered (view (length (requests w)) w) |}.
Proof.
  unfold view, times_deregistered. simpl. f_equal.
  rewrite lookup_app_r by lia. now rewrite Nat.sub_diag.
Qed.

Lemma view_fetchProfile_self (id : string) (gc : gc_method) (w : World) :
  view (length (requests w)) (fetchProfile id gc w)
  = v_fetchProfile (clock w) id gc (length (requests w)) (view (length (requests w)) w).
Proof.
  unfold fetchProfile, v_fetchProfile.
  destruct (negb (test_17_digits id)).
  - now rewrite view_settle_self, view_push_self.
  - destruct gc as [| e |].
    + change (view (length (requests w))
                (setTimeout (length (requests w)) PROFILE_REQUEST_TIMEOUT_MS
                   (once (eventName id) (length (requests w))
                      (with_requests (requests w ++ [{| req_steamId64 := id; req_promise := Pending |}]) w)))
              = v_setTimeout (length (requests w)) (clock w + PROFILE_REQUEST_TIMEOUT_MS)
                  (v_once (eventName id) (length (requests w))
                     {| v_listeners := v_listeners (view (length (requests w)) w);
                        v_timers := v_timers (view (length (requests w)) w);
                        v_request := Some {| req_steamId64 := id; req_promise := Pending |};
                        v_deregistered := v_deregistered (view (length (requests w)) w) |})).
      now rewrite view_setTimeout_self, view_once_self, view_push_self.
    + rewrite view_settle_self, view_removeListener_self, view_clearTimeout_self.
      change (view (length (requests w))
                (with_sent _ ?x)) with (view (length (requests w)) x).
      now rewrite view_setTimeout_self, view_once_self, view_push_self.
    + now rewrite view_settle_self, view_removeListener_self, view_clearTimeout_self,
        view_setTimeout_self, view_once_self, view_push_self.
Qed.

(** *** Every operation keeps every call in one of its phases *)

Lemma listens_refl (id : string) (k : nat) :
  listens (eventName id) k {| l_event := eventName id; l_handler := k; l_once := true |} = true.
Proof. unfold listens. simpl l_event. simpl l_handler. now rewrite String.eqb_refl, Nat.eqb_refl. Qed.

Lemma v_removeListener_live (id : string) (k : nat) (ts : list Timer)
  (r : option Request) (n : nat) :
  v_removeListener (eventName id) k
    {| v_listeners := [{| l_event := eventName id; l_handler := k; l_once := true |}];
       v_timers := ts; v_request := r; v_deregistered := n |}
  = {| v_listeners := []; v_timers := ts; v_request := r; v_deregistered := n + 1 |}.
Proof.
  unfold v_removeListener. cbn [v_listeners remove_last]. now rewrite listens_refl.
Qed.

Lemma v_removeListener_gone (ev : string) (k : nat) (ts : list Timer)
  (r : option Request) (n : nat) :
  v_removeListener ev k
    {| v_listeners := []; v_timers := ts; v_request := r; v_deregistered := n |}
  = {| v_listeners := []; v_timers := ts; v_request := r; v_deregistered := n |}.
Proof. reflexivity. Qed.

Lemma phase_responseHandler (date : string) (cache : bool) (fault : option exn)
  (k : nat) (payload : option value) (v : View) :
  phase k v -> phase k (v_responseHandler date cache fault k payload v).
Proof.
  intros H. unfold v_responseHandler.
  destruct (negb (truthy payload) || negb (typeof_object payload)); [assumption |].
  destruct payload as [tp |]; [| assumption].
  destruct H as [| id Hid | id due Hid | id due Hid | id p Hid Hp Hres];
    unfold v_steamId64, v_clearTimeout;
    cbn [v_request req_steamId64 v_listeners v_timers v_deregistered];
    rewrite ?v_removeListener_live, ?v_removeListener_gone;
    destruct (if cache then fault else None); unfold v_settle;
    cbn [v_request req_steamId64 req_promise v_listeners v_timers v_deregistered Nat.add];
    try (constructor; (assumption || discriminate || (intros ? [= <-]; reflexivity))).
  all: destruct p; try contradiction; constructor; (assumption || discriminate).
Qed.

Lemma phase_removeListener (ev : string) (k : nat) (v : View) :
  phase k v ->
  phase k (v_removeListener ev k v) \/
  exists id due, test_17_digits id = true /\
    v = {| v_listeners := [{| l_event := eventName id; l_handler := k; l_once := true |}];
           v_timers := [{| t_handle := k; t_due := due |}];
           v_request := Some {| req_steamId64 := id; req_promise := Pending |};
           v_deregistered := 0 |} /\
    v_removeListener ev k v
    = {| v_listeners := [];
         v_timers := [{| t_handle := k; t_due := due |}];
         v_request := Some {| req_steamId64 := id; req_promise := Pending |};
         v_deregistered := 1 |}.
Proof.
  intros H. destruct H as [| id Hid | id due Hid | id due Hid | id p Hid Hp Hres];
    try (left; rewrite v_removeListener_gone; constructor; assumption).
  unfold v_removeListener. cbn [v_listeners remove_last].
  destruct (listens ev k _).
  - right. exists id, due. repeat split; assumption.
  - left. now constructor.
Qed.

Lemma phase_call_listener (date : string) (cache : bool) (fault : option exn)
  (payload : option value) (l : Listener) (v : View) :
  phase (l_handler l) v ->
  phase (l_handler l) (v_call_listener date cache fault payload l v).
Proof.
  intros H. unfold v_call_listener. apply phase_responseHandler.
  destruct (l_once l); [| assumption].
  destruct (phase_removeListener (l_event l) (l_handler l) v H) as [H' | (id & due & Hid & _ & ->)];
    [assumption | now constructor].
Qed.

Lemma phase_fire (k : nat) (v : View) : phase k v -> phase k (v_fire k v).
Proof.
  intros H. unfold v_fire, v_timeoutCallback.
  destruct H as [| id Hid | id due Hid | id due Hid | id p Hid Hp Hres];
    cbn [v_timers]; try (constructor; assumption);
    unfold v_steamId64, v_clearTimeout;
    cbn [v_request req_steamId64 v_listeners v_timers v_deregistered];
    rewrite ?v_removeListener_live, ?v_removeListener_gone;
    unfold v_settle;
    cbn [v_request req_steamId64 req_promise v_listeners v_timers v_deregistered Nat.add];
    constructor; (assumption || discriminate).
Qed.

Lemma phase_fetchProfile (now : N) (id : string) (gc : gc_method) (k : nat) (v : View) :
  v_request v = None -> phase k v -> phase k (v_fetchProfile now id gc k v).
Proof.
  intros Hnone H. destruct H; try discriminate.
  unfold v_fetchProfile. destruct (test_17_digits id) eqn:Hid; cbn [negb].
  - destruct gc as [| e |]; unfold v_once, v_setTimeout, v_clearTimeout;
      cbn [v_listeners v_timers v_request v_deregistered app];
      rewrite ?v_removeListener_live; unfold v_settle;
      cbn [v_request req_steamId64 req_promise v_listeners v_timers v_deregistered Nat.add];
      constructor; (assumption || discriminate).
  - unfold v_settle. cbn [v_request v_listeners v_timers v_deregistered]. now constructor.
Qed.

Lemma consistent_call_listener (payload : option value) (w : World) (l : Listener) :
  consistent w -> consistent (call_listener payload w l).
Proof.
  intros Hw k. destruct (Nat.eq_dec (l_handler l) k) as [<- | Hne].
  - rewrite view_call_listener_self. apply phase_call_listener, Hw.
  - rewrite view_call_listener_other by assumption. apply Hw.
Qed.

Lemma consistent_fire (w : World) (t : Timer) : consistent w -> consistent (fire w t).
Proof.
  intros Hw k. destruct (Nat.eq_dec (t_handle t) k) as [<- | Hne].
  - rewrite view_fire_self. apply phase_fire, Hw.
  - rewrite view_fire_other by assumption. apply Hw.
Qed.

Lemma consistent_fold {A} (f : World -> A -> World) (xs : list A) (w : World) :
  (forall w x, consistent w -> consistent (f w x)) ->
  consistent w -> consistent (fold_left f xs w).
Proof.
  intros Hf. revert w. induction xs as [| x xs IH]; simpl; intros w Hw; [assumption |].
  apply IH, Hf, Hw.
Qed.

Lemma consistent_step (w : World) (e : Event) : consistent w -> consistent (step w e).
Proof.
  intros Hw. destruct e as [id gc | ev payload | dt]; simpl.
  - intros k. destruct (Nat.eq_dec k (length (requests w))) as [-> | Hne].
    + rewrite view_fetchProfile_self. apply phase_fetchProfile; [| apply Hw].
      unfold view. simpl. apply lookup_ge_None_2. lia.
    + rewrite view_fetchProfile_other by assumption. apply Hw.
  - unfold emit. apply consistent_fold; [| assumption].
    intros w' l. apply consistent_call_listener.
  - unfold advance. apply consistent_fold; [apply consistent_fire |].
    intros k. apply Hw.
Qed.

Lemma consistent_run (es : list Event) (w : World) : consistent w -> consistent (run w es).
Proof. unfold run. apply consistent_fold. apply consistent_step. Qed.

(** *** The clock only moves when time passes *)

Lemma clock_settle (k : nat) (o : promise) (w : World) : clock (settle k o w) = clock w.
Proof. unfold settle. destruct (requests w !! k) as [[id []] |]; reflexivity. Qed.

Lemma clock_removeListener (ev : string) (k : nat) (w : World) :
  clock (removeListener ev k w) = clock w.
Proof. apply config_removeListener. Qed.

Lemma clock_call_listener (payload : option value) (w : World) (l : Listener) :
  clock (call_listener payload w l) = clock w.
Proof.
  unfold call_listener, responseHandler.
  destruct (negb (truthy payload) || negb (typeof_object payload));
    [destruct (l_once l); [apply clock_removeListener | reflexivity] |].
  destruct payload as [tp |];
    [| destruct (l_once l); [apply clock_removeListener | reflexivity]].
  match goal with |- context [match ?c with Some _ => _ | None => _ end] => destruct c end;
    rewrite clock_settle, clock_removeListener; simpl;
    (destruct (l_once l); [apply clock_removeListener | reflexivity]).
Qed.

Lemma clock_fire (w : World) (t : Timer) : clock (fire w t) = clock w.
Proof.
  unfold fire, timeoutCallback. destruct (has_timer (t_handle t) w); [| reflexivity].
  now rewrite clock_settle, clock_removeListener.
Qed.

Lemma clock_fold {A} (f : World -> A -> World) (xs : list A) (w : World) :
  (forall w x, clock (f w x) = clock w) -> clock (fold_left f xs w) = clock w.
Proof.
  intros Hf. revert w. induction xs as [| x xs IH]; simpl; intros w; [reflexivity |].
  now rewrite IH, Hf.
Qed.

Lemma clock_fetchProfile (id : string) (gc : gc_method) (w : World) :
  clock (fetchProfile id gc w) = clock w.
Proof.
  unfold fetchProfile. destruct (negb (test_17_digits id)); [now rewrite clock_settle |].
  destruct gc; try reflexivity; now rewrite clock_settle, clock_removeListener.
Qed.

Lemma clock_step (w : World) (e : Event) : clock (step w e) = (clock w + duration e)%N.
Proof.
  destruct e as [id gc | ev payload | dt]; simpl.
  - rewrite clock_fetchProfile. lia.
  - unfold emit. rewrite clock_fold by apply clock_call_listener. lia.
  - unfold advance. now rewrite clock_fold by apply clock_fire.
Qed.

(** *** A call that waits, and a call that has timed out *)

Lemma settled_call_listener (date : string) (cache : bool) (fault : option exn)
  (payload : option value) (l : Listener) (v : View) :
  settled v -> v_call_listener date cache fault payload l v = v.
Proof.
  destruct v as [ls ts r n]. intros (Hl & Ht & r' & Hr & Hp). simpl in *. subst.
  unfold v_call_listener, v_responseHandler.
  assert (Hrm : forall ev k', v_removeListener ev k'
            {| v_listeners := []; v_timers := []; v_request := Some r'; v_deregistered := n |}
          = {| v_listeners := []; v_timers := []; v_request := Some r'; v_deregistered := n |})
    by reflexivity.
  destruct (l_once l); rewrite ?Hrm;
    (destruct (negb (truthy payload) || negb (typeof_object payload)); [reflexivity |];
     destruct payload as [tp |]; [| reflexivity];
     unfold v_clearTimeout; cbn [v_listeners v_timers v_request v_deregistered];
     destruct (if cache then fault else None); rewrite ?Hrm; unfold v_settle;
     cbn [v_request]; destruct r' as [id []]; simpl in Hp; congruence).
Qed.

Lemma settled_fire (k : nat) (v : View) : settled v -> v_fire k v = v.
Proof. intros (_ & Ht & _). unfold v_fire. now rewrite Ht. Qed.

Lemma settled_step (k : nat) (w : World) (e : Event) :
  settled (view k w) -> view k (step w e) = view k w.
Proof.
  intros Hs. destruct e as [id gc | ev payload | dt]; simpl.
  - apply view_fetchProfile_other. destruct Hs as (_ & _ & r & Hr & _).
    apply lookup_lt_Some in Hr. lia.
  - unfold emit. generalize (List.filter (fun l => String.eqb (l_event l) ev) (listeners w)).
    intros ls. revert w Hs. induction ls as [| l ls IH]; simpl; intros w Hs; [reflexivity |].
    assert (Hl : view k (call_listener payload w l) = view k w).
    { destruct (Nat.eq_dec (l_handler l) k) as [<- | Hne].
      - rewrite view_call_listener_self. now apply settled_call_listener.
      - now apply view_call_listener_other. }
    rewrite IH; rewrite Hl; [reflexivity | assumption].
  - unfold advance.
    generalize (List.filter (fun t => (t_due t <=? clock (with_clock (clock w + dt) w))%N)
                  (timers (with_clock (clock w + dt) w))).
    change (view k w) with (view k (with_clock (clock w + dt)%N w)) in *.
    generalize dependent (with_clock (clock w + dt)%N w). clear w.
    intros w Hs ts. revert w Hs. induction ts as [| t ts IH]; simpl; intros w Hs; [reflexivity |].
    assert (Hl : view k (fire w t) = view k w).
    { destruct (Nat.eq_dec (t_handle t) k) as [<- | Hne].
      - rewrite view_fire_self. now apply settled_fire.
      - now apply view_fire_other. }
    rewrite IH; rewrite Hl; [reflexivity | assumption].
Qed.

Lemma settled_run (k : nat) (es : list Event) (w : World) :
  settled (view k w) -> view k (run w es) = view k w.
Proof.
  revert w. induction es as [| e es IH]; simpl; intros w Hs; [reflexivity |].
  change (fold_left step es (step w e)) with (run (step w e) es).
  rewrite IH; rewrite settled_step by assumption; [reflexivity | assumption].
Qed.

Lemma fire_waiting (id : string) (k : nat) (due : N) :
  v_fire k (waiting id k due) = timed_out id.
Proof.
  unfold v_fire, waiting, v_timeoutCallback, v_clearTimeout, v_steamId64.
  cbn [v_timers v_listeners v_request v_deregistered req_steamId64].
  rewrite v_removeListener_live. reflexivity.
Qed.

Lemma settled_timed_out (id : string) : settled (timed_out id).
Proof.
  unfold settled, timed_out. simpl. repeat split.
  eexists. split; [reflexivity | discriminate].
Qed.

Lemma fold_call_listener_other (k : nat) (payload : option value)
  (ls : list Listener) (w : World) :
  (forall l, In l ls -> l_handler l <> k) ->
  view k (fold_left (call_listener payload) ls w) = view k w.
Proof.
  revert w. induction ls as [| l ls IH]; simpl; intros w H; [reflexivity |].
  rewrite IH by (intros; apply H; now right).
  apply view_call_listener_other, H. now left.
Qed.

Lemma fold_fire_other (k : nat) (ts : list Timer) (w : World) :
  (forall t, In t ts -> t_handle t <> k) ->
  view k (fold_left fire ts w) = view k w.
Proof.
  revert w. induction ts as [| t ts IH]; simpl; intros w H; [reflexivity |].
  rewrite IH by (intros; apply H; now right).
  apply view_fire_other, H. now left.
Qed.

Lemma fold_fire_timeout (id : string) (k : nat) (due : N) (ts : list Timer) (w : World) :
  view k w = timed_out id \/
  (view k w = waiting id k due /\ exists t, In t ts /\ t_handle t = k) ->
  view k (fold_left fire ts w) = timed_out id.
Proof.
  revert w. induction ts as [| t ts IH]; simpl; intros w H.
  - destruct H as [H | (_ & t & [] & _)]. assumption.
  - apply IH. destruct (Nat.eq_dec (t_handle t) k) as [Heq | Hne].
    + left. rewrite <- Heq at 1. rewrite view_fire_self, Heq.
      destruct H as [-> | (-> & _)].
      * apply settled_fire, settled_timed_out.
      * apply fire_waiting.
    + rewrite view_fire_other by assumption.
      destruct H as [H | (H & t' & [<- | Hin] & Ht')]; [now left | contradiction |].
      right. split; [assumption |]. now exists t'.
Qed.

Lemma waiting_step (id : string) (k : nat) (due : N) (w : World) (e : Event) :
  view k w = waiting id k due ->
  (clock w < due)%N ->
  (forall payload, e <> Emit (eventName id) payload) ->
  ((clock (step w e) < due)%N /\ view k (step w e) = waiting id k due) \/
  ((due <= clock (step w e))%N /\ view k (step w e) = timed_out id).
Proof.
  intros Hv Hclock Hne.
  pose proof (clock_step w e) as Hc.
  destruct e as [id' gc | ev payload | dt]; simpl in Hc |- *.
  - left. split; [lia |]. rewrite view_fetchProfile_other; [assumption |].
    assert (Hr : requests w !! k = Some {| req_steamId64 := id; req_promise := Pending |})
      by (change (requests w !! k) with (v_request (view k w)); now rewrite Hv).
    apply lookup_lt_Some in Hr. lia.
  - left. split; [lia |]. unfold emit. rewrite fold_call_listener_other; [assumption |].
    intros l Hl Hk. apply filter_In in Hl as [Hl Hev].
    assert (Hin : In l (v_listeners (view k w))).
    { unfold view. simpl. apply filter_In. split; [assumption |].
      unfold on_handler. now apply Nat.eqb_eq. }
    rewrite Hv in Hin. unfold waiting in Hin. cbn [v_listeners In] in Hin.
    destruct Hin as [<- | []].
    cbn [l_event] in Hev. apply String.eqb_eq in Hev. apply (Hne payload). now rewrite Hev.
  - unfold advance in *.
    set (w' := with_clock (clock w + dt)%N w) in *.
    change (view k w) with (view k w') in Hv.
    destruct (N.lt_ge_cases (clock w + dt) due) as [Hlt | Hge].
    + left. split; [lia |]. rewrite fold_fire_other; [assumption |].
      intros t Ht Hk. apply filter_In in Ht as [Ht Hdue].
      assert (Hin : In t (v_timers (view k w'))).
      { unfold view. simpl. apply filter_In. split; [assumption |].
        unfold on_handle. now apply Nat.eqb_eq. }
      rewrite Hv in Hin. unfold waiting in Hin. cbn [v_timers In] in Hin.
      destruct Hin as [<- | []].
      cbn [t_due] in Hdue. apply N.leb_le in Hdue. simpl in Hdue. lia.
    + right. split; [lia |]. apply (fold_fire_timeout id k due). right.
      split; [assumption |].
      exists {| t_handle := k; t_due := due |}. split; [| reflexivity].
      apply filter_In. split.
      * assert (Hin : In {| t_handle := k; t_due := due |} (v_timers (view k w')))
          by (rewrite Hv; now left).
        unfold view in Hin. simpl in Hin. now apply filter_In in Hin.
      * apply N.leb_le. simpl. lia.
Qed.

Lemma waiting_run (id : string) (k : nat) (due : N) (es : list Event) (w : World) :
  view k w = waiting id k due ->
  (clock w < due)%N ->
  (forall payload, ~ In (Emit (eventName id) payload) es) ->
  (due <= clock w + elapsed es)%N ->
  view k (run w es) = timed_out id.
Proof.
  revert w. induction es as [| e es IH]; simpl; intros w Hv Hclock Hne Hdue; [lia |].
  change (fold_left step es (step w e)) with (run (step w e) es).
  destruct (waiting_step id k due w e Hv Hclock) as [[Hc Hv'] | [Hc Hv']].
  - intros payload Heq. apply (Hne payload). now left.
  - apply IH; try assumption.
    + intros payload Hin. apply (Hne payload). now right.
    + rewrite clock_step. destruct e; simpl in *; lia.
  - rewrite settled_run; rewrite Hv'; [reflexivity | apply settled_timed_out].
Qed.

Lemma fetchProfile_waiting (id : string) (w : World) :
  consistent w -> test_17_digits id = true ->
  view (length (requests w)) (fetchProfile id MethodReturns w)
  = waiting id (length (requests w)) (clock w + PROFILE_REQUEST_TIMEOUT_MS).
Proof.
  intros Hw Hid. rewrite view_fetchProfile_self.
  pose proof (Hw (length (requests w))) as Hk.
  assert (Hnone : v_request (view (length (requests w)) w) = None)
    by (unfold view; simpl; apply lookup_ge_None_2; lia).
  destruct Hk; try discriminate.
  unfold v_fetchProfile. rewrite Hid. reflexivity.
Qed.

(** *** The identifiers of the calls made so far *)

Lemma ids_settle (k : nat) (o : promise) (w : World) : ids (settle k o w) = ids w.
Proof.
  unfold settle, ids. destruct (requests w !! k) as [[id p] |] eqn:E; [| reflexivity].
  destruct p; try reflexivity. simpl.
  change (map req_steamId64 ?l) with (req_steamId64 <$> l).
  rewrite list_fmap_insert. simpl. apply list_insert_id.
  rewrite list_lookup_fmap, E. reflexivity.
Qed.

Lemma ids_removeListener (ev : string) (k : nat) (w : World) :
  ids (removeListener ev k w) = ids w.
Proof. unfold removeListener, ids. now destruct (remove_last _ _). Qed.

Lemma ids_call_listener (payload : option value) (w : World) (l : Listener) :
  ids (call_listener payload w l) = ids w.
Proof.
  unfold call_listener, responseHandler.
  assert (H : ids (if l_once l then removeListener (l_event l) (l_handler l) w else w) = ids w)
    by (destruct (l_once l); [apply ids_removeListener | reflexivity]).
  destruct (negb (truthy payload) || negb (typeof_object payload)); [assumption |].
  destruct payload as [tp |]; [| assumption].
  match goal with |- context [match ?c with Some _ => _ | None => _ end] => destruct c end;
    rewrite ids_settle, ids_removeListener; assumption.
Qed.

Lemma ids_fire (w : World) (t : Timer) : ids (fire w t) = ids w.
Proof.
  unfold fire, timeoutCallback. destruct (has_timer (t_handle t) w); [| reflexivity].
  now rewrite ids_settle, ids_removeListener.
Qed.

Lemma ids_fold {A} (f : World -> A -> World) (xs : list A) (w : World) :
  (forall w x, ids (f w x) = ids w) -> ids (fold_left f xs w) = ids w.
Proof.
  intros Hf. revert w. induction xs as [| x xs IH]; simpl; intros w; [reflexivity |].
  now rewrite IH, Hf.
Qed.

Lemma ids_fetchProfile (id : string) (gc : gc_method) (w : World) :
  ids (fetchProfile id gc w) = ids w ++ [id].
Proof.
  unfold fetchProfile.
  assert (H : ids (with_requests (requests w ++ [{| req_steamId64 := id; req_promise := Pending |}]) w)
              = ids w ++ [id]) by (unfold ids; simpl; now rewrite map_app).
  destruct (negb (test_17_digits id)); [now rewrite ids_settle |].
  destruct gc; try assumption; now rewrite ids_settle, ids_removeListener.
Qed.

Lemma ids_run (es : list Event) (w : World) : ids (run w es) = ids w ++ calls es.
Proof.
  revert w. induction es as [| e es IH]; simpl; intros w; [now rewrite app_nil_r |].
  change (fold_left step es (step w e)) with (run (step w e) es). rewrite IH.
  destruct e as [id gc | ev payload | dt]; simpl.
  - rewrite ids_fetchProfile. now rewrite <- app_assoc.
  - unfold emit. now rewrite ids_fold by apply ids_call_listener.
  - unfold advance. now rewrite ids_fold by apply ids_fire.
Qed.

(** *** What a caller can observe of call [k] *)

Lemma promise_of_view (k : nat) (w : World) :
  promise_of k w = req_promise <$> v_request (view k w).
Proof. reflexivity. Qed.

Lemma listening_view (k : nat) (w : World) :
  listening k w = match v_listeners (view k w) with [] => false | _ :: _ => true end.
Proof.
  unfold listening, view. simpl. induction (listeners w) as [| l ls IH]; simpl; [reflexivity |].
  unfold on_handler at 1. destruct (Nat.eqb (l_handler l) k); simpl; [reflexivity | assumption].
Qed.

Lemma times_deregistered_view (k : nat) (w : World) :
  times_deregistered k w = v_deregistered (view k w).
Proof. reflexivity. Qed.

(** The test of the identifier accepts the strings of exactly 17
    characters, all of them decimal digits. *)
Lemma test_17_digits_spec (s : string) :
  test_17_digits s = true <->
  String.length s = 17 /\
  forall c, In c (list_ascii_of_string s) -> 48 <= nat_of_ascii c <= 57.
Proof.
  unfold test_17_digits. rewrite andb_true_iff, Nat.eqb_eq, forallb_forall.
  split; intros [Hlen Hall]; (split; [exact Hlen |]); intros c Hc; specialize (Hall c Hc).
  - unfold is_digit in Hall. apply andb_true_iff in Hall as [H1 H2].
    apply Nat.leb_le in H1, H2. lia.
  - unfold is_digit. apply andb_true_iff. split; apply Nat.leb_le; lia.
Qed.

(** C1. An identifier that is not exactly 17 decimal digits makes
    [fetchProfile] reject at once with the invalid-identifier error: no
    listener is registered, no timer is started, and no method of the
    coordinator client is called, whatever that client is. *)
Theorem fetchProfile_rejects_malformed_id (w : World) (id : string) (gc : gc_method) :
  test_17_digits id = false ->
  let w' := fetchProfile id gc w in
  promise_of (length (requests w)) w'
    = Some (Rejected (Error "Invalid Steam ID 64 format. Must be 17 digits.")) /\
  listeners w' = listeners w /\
  timers w' = timers w /\
  sent w' = sent w /\
  deregistered w' = deregistered w.
Proof.
  intros Hid. unfold fetchProfile. rewrite Hid. cbn [negb].
  unfold settle, promise_of. cbn [requests with_requests].
  rewrite lookup_app_r by lia. rewrite Nat.sub_diag. cbn.
  rewrite list_lookup_insert_eq by (rewrite length_app; simpl; lia).
  repeat split; reflexivity.
Qed.

Lemma fetchProfile_rejects_malformed_id_witness :
  let w := init false None "2024-01-01T00:00:00.000Z" in
  let w' := fetchProfile "7656119944101643x" MethodReturns w in
  promise_of (length (requests w)) w'
    = Some (Rejected (Error "Invalid Steam ID 64 format. Must be 17 digits.")) /\
  listeners w' = listeners w /\
  timers w' = timers w /\
  sent w' = sent w /\
  deregistered w' = deregistered w.
Proof.
  apply (fetchProfile_rejects_malformed_id (init false None "2024-01-01T00:00:00.000Z")
           "7656119944101643x" MethodReturns).
  reflexivity.
Defined.

Example test_17_digits_examples :
  test_17_digits "76561199441016438" = true /\
  test_17_digits "7656119944101643" = false /\
  test_17_digits "765611994410164380" = false /\
  test_17_digits "76561199441016438 " = false /\
  test_17_digits "" = false.
Proof. repeat split. Qed.

(** C2. After a call with a well-formed identifier has sent its request, if
    time reaches the 30 second timeout and no response event for the
    identifier was emitted, the promise is rejected with the timeout error,
    the call's handler is no longer listening and was deregistered once, and
    whatever happens later (a late response included) changes nothing of
    that.  Moreover, however the promise of such a call came to be settled
    (response, failure after the response, timeout, failure to send), the
    handler is not listening any more and was deregistered exactly once. *)
Theorem fetchProfile_timeout_and_deregistration
  (cache : bool) (fault : option exn) (date : string) (before : list Event) (id : string) :
  test_17_digits id = true ->
  let w := run (init cache fault date) before in
  let k := length (requests w) in
  (forall after : list Event,
     (forall payload, ~ In (Emit (eventName id) payload) after) ->
     (PROFILE_REQUEST_TIMEOUT_MS <= elapsed after)%N ->
     let w' := run (fetchProfile id MethodReturns w) after in
     promise_of k w'
       = Some (Rejected (Error ("Timeout waiting for profile response for " +:+ id))) /\
     listening k w' = false /\
     times_deregistered k w' = 1 /\
     forall later : list Event,
       promise_of k (run w' later) = promise_of k w' /\
       listening k (run w' later) = false /\
       has_timer k (run w' later) = false /\
       times_deregistered k (run w' later) = 1) /\
  (forall (gc : gc_method) (after : list Event) (outcome : promise),
     let w' := run (fetchProfile id gc w) after in
     promise_of k w' = Some outcome -> outcome <> Pending ->
     listening k w' = false /\ times_deregistered k w' = 1).
Proof.
  intros Hid w k.
  assert (Hw : consistent w) by apply consistent_run, consistent_init.
  split.
  - intros after Hquiet Hlong w'.
    assert (Hv : view k w' = timed_out id).
    { apply (waiting_run id k (clock w + PROFILE_REQUEST_TIMEOUT_MS)).
      - now apply fetchProfile_waiting.
      - rewrite clock_fetchProfile. unfold PROFILE_REQUEST_TIMEOUT_MS. lia.
      - assumption.
      - rewrite clock_fetchProfile. lia. }
    rewrite promise_of_view, listening_view, times_deregistered_view, Hv.
    repeat split.
    all: try (rewrite promise_of_view || rewrite listening_view
              || rewrite has_timer_view || rewrite times_deregistered_view);
      rewrite ?promise_of_view, settled_run; rewrite Hv;
      (reflexivity || apply settled_timed_out).
  - intros gc after outcome w' Hp Hsettled.
    assert (Hw' : consistent w').
    { apply consistent_run. apply (consistent_step w (Call id gc) Hw). }
    assert (Hids : ids w' !! k = Some id).
    { unfold w'. rewrite ids_run, ids_fetchProfile.
      rewrite lookup_app_l by (rewrite length_app; simpl; unfold ids; rewrite length_map; fold k; lia).
      rewrite lookup_app_r by (unfold ids; rewrite length_map; fold k; lia).
      unfold ids. rewrite length_map. fold k. now rewrite Nat.sub_diag. }
    rewrite listening_view, times_deregistered_view.
    rewrite promise_of_view in Hp. unfold ids in Hids.
    change (map req_steamId64 (requests w') !! k)
      with ((req_steamId64 <$> requests w') !! k) in Hids.
    rewrite list_lookup_fmap in Hids.
    change (requests w' !! k) with (v_request (view k w')) in Hids.
    destruct (Hw' k) as [| id' Hid' | id' due Hid' | id' due Hid' | id' p Hid' Hp' Hres];
      simpl in *; try discriminate; try (injection Hp as <-; congruence).
    split; reflexivity.
Qed.

Lemma fetchProfile_timeout_and_deregistration_witness :
  let id := "76561199441016438" in
  let w := run (init false None "2024-01-01T00:00:00.000Z") [] in
  let k := length (requests w) in
  let w' := run (fetchProfile id MethodReturns w) [Advance 30000] in
  test_17_digits id = true /\
  promise_of k w'
    = Some (Rejected (Error ("Timeout waiting for profile response for " +:+ id))) /\
  listening k w' = false /\
  times_deregistered k w' = 1 /\
  promise_of k (run w' [Emit (eventName id) (Some sample_response)]) = promise_of k w'.
Proof.
  intros id w k w'. split; [reflexivity |].
  destruct (fetchProfile_timeout_and_deregistration false None "2024-01-01T00:00:00.000Z"
              [] id eq_refl) as [Htimeout _].
  destruct (Htimeout [Advance 30000]) as (Hp & Hl & Hd & Hlater).
  - intros payload [Heq | []]. discriminate Heq.
  - vm_compute. discriminate.
  - split; [exact Hp |]. split; [exact Hl |]. split; [exact Hd |].
    exact (proj1 (Hlater [Emit (eventName id) (Some sample_response)])).
Defined.

(** The four ways out of a call that was started, each leaving the handler
    deregistered once. *)
Example exit_by_response :
  let w := run (init false None "") [Call "76561199441016438" MethodReturns;
             Emit "playersProfile#76561199441016438" (Some sample_response)] in
  (exists profile, promise_of 0 w = Some (Resolved profile)) /\
  listeners w = [] /\ timers w = [] /\ deregistered w = [0].
Proof. vm_compute. repeat split. eexists. reflexivity. Qed.

Example exit_by_failure_after_response :
  let w := run (init true (Some (Error "EACCES")) "") [Call "76561199441016438" MethodReturns;
             Emit "playersProfile#76561199441016438" (Some sample_response)] in
  promise_of 0 w = Some (Rejected (Error "EACCES")) /\
  listeners w = [] /\ timers w = [] /\ deregistered w = [0].
Proof. vm_compute. repeat split. Qed.

Example exit_by_timeout_after_bad_payload :
  let w := run (init false None "") [Call "76561199441016438" MethodReturns;
             Emit "playersProfile#76561199441016438" None; Advance 30000] in
  promise_of 0 w
    = Some (Rejected (Error "Timeout waiting for profile response for 76561199441016438")) /\
  listeners w = [] /\ timers w = [] /\ deregistered w = [0].
Proof. vm_compute. repeat split. Qed.

Example exit_by_send_failure :
  let w := run (init false None "") [Call "76561199441016438" (MethodThrows (Error "not connected"))] in
  promise_of 0 w = Some (Rejected (Error "not connected")) /\
  listeners w = [] /\ timers w = [] /\ deregistered w = [0].
Proof. vm_compute. repeat split. Qed.

(** Two calls for one identifier in flight: each has its own listener and
    timer, and one response event settles both. *)
Example two_calls_same_identifier :
  let w1 := run (init false None "") [Call "76561199441016438" MethodReturns;
              Call "76561199441016438" MethodReturns] in
  let w2 := step w1 (Emit "playersProfile#76561199441016438" (Some sample_response)) in
  map l_handler (listeners w1) = [0; 1] /\ map t_handle (timers w1) = [0; 1] /\
  listeners w2 = [] /\ timers w2 = [] /\ deregistered w2 = [0; 1] /\
  promise_of 0 w2 = promise_of 1 w2.
Proof. vm_compute. repeat split. Qed.

(** C10. Whenever the promise of a call is resolved, the [steamId64] of the
    profile it is resolved with is the identifier the call was made with,
    whatever the response held. *)
Theorem resolved_profile_carries_request_id
  (cache : bool) (fault : option exn) (date : string)
  (es : list Event) (k : nat) (id : string) (profile : PlayerProfile) :
  calls es !! k = Some id ->
  promise_of k (run (init cache fault date) es) = Some (Resolved profile) ->
  steamId64 profile = id.
Proof.
  intros Hcall Hp.
  set (w := run (init cache fault date) es) in *.
  assert (Hw : consistent w) by apply consistent_run, consistent_init.
  assert (Hids : ids w = calls es) by (unfold w; now rewrite ids_run).
  rewrite <- Hids in Hcall. unfold ids in Hcall.
  change (map req_steamId64 (requests w) !! k)
    with ((req_steamId64 <$> requests w) !! k) in Hcall.
  rewrite list_lookup_fmap in Hcall.
  change (requests w !! k) with (v_request (view k w)) in Hcall.
  rewrite promise_of_view in Hp.
  destruct (Hw k) as [| id' Hid' | id' due Hid' | id' due Hid' | id' p Hid' Hp' Hres];
    simpl in *; try discriminate.
  injection Hcall as <-. injection Hp as ->. now apply Hres.
Qed.

Lemma resolved_profile_carries_request_id_witness :
  exists profile,
    promise_of 0 (run (init false None "2024-01-01T00:00:00.000Z")
                      [Call "76561199441016438" MethodReturns;
                       Emit "playersProfile#76561199441016438" (Some response_of_someone_else)])
    = Some (Resolved profile) /\
    steamId64 profile = "76561199441016438".
Proof.
  eexists. split; [vm_compute; reflexivity |].
  apply (resolved_profile_carries_request_id false None "2024-01-01T00:00:00.000Z"
           [Call "76561199441016438" MethodReturns;
            Emit "playersProfile#76561199441016438" (Some response_of_someone_else)] 0).
  - reflexivity.
  - vm_compute. reflexivity.
Defined.

End Correlation.

(** ** Readiness of the coordinator connection *)

Section Readiness.
Import JS GCConnection.

Lemma handle_keeps_ready (c : GCConnection) (e : Event) :
  keeps_ready e = true -> isGcReady c = true -> isGcReady (handle c e) = true.
Proof.
  destruct e as [| reason | status | err]; simpl; try discriminate; [reflexivity |].
  intros Hk Hc. destruct (status =? 2)%Z eqn:E2.
  - apply Z.eqb_eq in E2. subst. discriminate.
  - destruct (status =? 4)%Z; [assumption |].
    destruct (status =? 3)%Z; [assumption | discriminate].
Qed.

Lemma handle_drops_ready (c : GCConnection) (e : Event) :
  keeps_ready e = false -> isGcReady (handle c e) = false.
Proof.
  destruct e as [| reason | status | err]; simpl; try discriminate; try reflexivity.
  intros Hk. apply orb_false_iff in Hk as [H3 H4]. rewrite H3, H4.
  destruct (status =? 2)%Z; reflexivity.
Qed.

Lemma handle_not_ready (c : GCConnection) (e : Event) :
  isGcReady c = false -> isGcReady (handle c e) = true -> e = connectedToGC.
Proof.
  destruct e as [| reason | status | err]; simpl; try discriminate; [reflexivity |].
  intros Hc. destruct (status =? 2)%Z; [discriminate |].
  destruct (status =? 4)%Z; [congruence |].
  destruct (status =? 3)%Z; simpl; [congruence | discriminate].
Qed.

Lemma run_snoc (c : GCConnection) (es : list Event) (e : Event) :
  run c (es ++ [e]) = handle (run c es) e.
Proof. unfold run. now rewrite fold_left_app. Qed.

(** C4. The connection is ready only through the 'connectedToGC' event: an
    event that finds the connection not ready and leaves it ready is that
    event, a 'connectionStatus' event changes nothing when its code is 4
    (Connected) and never makes the connection ready, and after an 'error'
    or a 'disconnectedFromGC' event the connection is not ready, whatever
    it was before.  Over a whole history, starting from the constructed
    object: the connection is ready exactly when some 'connectedToGC' event
    was followed only by 'connectedToGC' events and status codes 3 and 4. *)
Theorem ready_only_by_connectedToGC :
  (forall c e, isGcReady c = false -> isGcReady (handle c e) = true -> e = connectedToGC) /\
  (forall c, handle c (connectionStatus 4) = c) /\
  (forall c status, isGcReady c = false -> isGcReady (handle c (connectionStatus status)) = false) /\
  (forall c e, isGcReady (handle c (error e)) = false) /\
  (forall c reason, isGcReady (handle c (disconnectedFromGC reason)) = false) /\
  (forall es, isGcReady (run constructed es) = true <->
              exists es1 es2, es = es1 ++ connectedToGC :: es2 /\
                              forallb keeps_ready es2 = true).
Proof.
  split; [exact handle_not_ready |].
  split; [reflexivity |].
  split.
  { intros c status Hc. destruct (isGcReady (handle c (connectionStatus status))) eqn:E;
      [| reflexivity]. now apply handle_not_ready in E. }
  split; [reflexivity |].
  split; [reflexivity |].
  intros es. induction es as [| e es IH] using rev_ind.
  - split; [discriminate |]. intros (es1 & es2 & H & _). now destruct es1.
  - rewrite run_snoc. split.
    + intros H. destruct (isGcReady (run constructed es)) eqn:Hes.
      * destruct (keeps_ready e) eqn:Hk.
        -- destruct (proj1 IH eq_refl) as (es1 & es2 & -> & Hall).
           exists es1, (es2 ++ [e]). split; [now rewrite <- app_assoc |].
           rewrite forallb_app, Hall. simpl. now rewrite Hk.
        -- rewrite handle_drops_ready in H by assumption. discriminate.
      * apply handle_not_ready in H; [| assumption]. subst e.
        exists es, []. split; reflexivity.
    + intros (es1 & es2 & Heq & Hall).
      destruct es2 as [| e2 es2 _] using rev_ind.
      * apply app_inj_tail in Heq as [_ ->]. reflexivity.
      * rewrite app_comm_cons, app_assoc in Heq. apply app_inj_tail in Heq as [-> ->].
        rewrite forallb_app in Hall. apply andb_true_iff in Hall as [Hall He].
        simpl in He. rewrite andb_true_r in He.
        apply handle_keeps_ready; [assumption |].
        apply IH. now exists es1, es2.
Qed.

Lemma ready_only_by_connectedToGC_witness :
  isGcReady (run constructed [connectionStatus 4; connectedToGC; connectionStatus 3]) = true /\
  isGcReady (run constructed [connectedToGC; error (Error "timeout")]) = false /\
  isGcReady (run constructed [connectedToGC; disconnectedFromGC 2]) = false.
Proof.
  destruct ready_only_by_connectedToGC as (_ & _ & _ & Herror & Hdisconnect & Hhistory).
  split; [| split].
  - apply Hhistory. exists [connectionStatus 4], [connectionStatus 3]. split; reflexivity.
  - apply (Herror (run constructed [connectedToGC])).
  - apply (Hdisconnect (run constructed [connectedToGC])).
Defined.

Example ready_lost_on_status_2 :
  isGcReady (run constructed [connectedToGC; connectionStatus 4; connectionStatus 2]) = false /\
  isGcReady (run constructed [connectionStatus 4]) = false /\
  isGcReady (run constructed [connectedToGC; connectionStatus 3]) = true.
Proof. repeat split. Qed.

End Readiness.

(** ** The disconnect watchdog *)

Section Watchdog.
Import JS FS SteamAuth Samples.

Lemma count_removeListener (h : Handler) (s : State) :
  disconnectCount (removeListener h s) = disconnectCount s.
Proof. unfold removeListener. now destruct (ProfileFetcher.remove_last _ _). Qed.

Lemma count_settle (p : nat) (o : promise) (s : State) :
  disconnectCount (settle p o s) = disconnectCount s.
Proof. unfold settle. destruct (logins s !! p) as [[] |]; reflexivity. Qed.

Lemma count_call_handler (m : Emission) (s : State) (h : Handler) :
  disconnectCount (call_handler m s h) = disconnectCount s.
Proof.
  unfold call_handler, loggedOnHandler, errorHandler.
  destruct m as [found | e], (h_method h); try destruct (found_token found);
    rewrite count_settle; cbn [disconnectCount with_disk];
    rewrite ?count_removeListener; reflexivity.
Qed.

Lemma count_emit_to_logins (m : Emission) (s : State) :
  disconnectCount (emit_to_logins m s) = disconnectCount s.
Proof.
  unfold emit_to_logins.
  generalize (List.filter (fun h => EventName_eqb (h_event h) (event_of m)) (handlers s)).
  intros hs. revert s. induction hs as [| h hs IH]; simpl; intros s; [reflexivity |].
  now rewrite IH, count_call_handler.
Qed.

Lemma count_login (username password : string) (secret : option string) (s : State) :
  disconnectCount (login username password secret s) = disconnectCount s.
Proof. unfold login. destruct (loadLoginKey _ _); reflexivity. Qed.

Lemma step_counter (s : State) (ev : Event) :
  if is_disconnect ev && (MAX_DISCONNECTS <=? S (disconnectCount s))%nat
  then exists s', step s ev = Exited 1 s'
  else exists s', step s ev = Running s' /\
                  disconnectCount s' = counted (disconnectCount s) ev.
Proof.
  destruct ev as [u pw sec | found | e | r | key | token | bytes]; cbn [is_disconnect andb].
  - eexists. split; [reflexivity | apply count_login].
  - eexists. split; [reflexivity |]. cbn [disconnectCount with_disk].
    now rewrite count_emit_to_logins.
  - unfold step, handleDisconnect. cbn [disconnectCount with_disconnectCount counted].
    rewrite Nat.add_1_r.
    destruct (MAX_DISCONNECTS <=? S (disconnectCount s))%nat.
    + eexists. reflexivity.
    + eexists. split; [reflexivity |]. now rewrite count_emit_to_logins.
  - unfold step, handleDisconnect. cbn [disconnectCount with_disconnectCount counted].
    rewrite Nat.add_1_r.
    destruct (MAX_DISCONNECTS <=? S (disconnectCount s))%nat; eexists; [| split]; reflexivity.
  - eexists. split; reflexivity.
  - eexists. split; reflexivity.
  - eexists. split; reflexivity.
Qed.

Lemma run_exited (code : Z) (s : State) (evs : list Event) :
  run (Exited code s) evs = Exited code s.
Proof. induction evs as [| ev evs IH]; simpl; [reflexivity | exact IH]. Qed.

Lemma counted_le (n : nat) (ev : Event) :
  is_disconnect ev = false -> counted n ev <= n.
Proof. destruct ev; simpl; intros; (discriminate || lia). Qed.

Lemma counted_disconnect (n : nat) (ev : Event) :
  is_disconnect ev = true -> counted n ev = S n.
Proof. destruct ev; simpl; intros; (discriminate || reflexivity). Qed.

Lemma run_counter (evs : list Event) (s : State) :
  (forall n, fold_left counted (take n evs) (disconnectCount s) < MAX_DISCONNECTS) ->
  exists s', run (Running s) evs = Running s' /\
             disconnectCount s' = fold_left counted evs (disconnectCount s).
Proof.
  revert s. induction evs as [| ev evs IH]; intros s H.
  - exists s. split; reflexivity.
  - pose proof (H 1) as H1. simpl in H1.
    pose proof (step_counter s ev) as Hs.
    destruct (is_disconnect ev) eqn:Hd; cbn [andb] in Hs.
    + rewrite (counted_disconnect _ _ Hd) in H1.
      apply Nat.leb_gt in H1. rewrite H1 in Hs. destruct Hs as (s' & Hs' & Hc).
      destruct (IH s') as (s'' & Hrun & Hc').
      { intros n. rewrite Hc. exact (H (S n)). }
      exists s''. simpl. rewrite Hs'. split; [exact Hrun |]. now rewrite Hc', Hc.
    + destruct Hs as (s' & Hs' & Hc).
      destruct (IH s') as (s'' & Hrun & Hc').
      { intros n. rewrite Hc. exact (H (S n)). }
      exists s''. simpl. rewrite Hs'. split; [exact Hrun |]. now rewrite Hc', Hc.
Qed.

Lemma run_exit (evs : list Event) (s : State) :
  disconnectCount s < MAX_DISCONNECTS ->
  (exists n, fold_left counted (take n evs) (disconnectCount s) = MAX_DISCONNECTS) ->
  exists s', run (Running s) evs = Exited 1 s'.
Proof.
  revert s. induction evs as [| ev evs IH]; intros s Hlt (n & Hn).
  - rewrite take_nil in Hn. simpl in Hn. lia.
  - destruct n as [| n]; [simpl in Hn; lia |]. simpl in Hn.
    pose proof (step_counter s ev) as Hs.
    destruct (is_disconnect ev && (MAX_DISCONNECTS <=? S (disconnectCount s))%nat) eqn:E.
    + destruct Hs as (s' & Hs'). exists s'. simpl. rewrite Hs'. apply run_exited.
    + destruct Hs as (s' & Hs' & Hc).
      assert (Hlt' : disconnectCount s' < MAX_DISCONNECTS).
      { rewrite Hc. destruct (is_disconnect ev) eqn:Hd; cbn [andb] in E.
        - rewrite (counted_disconnect _ _ Hd). now apply Nat.leb_gt in E.
        - pose proof (counted_le (disconnectCount s) ev Hd). lia. }
      destruct (IH s' Hlt') as (s'' & Hrun).
      { exists n. now rewrite Hc. }
      exists s''. simpl. now rewrite Hs'.
Qed.

(** C3. The counter goes up by one on every 'error' or 'disconnected' event
    of the client and the process keeps running while the count is below 5;
    the event that brings it to 5 makes the process exit (with code 1)
    instead; a 'loggedOn' event sets the counter to zero.  Over a whole
    history of a fresh object: as long as no run of such events without a
    'loggedOn' in between reaches 5, the process runs and the counter is the
    length of the current run; once one reaches 5, the process has exited;
    and a disconnect right after a 'loggedOn' counts as 1. *)
Theorem watchdog_counts_consecutive_disconnects
  (fields : Fields) (totp : string -> string) (date : string) (fs : FS) :
  let fresh := Running (constructed fields totp date fs) in
  (forall s ev, is_disconnect ev = true ->
     if (S (disconnectCount s) <? MAX_DISCONNECTS)%nat
     then exists s', step s ev = Running s' /\ disconnectCount s' = S (disconnectCount s)
     else exists s', step s ev = Exited 1 s') /\
  (forall s found, exists s', step s (loggedOn found) = Running s' /\ disconnectCount s' = 0) /\
  (forall evs, (forall n, streak (take n evs) < MAX_DISCONNECTS) ->
     exists s, run fresh evs = Running s /\ disconnectCount s = streak evs) /\
  (forall evs, (exists n, streak (take n evs) = MAX_DISCONNECTS) ->
     exists s, run fresh evs = Exited 1 s) /\
  (forall evs found ev, (forall n, streak (take n evs) < MAX_DISCONNECTS) ->
     is_disconnect ev = true ->
     exists s, run fresh (evs ++ [loggedOn found; ev]) = Running s /\ disconnectCount s = 1).
Proof.
  intros fresh. split; [| split; [| split; [| split]]].
  - intros s ev Hd. pose proof (step_counter s ev) as Hs. rewrite Hd in Hs. cbn [andb] in Hs.
    destruct (S (disconnectCount s) <? MAX_DISCONNECTS)%nat eqn:E.
    + apply Nat.ltb_lt in E. apply Nat.leb_gt in E. rewrite E in Hs.
      destruct Hs as (s' & Hs' & Hc). exists s'. split; [assumption |].
      now rewrite Hc, (counted_disconnect _ _ Hd).
    + apply Nat.ltb_ge in E. apply Nat.leb_le in E. now rewrite E in Hs.
  - intros s found. exact (step_counter s (loggedOn found)).
  - intros evs H. apply (run_counter evs (constructed fields totp date fs)). exact H.
  - intros evs H. apply (run_exit evs (constructed fields totp date fs)); [| exact H].
    simpl. unfold MAX_DISCONNECTS. lia.
  - intros evs found ev H Hd.
    destruct (run_counter (evs ++ [loggedOn found; ev]) (constructed fields totp date fs))
      as (s & Hrun & Hc).
    + intros n. cbn [disconnectCount constructed].
      destruct (Nat.le_gt_cases n (length evs)) as [Hle | Hgt].
      * rewrite take_app_le by assumption. apply H.
      * rewrite take_app_ge by lia. rewrite fold_left_app.
        destruct (n - length evs) as [| [| m]] eqn:Hm; [lia | |].
        -- simpl. unfold MAX_DISCONNECTS. lia.
        -- simpl. rewrite take_nil. simpl. rewrite (counted_disconnect _ _ Hd).
           unfold MAX_DISCONNECTS. lia.
    + exists s. split; [exact Hrun |]. rewrite Hc. cbn [disconnectCount constructed].
      rewrite fold_left_app. simpl. now rewrite (counted_disconnect _ _ Hd).
Qed.

Lemma watchdog_counts_consecutive_disconnects_witness :
  let fresh := Running sample_auth in
  (exists s, run fresh [disconnected 6; error (Error "RateLimitExceeded"); disconnected 6;
                        disconnected 6] = Running s /\ disconnectCount s = 4) /\
  (exists s, run fresh [disconnected 6; error (Error "RateLimitExceeded"); disconnected 6;
                        disconnected 6; disconnected 6] = Exited 1 s) /\
  (exists s, run fresh ([disconnected 6; disconnected 6; disconnected 6; disconnected 6]
                        ++ [loggedOn {| key_candidates := []; found_token := None |};
                            disconnected 6]) = Running s /\ disconnectCount s = 1).
Proof.
  intros fresh.
  destruct (watchdog_counts_consecutive_disconnects sample_fields (fun _ => "2F9J5")
              "2024-01-01T00:00:00.000Z" disk_with_key)
    as (_ & _ & Hruns & Hexits & Hreset).
  assert (Hbelow : forall evs, length evs <= 4 -> forallb is_disconnect evs = true ->
                   forall n, streak (take n evs) < MAX_DISCONNECTS).
  { intros evs Hlen Hall n.
    assert (H : forall l c, forallb is_disconnect l = true ->
                            fold_left counted l c = length l + c).
    { induction l as [| ev l IH]; intros c Hl; [reflexivity |].
      simpl in Hl. apply andb_true_iff in Hl as [Hev Hl]. simpl.
      rewrite (IH _ Hl), (counted_disconnect _ _ Hev). lia. }
    unfold streak. rewrite H.
    - rewrite length_take. unfold MAX_DISCONNECTS. lia.
    - rewrite <- (take_drop n evs), forallb_app in Hall.
      now apply andb_true_iff in Hall as [Hall _]. }
  split; [| split].
  - apply (Hruns [disconnected 6; error (Error "RateLimitExceeded"); disconnected 6;
                  disconnected 6]).
    apply Hbelow; [simpl; lia | reflexivity].
  - apply (Hexits [disconnected 6; error (Error "RateLimitExceeded"); disconnected 6;
                   disconnected 6; disconnected 6]).
    exists 5. reflexivity.
  - apply (Hreset [disconnected 6; disconnected 6; disconnected 6; disconnected 6]).
    + apply Hbelow; [simpl; lia | reflexivity].
    + reflexivity.
Defined.

End Watchdog.

(** ** Login with a persisted key *)

Section KeyLogin.
Import JS FS SteamAuth KeyLoginInvariants Samples.

Lemma same_setup_refl (s : State) : same_setup s s.
Proof. now split. Qed.

Lemma same_setup_trans (s1 s2 s3 : State) :
  same_setup s1 s2 -> same_setup s2 s3 -> same_setup s1 s3.
Proof. intros [] []. split; congruence. Qed.

Lemma same_setup_removeListener (h : Handler) (s : State) : same_setup s (removeListener h s).
Proof. unfold removeListener. destruct (ProfileFetcher.remove_last _ _); now split. Qed.

Lemma same_setup_settle (p : nat) (o : promise) (s : State) : same_setup s (settle p o s).
Proof. unfold settle. destruct (logins s !! p) as [[] |]; now split. Qed.

Lemma same_setup_with_disk (fs : FS) (s : State) : same_setup s (with_disk fs s).
Proof. now split. Qed.

Lemma same_setup_errorHandler (h : Handler) (e : exn) (s : State) :
  same_setup s (errorHandler h e s).
Proof.
  unfold errorHandler. destruct (h_method h).
  - eapply same_setup_trans; [apply same_setup_removeListener |].
    eapply same_setup_trans; [apply same_setup_with_disk |]. apply same_setup_settle.
  - eapply same_setup_trans; [apply same_setup_removeListener |]. apply same_setup_settle.
Qed.

Lemma logins_removeListener (h : Handler) (s : State) : logins (removeListener h s) = logins s.
Proof. unfold removeListener. now destruct (ProfileFetcher.remove_last _ _). Qed.

Lemma disk_removeListener (h : Handler) (s : State) : disk (removeListener h s) = disk s.
Proof. unfold removeListener. now destruct (ProfileFetcher.remove_last _ _). Qed.

Lemma disk_settle (p : nat) (o : promise) (s : State) : disk (settle p o s) = disk s.
Proof. unfold settle. destruct (logins s !! p) as [[] |]; reflexivity. Qed.

Lemma settle_rejected (p q : nat) (e : exn) (s : State) :
  pending_or_rejected p e s -> pending_or_rejected p e (settle q (Rejected (as_Error e)) s).
Proof.
  unfold pending_or_rejected, settle. intros H.
  destruct (logins s !! q) as [[] |] eqn:Hq; try assumption.
  cbn [logins with_logins]. destruct (Nat.eq_dec q p) as [-> | Hne].
  - right. apply list_lookup_insert_eq. now apply lookup_lt_Some in Hq.
  - now rewrite list_lookup_insert_ne.
Qed.

Lemma settle_rejects (p : nat) (e : exn) (s : State) :
  pending_or_rejected p e s ->
  logins (settle p (Rejected (as_Error e)) s) !! p = Some (Rejected (as_Error e)).
Proof.
  unfold pending_or_rejected, settle. intros [H | H]; rewrite H; [| assumption].
  cbn [logins with_logins]. apply list_lookup_insert_eq. now apply lookup_lt_Some in H.
Qed.

Lemma errorHandler_pending_or_rejected (p : nat) (h : Handler) (e : exn) (s : State) :
  pending_or_rejected p e s -> pending_or_rejected p e (errorHandler h e s).
Proof.
  intros H. unfold errorHandler. destruct (h_method h); apply settle_rejected;
    unfold pending_or_rejected in *; cbn [logins with_disk];
    now rewrite logins_removeListener.
Qed.

Lemma fold_error_handlers (p : nat) (e : exn) (hs : list Handler) (s : State) :
  pending_or_rejected p e s ->
  let s' := fold_left (call_handler (emitted_error e)) hs s in
  same_setup s s' /\ pending_or_rejected p e s'.
Proof.
  revert s. induction hs as [| h hs IH]; intros s Hp; simpl.
  - split; [apply same_setup_refl | assumption].
  - assert (Hstep : same_setup s (call_handler (emitted_error e) s h) /\
                    pending_or_rejected p e (call_handler (emitted_error e) s h)).
    { unfold call_handler. split.
      - eapply same_setup_trans; [apply same_setup_removeListener |].
        apply same_setup_errorHandler.
      - apply errorHandler_pending_or_rejected. unfold pending_or_rejected in *.
        now rewrite logins_removeListener. }
    destruct Hstep as [Hsame Hp']. destruct (IH _ Hp') as [Hsame' Hp''].
    split; [eapply same_setup_trans; eassumption | assumption].
Qed.

Lemma handleInvalidLoginKey_deletes (fields : Fields) (fs : FS) :
  access (loginKeyPath fields) (handleInvalidLoginKey fields fs) = false.
Proof.
  unfold handleInvalidLoginKey, unlink.
  destruct (access (loginKeyPath fields) fs) eqn:E; [| assumption].
  unfold access. cbn [files]. now rewrite lookup_delete_eq.
Qed.

Lemma loadLoginKey_absent (fields : Fields) (fs : FS) :
  access (loginKeyPath fields) fs = false -> loadLoginKey fields fs = None.
Proof. intros H. unfold loadLoginKey. now rewrite H. Qed.

(** What the listener of a key login does on the 'error' event of the
    client, in a process the watchdog lets live. *)
Lemma key_login_failure_step
  (s : State) (username password : string) (secret : option string)
  (key : string) (e : exn) :
  loadLoginKey (this s) (disk s) = Some key ->
  S (disconnectCount s) < MAX_DISCONNECTS ->
  exists s',
    run (Running s) [Login username password secret; error e] = Running s' /\
    this s' = this s /\
    access (loginKeyPath (this s')) (disk s') = false /\
    loadLoginKey (this s') (disk s') = None /\
    logins s' !! length (logins s) = Some (Rejected (as_Error e)) /\
    logOnCalls s' = logOnCalls s ++ [key_options username key] /\
    o_password (key_options username key) = None /\
    (o_loginKey (key_options username key) = Some key \/
     o_refreshToken (key_options username key) = Some key).
Proof.
  intros Hkey Hcount.
  set (p := length (logins s)).
  set (hE := {| h_event := on_error; h_method := WithKey; h_login := p |}).
  set (s1 := login username password secret s).
  assert (Hs1 : s1 = start_login WithKey (key_options username key) s)
    by (unfold s1, login; now rewrite Hkey).
  set (s2 := with_disconnectCount (disconnectCount s1 + 1) s1).
  assert (Hstep : step s1 (error e) = Running (emit_to_logins (emitted_error e) s2)).
  { assert (Hc2 : disconnectCount s2 = S (disconnectCount s)).
    { unfold s2, s1. cbn [disconnectCount with_disconnectCount].
      rewrite count_login. apply Nat.add_1_r. }
    unfold step, handleDisconnect. fold s2. rewrite Hc2.
    apply Nat.leb_gt in Hcount. now rewrite Hcount. }
  assert (Hsnap : List.filter (fun h => EventName_eqb (h_event h) on_error) (handlers s2)
                  = List.filter (fun h => EventName_eqb (h_event h) on_error) (handlers s) ++ [hE]).
  { unfold s2. rewrite Hs1. cbn [handlers with_disconnectCount start_login with_logOnCalls
                                   once with_handlers with_logins].
    rewrite <- app_assoc, List.filter_app. reflexivity. }
  assert (Hp2 : pending_or_rejected p e s2).
  { left. unfold s2. rewrite Hs1. cbn [logins with_disconnectCount start_login with_logOnCalls
                                         once with_handlers with_logins].
    rewrite lookup_app_r by (unfold p; lia). unfold p. now rewrite Nat.sub_diag. }
  destruct (fold_error_handlers p e
              (List.filter (fun h => EventName_eqb (h_event h) on_error) (handlers s)) s2)
    as [Hsame Hp3]; [exact Hp2 |].
  set (s3 := fold_left (call_handler (emitted_error e))
               (List.filter (fun h => EventName_eqb (h_event h) on_error) (handlers s)) s2) in *.
  exists (call_handler (emitted_error e) s3 hE).
  assert (Hfinal : emit_to_logins (emitted_error e) s2 = call_handler (emitted_error e) s3 hE).
  { unfold emit_to_logins. cbn [event_of]. rewrite Hsnap, fold_left_app. reflexivity. }
  split.
  { change (run (Running s) [Login username password secret; error e])
      with (step s1 (error e)).
    now rewrite Hstep, Hfinal. }
  unfold call_handler, errorHandler. cbn [h_event h_method h_login hE].
  set (s4 := removeListener {| h_event := on_loggedOn; h_method := WithKey; h_login := p |}
               (removeListener hE s3)).
  assert (Hsame4 : same_setup s2 s4).
  { eapply same_setup_trans; [exact Hsame |].
    eapply same_setup_trans; apply same_setup_removeListener. }
  assert (Hthis : this (settle p (Rejected (as_Error e))
                          (with_disk (handleInvalidLoginKey (this s4) (disk s4)) s4)) = this s4)
    by exact (same_this _ _ (same_setup_settle p _ (with_disk _ s4))).
  assert (Hdisk : disk (settle p (Rejected (as_Error e))
                          (with_disk (handleInvalidLoginKey (this s4) (disk s4)) s4))
                  = handleInvalidLoginKey (this s4) (disk s4))
    by now rewrite disk_settle.
  split; [| split; [| split; [| split; [| split; [| split]]]]].
  - rewrite Hthis, (same_this _ _ Hsame4). unfold s2. rewrite Hs1. reflexivity.
  - rewrite Hthis, Hdisk. apply handleInvalidLoginKey_deletes.
  - apply loadLoginKey_absent. rewrite Hthis, Hdisk. apply handleInvalidLoginKey_deletes.
  - apply settle_rejects. unfold pending_or_rejected in *. cbn [logins with_disk].
    unfold s4. now rewrite !logins_removeListener.
  - transitivity (logOnCalls s4);
      [exact (same_calls _ _ (same_setup_settle p _ (with_disk _ s4))) |].
    rewrite (same_calls _ _ Hsame4). unfold s2. rewrite Hs1. reflexivity.
  - unfold key_options. now destruct (String.prefix "eyJ" key || String.prefix "eyA" key).
  - unfold key_options.
    destruct (String.prefix "eyJ" key || String.prefix "eyA" key); [right | left]; reflexivity.
Qed.

(** At the event that takes the watchdog to its limit the process exits
    before the listener of the login call runs. *)
Lemma key_login_failure_exit
  (s : State) (username password : string) (secret : option string)
  (key : string) (e : exn) :
  loadLoginKey (this s) (disk s) = Some key ->
  MAX_DISCONNECTS <= S (disconnectCount s) ->
  exists s',
    run (Running s) [Login username password secret; error e] = Exited 1 s' /\
    this s' = this s /\ disk s' = disk s /\
    logins s' !! length (logins s) = Some Pending /\
    logOnCalls s' = logOnCalls s ++ [key_options username key].
Proof.
  intros Hkey Hcount.
  set (s1 := login username password secret s).
  assert (Hs1 : s1 = start_login WithKey (key_options username key) s)
    by (unfold s1, login; now rewrite Hkey).
  exists (with_disconnectCount (disconnectCount s1 + 1) s1).
  split.
  { change (run (Running s) [Login username password secret; error e])
      with (step s1 (error e)).
    unfold step, handleDisconnect. cbn [disconnectCount with_disconnectCount].
    unfold s1 at 1. rewrite count_login, Nat.add_1_r.
    apply Nat.leb_le in Hcount. now rewrite Hcount. }
  rewrite Hs1.
  cbn [this disk logins logOnCalls with_disconnectCount start_login with_logOnCalls once
       with_handlers with_logins].
  repeat split. rewrite lookup_app_r by lia. now rewrite Nat.sub_diag.
Qed.

(** [s.startsWith(p)] *)
Lemma prefix_starts (p s : string) :
  String.prefix p s = true <-> exists rest, s = p +:+ rest.
Proof.
  revert s. induction p as [| c p IH]; intros s.
  - split; [intros _; now exists s | now destruct s].
  - destruct s as [| d s]; cbn [String.prefix].
    + split; [discriminate | intros (rest & H); discriminate H].
    + destruct (ascii_dec c d) as [-> | Hcd].
      * rewrite IH. split; intros (rest & H); exists rest.
        -- now rewrite H.
        -- now injection H.
      * split; [discriminate | intros (rest & H)]. injection H as H _. congruence.
Qed.

(** The options [loginWithKey] passes to [logOn]: a key that starts with
    [eyJ] or [eyA] goes as the refresh token and alone, any other key as the
    login key beside the account name. *)
Lemma key_options_spelled (username key : string) :
  ((exists rest, key = "eyJ" +:+ rest \/ key = "eyA" +:+ rest) ->
   key_options username key
   = {| o_accountName := None; o_password := None; o_loginKey := None;
        o_refreshToken := Some key; o_machineAuthToken := None;
        o_shaSentryfile := None; o_twoFactorCode := None |}) /\
  ((forall rest, key <> "eyJ" +:+ rest /\ key <> "eyA" +:+ rest) ->
   key_options username key
   = {| o_accountName := Some username; o_password := None; o_loginKey := Some key;
        o_refreshToken := None; o_machineAuthToken := None;
        o_shaSentryfile := None; o_twoFactorCode := None |}).
Proof.
  unfold key_options. split.
  - intros (rest & [H | H]).
    + assert (E : String.prefix "eyJ" key = true) by (apply prefix_starts; eauto).
      now rewrite E.
    + assert (E : String.prefix "eyA" key = true) by (apply prefix_starts; eauto).
      rewrite E. now rewrite orb_true_r.
  - intros H.
    destruct (String.prefix "eyJ" key) eqn:E1.
    { apply prefix_starts in E1 as (rest & E1). now destruct (H rest). }
    destruct (String.prefix "eyA" key) eqn:E2.
    { apply prefix_starts in E2 as (rest & E2). now destruct (H rest). }
    reflexivity.
Qed.

(** C5. When [login] finds a persisted key and the login attempted with it
    fails (the client emits 'error' while the call is pending), the call
    has made one [logOn] call, with the key and without a password: a key
    that starts with [eyJ] or [eyA] as the refresh token, any other as the
    login key beside the account name.  As long as the event leaves the
    count of the watchdog below five, the key file is gone afterwards and
    the promise of the call is rejected with the error of the client
    itself, an [Error] with the same message when the client emitted
    something else.  At the fifth event in a row the process exits with
    code 1 before the listener of the call runs: the key file stays and
    the promise is not settled. *)
Theorem key_login_failure_deletes_key_and_rejects
  (s : State) (username password : string) (secret : option string)
  (key : string) (e : exn) :
  loadLoginKey (this s) (disk s) = Some key ->
  let refresh :=
    {| o_accountName := None; o_password := None; o_loginKey := None;
       o_refreshToken := Some key; o_machineAuthToken := None;
       o_shaSentryfile := None; o_twoFactorCode := None |} in
  let keyed :=
    {| o_accountName := Some username; o_password := None; o_loginKey := Some key;
       o_refreshToken := None; o_machineAuthToken := None;
       o_shaSentryfile := None; o_twoFactorCode := None |} in
  let message := match e with Error m => m | NonError rendering => rendering end in
  exists options,
    ((exists rest, key = "eyJ" +:+ rest \/ key = "eyA" +:+ rest) -> options = refresh) /\
    ((forall rest, key <> "eyJ" +:+ rest /\ key <> "eyA" +:+ rest) -> options = keyed) /\
    (S (disconnectCount s) < 5 ->
     exists s',
       run (Running s) [Login username password secret; error e] = Running s' /\
       this s' = this s /\
       files (disk s') !! loginKeyPath (this s) = None /\
       logins s' !! length (logins s) = Some (Rejected (Error message)) /\
       logOnCalls s' = logOnCalls s ++ [options]) /\
    (5 <= S (disconnectCount s) ->
     exists s',
       run (Running s) [Login username password secret; error e] = Exited 1 s' /\
       this s' = this s /\
       files (disk s') !! loginKeyPath (this s) = files (disk s) !! loginKeyPath (this s) /\
       logins s' !! length (logins s) = Some Pending /\
       logOnCalls s' = logOnCalls s ++ [options]).
Proof.
  intros Hkey refresh keyed message.
  exists (key_options username key).
  destruct (key_options_spelled username key) as [Hrefresh Hkeyed].
  split; [exact Hrefresh |]. split; [exact Hkeyed |]. split.
  - intros Hcount.
    destruct (key_login_failure_step s username password secret key e Hkey Hcount)
      as (s' & Hrun & Hthis & Hgone & _ & Hlogin & Hcalls & _).
    exists s'. split; [exact Hrun |]. split; [exact Hthis |]. split; [| split].
    + rewrite Hthis in Hgone. unfold access in Hgone.
      now destruct (files (disk s') !! loginKeyPath (this s)).
    + rewrite Hlogin. unfold as_Error, message. now destruct e.
    + exact Hcalls.
  - intros Hcount.
    destruct (key_login_failure_exit s username password secret key e Hkey Hcount)
      as (s' & Hrun & Hthis & Hdisk & Hlogin & Hcalls).
    exists s'. split; [exact Hrun |]. split; [exact Hthis |]. split; [| split].
    + now rewrite Hdisk.
    + exact Hlogin.
    + exact Hcalls.
Qed.

Lemma key_login_failure_deletes_key_and_rejects_witness :
  exists s',
    run (Running sample_auth)
        [Login "deepscope" "hunter2" None; error (NonError "InvalidPassword")]
      = Running s' /\
    files (disk s') !! ("/srv/app", "loginKey_deepscope.txt") = None /\
    logins s' !! 0 = Some (Rejected (Error "InvalidPassword")) /\
    logOnCalls s'
    = [{| o_accountName := None; o_password := None; o_loginKey := None;
          o_refreshToken := Some "eyJhbGciOiJFZERTQSJ9.e30.c2ln";
          o_machineAuthToken := None; o_shaSentryfile := None;
          o_twoFactorCode := None |}].
Proof.
  destruct (key_login_failure_deletes_key_and_rejects sample_auth "deepscope" "hunter2" None
              "eyJhbGciOiJFZERTQSJ9.e30.c2ln" (NonError "InvalidPassword"))
    as (options & Hrefresh & _ & Hbelow & _).
  - vm_compute. reflexivity.
  - destruct Hbelow as (s' & Hrun & _ & Hgone & Hlogin & Hcalls).
    + vm_compute. lia.
    + exists s'. split; [exact Hrun |]. split; [exact Hgone |]. split; [exact Hlogin |].
      rewrite Hcalls, Hrefresh; [reflexivity |].
      exists "hbGciOiJFZERTQSJ9.e30.c2ln". now left.
Defined.

(** C5, as the claim has it, fails: when the failure of the key login is
    the fifth 'error' or 'disconnected' event in a row, the process exits
    with the key file still in place and the promise of the call pending;
    nothing is returned to the caller. *)
Lemma key_login_failure_at_the_fifth_event :
  exists s,
    run (Running sample_auth)
        [disconnected 6; disconnected 6; disconnected 6; disconnected 6;
         Login "deepscope" "hunter2" None; error (Error "InvalidPassword")]
      = Exited 1 s /\
    files (disk s) !! ("/srv/app", "loginKey_deepscope.txt")
      = Some "eyJhbGciOiJFZERTQSJ9.e30.c2ln" /\
    logins s = [Pending].
Proof. eexists. vm_compute. repeat split. Qed.

(** The rejection of a key login carries nothing that tells it from the
    rejection of a password login: both are the error of the client. *)
Example key_and_password_failures_reject_alike :
  let failed auth :=
    match run (Running auth) [Login "deepscope" "hunter2" None; error (Error "RateLimitExceeded")] with
    | Running s => logins s
    | Exited _ s => logins s
    end in
  failed sample_auth = [Rejected (Error "RateLimitExceeded")] /\
  failed (constructed sample_fields (fun _ => "2F9J5") "2024-01-01T00:00:00.000Z" empty_disk)
  = [Rejected (Error "RateLimitExceeded")].
Proof. vm_compute. split; reflexivity. Qed.

(** The next call of [login] after such a failure takes the password path. *)
Example login_after_failed_key_login :
  match run (Running sample_auth)
            [Login "deepscope" "hunter2" None; error (Error "InvalidPassword");
             Login "deepscope" "hunter2" None] with
  | Running s => map o_password (logOnCalls s) = [None; Some "hunter2"] /\
                 map o_refreshToken (logOnCalls s)
                 = [Some "eyJhbGciOiJFZERTQSJ9.e30.c2ln"; None]
  | Exited _ _ => False
  end.
Proof. vm_compute. split; reflexivity. Qed.

End KeyLogin.

(** ** The profile route *)

Section ProfileRoute.
Import JS APIServer.

Lemma fetch_is_made (env : Surroundings) (req : Request) :
  ENABLE_FILE_CACHE env <> Some "true" \/ truthy (loadProfileFromFile env) = false \/
  force req = Some "true" ->
  served_from_cache env req = false.
Proof.
  unfold served_from_cache. intros H.
  destruct (ENABLE_FILE_CACHE env) as [flag |]; [| reflexivity].
  destruct (String.eqb_spec flag "true") as [-> | _]; [| reflexivity].
  destruct H as [H | [H | H]].
  - congruence.
  - now rewrite H.
  - rewrite H. cbn. apply andb_false_r.
Qed.

(** C9. The profile route answers a malformed identifier with status 400,
    a well-formed identifier while the coordinator is not ready with status
    503, and, when the fetch it then makes is rejected, status 500 with a
    body that carries the message of the error: the message of an [Error],
    and the rendering as a string of anything else. *)
Theorem profile_route_statuses :
  (forall env req,
     test_17_digits (steamId64 req) = false ->
     profile_route env req
     = Some {| status := 400;
               body := error_body "Invalid Steam ID 64 format. Must be 17 digits." None |}) /\
  (forall env req,
     test_17_digits (steamId64 req) = true ->
     isGcReady env = false ->
     profile_route env req
     = Some {| status := 503;
               body := error_body "Game Coordinator not ready. Please wait for connection." None |}) /\
  (forall env req message,
     test_17_digits (steamId64 req) = true ->
     isGcReady env = true ->
     ENABLE_FILE_CACHE env <> Some "true" \/ truthy (loadProfileFromFile env) = false \/
     force req = Some "true" ->
     fetchProfile env = ProfileFetcher.Rejected (Error message) \/
     fetchProfile env = ProfileFetcher.Rejected (NonError message) ->
     profile_route env req
     = Some {| status := 500;
               body := error_body "Failed to fetch player profile" (Some message) |}).
Proof.
  repeat split.
  - intros env req Hid. unfold profile_route. now rewrite Hid.
  - intros env req Hid Hgc. unfold profile_route. now rewrite Hid, Hgc.
  - intros env req message Hid Hgc Hcache Hfetch. unfold profile_route.
    rewrite Hid, Hgc, (fetch_is_made env req Hcache).
    now destruct Hfetch as [-> | ->].
Qed.

Lemma profile_route_statuses_witness :
  let env ready outcome :=
    {| isGcReady := ready; ENABLE_FILE_CACHE := Some "true";
       loadProfileFromFile := Some (VObj [("steamId64", VStr "76561199441016438")]);
       fetchProfile := outcome |} in
  profile_route (env true ProfileFetcher.Pending)
    {| steamId64 := "7656119944101643"; force := None |}
  = Some {| status := 400;
            body := error_body "Invalid Steam ID 64 format. Must be 17 digits." None |} /\
  profile_route (env false ProfileFetcher.Pending)
    {| steamId64 := "76561199441016438"; force := None |}
  = Some {| status := 503;
            body := error_body "Game Coordinator not ready. Please wait for connection." None |} /\
  profile_route
    (env true (ProfileFetcher.Rejected
                 (Error "Timeout waiting for profile response for 76561199441016438")))
    {| steamId64 := "76561199441016438"; force := Some "true" |}
  = Some {| status := 500;
            body := error_body "Failed to fetch player profile"
                      (Some "Timeout waiting for profile response for 76561199441016438") |} /\
  profile_route
    {| isGcReady := true; ENABLE_FILE_CACHE := None; loadProfileFromFile := None;
       fetchProfile := ProfileFetcher.Rejected (NonError "ECONNRESET") |}
    {| steamId64 := "76561199441016438"; force := None |}
  = Some {| status := 500;
            body := error_body "Failed to fetch player profile" (Some "ECONNRESET") |}.
Proof.
  intros env.
  destruct profile_route_statuses as (Hbad & Hnotready & Hfailed).
  split; [| split; [| split]].
  - apply Hbad. reflexivity.
  - apply Hnotready; reflexivity.
  - apply Hfailed; [reflexivity | reflexivity | | ].
    + right. right. reflexivity.
    + left. reflexivity.
  - apply Hfailed; [reflexivity | reflexivity | | ].
    + left. discriminate.
    + right. reflexivity.
Defined.

Example profile_route_timeout :
  profile_route
    {| isGcReady := true; ENABLE_FILE_CACHE := None; loadProfileFromFile := None;
       fetchProfile := ProfileFetcher.Rejected
                         (Error "Timeout waiting for profile response for 76561199441016438") |}
    {| steamId64 := "76561199441016438"; force := None |}
  = Some {| status := 500;
            body := error_body "Failed to fetch player profile"
                      (Some "Timeout waiting for profile response for 76561199441016438") |}.
Proof. reflexivity. Qed.

(** The route over the other components: the coordinator is ready, the
    request is sent and stays without a response. *)
Example profile_route_after_timeout :
  let ready := GCConnection.isGcReady
                 (GCConnection.run GCConnection.constructed [GCConnection.connectedToGC]) in
  let w := ProfileFetcher.run (ProfileFetcher.init false None "")
             [ProfileFetcher.Call "76561199441016438" ProfileFetcher.MethodReturns;
              ProfileFetcher.Advance 30000] in
  match ProfileFetcher.promise_of 0 w with
  | Some outcome =>
      profile_route
        {| isGcReady := ready; ENABLE_FILE_CACHE := None; loadProfileFromFile := None;
           fetchProfile := outcome |}
        {| steamId64 := "76561199441016438"; force := None |}
      = Some {| status := 500;
                body := error_body "Failed to fetch player profile"
                          (Some "Timeout waiting for profile response for 76561199441016438") |}
  | None => False
  end.
Proof. vm_compute. reflexivity. Qed.

Example profile_route_malformed_while_not_ready :
  profile_route
    {| isGcReady := false; ENABLE_FILE_CACHE := None; loadProfileFromFile := None;
       fetchProfile := ProfileFetcher.Pending |}
    {| steamId64 := "abc"; force := None |}
  = Some {| status := 400;
            body := error_body "Invalid Steam ID 64 format. Must be 17 digits." None |}.
Proof. reflexivity. Qed.

End ProfileRoute.

(** ** The machine auth token through its file *)

Section TokenFile.
Import JS JSON FS SteamAuth TokenText Samples.

Lemma append_cons (x : ascii) (a b : string) : String x a +:+ b = String x (a +:+ b).
Proof. reflexivity. Qed.

Lemma append_assoc (a b c : string) : (a +:+ b) +:+ c = a +:+ (b +:+ c).
Proof.
  induction a as [| x a IH]; [reflexivity |].
  now rewrite !append_cons, IH.
Qed.

Lemma length_append (a b : string) :
  String.length (a +:+ b) = String.length a + String.length b.
Proof.
  induction a as [| x a IH]; [reflexivity |].
  rewrite append_cons. simpl. now rewrite IH.
Qed.

(** Reading back one quoted character. *)
Lemma parse_quote_char (c : ascii) (rest : string) :
  parse_string_body (quote_char c +:+ rest) = prepend c (parse_string_body rest).
Proof.
  destruct c as [[] [] [] [] [] [] [] []]; reflexivity.
Qed.

Lemma parse_quote_body (s rest : string) :
  parse_string_body (quote_body s +:+ String dquote rest) = Some (s, rest).
Proof.
  induction s as [| c s IH]; [reflexivity |].
  cbn [quote_body]. rewrite append_assoc, parse_quote_char, IH. reflexivity.
Qed.

Lemma append_nil_l (a : string) : "" +:+ a = a.
Proof. reflexivity. Qed.

Lemma quote_append (s rest : string) :
  quote s +:+ rest = String dquote (quote_body s +:+ String dquote rest).
Proof. unfold quote. now rewrite append_cons, append_assoc. Qed.

Lemma skip_ws_space (c : ascii) (s : string) :
  is_ws c = true -> skip_ws (String c s) = skip_ws s.
Proof. intros H. cbn [skip_ws]. now rewrite H. Qed.

Lemma skip_ws_stop (c : ascii) (s : string) :
  is_ws c = false -> skip_ws (String c s) = String c s.
Proof. intros H. cbn [skip_ws]. now rewrite H. Qed.

Lemma parse_value_unfold (fuel : nat) (s : string) :
  parse_value (S fuel) s =
  match skip_ws s with
  | "" => None
  | String c rest as s' =>
      let n := nat_of_ascii c in
      if (n =? 34)%nat then
        match parse_string_body rest with
        | Some (str, rest') => Some (VStr str, rest')
        | None => None
        end
      else if (n =? 123)%nat then
        match skip_ws rest with
        | String d rest' =>
            if (nat_of_ascii d =? 125)%nat then Some (VObj [], rest')
            else parse_members fuel [] (String d rest')
        | "" => None
        end
      else if (n =? 91)%nat then
        match skip_ws rest with
        | String d rest' =>
            if (nat_of_ascii d =? 93)%nat then Some (VArr [], rest')
            else parse_elements fuel [] (String d rest')
        | "" => None
        end
      else if (n =? 110)%nat then
        match strip_prefix "null" s' with
        | Some rest' => Some (VNull, rest')
        | None => None
        end
      else if (n =? 116)%nat then
        match strip_prefix "true" s' with
        | Some rest' => Some (VBool true, rest')
        | None => None
        end
      else if (n =? 102)%nat then
        match strip_prefix "false" s' with
        | Some rest' => Some (VBool false, rest')
        | None => None
        end
      else
        match parse_number s' with
        | Some (z, rest') => Some (VNum z, rest')
        | None => None
        end
  end.
Proof. reflexivity. Qed.

Lemma parse_members_unfold (fuel : nat) (acc : list (string * value)) (s : string) :
  parse_members (S fuel) acc s =
  match skip_ws s with
  | String q rest =>
      if (nat_of_ascii q =? 34)%nat then
        match parse_string_body rest with
        | Some (key, rest) =>
            match skip_ws rest with
            | String colon rest =>
                if (nat_of_ascii colon =? 58)%nat then
                  match parse_value fuel rest with
                  | Some (v, rest) =>
                      match skip_ws rest with
                      | String c rest' =>
                          if (nat_of_ascii c =? 44)%nat
                          then parse_members fuel (set_field key v acc) rest'
                          else if (nat_of_ascii c =? 125)%nat
                          then Some (VObj (set_field key v acc), rest')
                          else None
                      | "" => None
                      end
                  | None => None
                  end
                else None
            | "" => None
            end
        | None => None
        end
      else None
  | "" => None
  end.
Proof. reflexivity. Qed.

Lemma parse_value_quoted (fuel : nat) (s rest : string) :
  parse_value (S fuel) (String " " (String dquote (quote_body s +:+ String dquote rest)))
  = Some (VStr s, rest).
Proof.
  rewrite parse_value_unfold.
  rewrite skip_ws_space, skip_ws_stop by reflexivity.
  cbv zeta. change (nat_of_ascii dquote =? 34)%nat with true. cbv iota.
  now rewrite parse_quote_body.
Qed.

Lemma parse_member (fuel : nat) (acc : list (string * value)) (key val rest : string) :
  parse_members (S (S fuel)) acc (member_text key val rest) =
  match skip_ws rest with
  | String c rest' =>
      if (nat_of_ascii c =? 44)%nat
      then parse_members (S fuel) (set_field key (VStr val) acc) rest'
      else if (nat_of_ascii c =? 125)%nat
      then Some (VObj (set_field key (VStr val) acc), rest')
      else None
  | "" => None
  end.
Proof.
  unfold member_text. rewrite parse_members_unfold.
  rewrite !skip_ws_space, skip_ws_stop by reflexivity.
  change (nat_of_ascii dquote =? 34)%nat with true. cbv iota.
  rewrite parse_quote_body.
  rewrite skip_ws_stop by reflexivity.
  change (nat_of_ascii ":" =? 58)%nat with true. cbv iota.
  now rewrite parse_value_quoted.
Qed.

(** [JSON.stringify(..., null, 2)] of the structured token, spelled out. *)
Lemma stringify_2_structured (token account date : string) :
  stringify_2 (structured (VStr token) account date) =
  String "{"
    (member_text "token" token (String ","
       (member_text "accountName" account (String ","
          (member_text "savedAt" date (String newline "}")))))).
Proof.
  unfold stringify_2, structured, member_text.
  cbn [serialize map join String.eqb Ascii.eqb Bool.eqb].
  rewrite !append_assoc, !quote_append.
  repeat (rewrite append_cons || rewrite append_nil_l || rewrite quote_append
          || rewrite append_assoc).
  reflexivity.
Qed.

Lemma parse_members_indent (fuel : nat) (acc : list (string * value)) (s : string) :
  parse_members fuel acc (String dquote s)
  = parse_members fuel acc (String newline (String " " (String " " (String dquote s)))).
Proof.
  destruct fuel as [| fuel]; [reflexivity |].
  rewrite !parse_members_unfold.
  rewrite (skip_ws_space newline) by reflexivity.
  now rewrite 2!(skip_ws_space " ") by reflexivity.
Qed.

Lemma parse_object (fuel : nat) (key val rest : string) :
  parse_value (S fuel) (String "{" (member_text key val rest))
  = parse_members fuel [] (member_text key val rest).
Proof.
  rewrite parse_value_unfold. rewrite skip_ws_stop by reflexivity.
  cbv zeta. change (nat_of_ascii "{" =? 34)%nat with false.
  change (nat_of_ascii "{" =? 123)%nat with true. cbv iota.
  unfold member_text.
  rewrite !skip_ws_space, skip_ws_stop by reflexivity.
  change (nat_of_ascii dquote =? 125)%nat with false. cbv iota.
  apply parse_members_indent.
Qed.

(** The structured token reads back as written. *)
Lemma parse_stringify_2_structured (token account date : string) :
  JSON.parse (stringify_2 (structured (VStr token) account date))
  = Some (structured (VStr token) account date).
Proof.
  rewrite stringify_2_structured. unfold JSON.parse.
  set (text := member_text "token" token _).
  assert (Hfuel : exists fuel, String.length (String "{" text) = 4 + fuel).
  { unfold text, member_text. cbn [String.length]. eexists. reflexivity. }
  destruct Hfuel as (fuel & ->).
  change (S (4 + fuel)) with (S (S (S (S (S fuel))))).
  unfold text. rewrite parse_object.
  rewrite parse_member. rewrite skip_ws_stop by reflexivity.
  change (nat_of_ascii "," =? 44)%nat with true. cbv iota.
  rewrite parse_member. rewrite skip_ws_stop by reflexivity.
  change (nat_of_ascii "," =? 44)%nat with true. cbv iota.
  rewrite parse_member. rewrite skip_ws_space, skip_ws_stop by reflexivity.
  change (nat_of_ascii "}" =? 44)%nat with false.
  change (nat_of_ascii "}" =? 125)%nat with true. cbv iota.
  reflexivity.
Qed.

Lemma writeFile_after_mkdir (p : path) (text : string) (fs : FS) :
  exists fs',
    writeFile p text (if access_dir (dirname p) fs then fs else mkdir (dirname p) fs) = Some fs' /\
    files fs' !! p = Some text.
Proof.
  unfold writeFile.
  destruct (access_dir (dirname p) fs) eqn:E.
  - rewrite E. eexists. split; [reflexivity |]. cbn [files]. apply lookup_insert_eq.
  - assert (H : access_dir (dirname p) (mkdir (dirname p) fs) = true).
    { unfold access_dir, mkdir. cbn [dirs]. apply bool_decide_eq_true. set_solver. }
    rewrite H. eexists. split; [reflexivity |]. cbn [files]. apply lookup_insert_eq.
Qed.

(** C6, as the code has it.  Saving a non-empty machine auth token given as
    a bare string succeeds and writes the structured artifact (token,
    account name, time of saving) to the token file; loading the token
    afterwards gives back the string itself. *)
Theorem token_saved_structured_loaded_bare
  (fields : Fields) (date : string) (fs : FS) (token : string) :
  token <> "" ->
  let saved := saveSessionData fields date (tokenPath fields) (Plain (VStr token)) fs in
  snd saved = true /\
  (JSON.parse <$> readFile (tokenPath fields) (fst saved))
    = Some (Some (structured (VStr token) (accountName fields) date)) /\
  loadMachineAuthToken fields (fst saved) = VStr token.
Proof.
  intros Hne saved.
  assert (Htruthy : truthy (Some (VStr token)) = true).
  { simpl. apply negb_true_iff. now apply String.eqb_neq. }
  assert (Htext : token_text fields date (Plain (VStr token))
                  = stringify_2 (structured (VStr token) (accountName fields) date)).
  { unfold token_text. now rewrite Htruthy. }
  destruct (writeFile_after_mkdir (tokenPath fields)
              (stringify_2 (structured (VStr token) (accountName fields) date)) fs)
    as (fs' & Hwrite & Hfile).
  assert (Hsaved : saved = (fs', true)).
  { unfold saved, saveSessionData.
    rewrite bool_decide_eq_true_2 by reflexivity. rewrite Htext, Hwrite.
    unfold access. now rewrite Hfile. }
  rewrite Hsaved. cbn [fst snd]. split; [reflexivity |].
  unfold loadMachineAuthToken, readFile, access. rewrite Hfile.
  unfold fmap, option_fmap, option_map.
  rewrite parse_stringify_2_structured. split; reflexivity.
Qed.

Lemma token_saved_structured_loaded_bare_witness :
  let saved := saveSessionData sample_fields "2024-01-01T00:00:00.000Z"
                 (tokenPath sample_fields) (Plain (VStr "8f3a-machine-token")) empty_disk in
  snd saved = true /\
  (JSON.parse <$> readFile (tokenPath sample_fields) (fst saved))
    = Some (Some (structured (VStr "8f3a-machine-token") (accountName sample_fields)
                    "2024-01-01T00:00:00.000Z")) /\
  loadMachineAuthToken sample_fields (fst saved) = VStr "8f3a-machine-token".
Proof.
  apply (token_saved_structured_loaded_bare sample_fields "2024-01-01T00:00:00.000Z"
           empty_disk "8f3a-machine-token").
  discriminate.
Defined.

(** C6, as the claim has it, fails: what loading yields after a bare string
    was saved is that string, not an object with a [token] field. *)
Lemma loaded_token_is_not_structured :
  let saved := saveSessionData sample_fields "2024-01-01T00:00:00.000Z"
                 (tokenPath sample_fields) (Plain (VStr "8f3a-machine-token")) empty_disk in
  snd saved = true /\
  ~ (exists artifact,
       loadMachineAuthToken sample_fields (fst saved) = VObj artifact /\
       assoc "token" artifact = Some (VStr "8f3a-machine-token")).
Proof.
  split; [vm_compute; reflexivity |].
  intros (artifact & Hload & _). vm_compute in Hload. discriminate Hload.
Qed.

Example token_file_text :
  readFile (tokenPath sample_fields)
    (fst (saveSessionData sample_fields "2024-01-01T00:00:00.000Z"
            (tokenPath sample_fields) (Plain (VStr "8f3a")) empty_disk))
  = Some (String "{" (member_text "token" "8f3a" (String ","
            (member_text "accountName" "deepscope" (String ","
               (member_text "savedAt" "2024-01-01T00:00:00.000Z" (String newline "}"))))))).
Proof. vm_compute. reflexivity. Qed.

End TokenFile.

(** ** Reading back what [JSON.stringify] wrote *)

Section JSONRoundTrip.
Import JS JSON JSONLayout.

Lemma value_nested_ind (P : value -> Prop) :
  P VNull -> (forall b, P (VBool b)) -> (forall n, P (VNum n)) -> (forall s, P (VStr s)) ->
  (forall items, Forall P items -> P (VArr items)) ->
  (forall fields, Forall (fun kv => P (snd kv)) fields -> P (VObj fields)) ->
  forall v, P v.
Proof.
  intros Hnull Hbool Hnum Hstr Harr Hobj.
  fix IH 1. intros [| b | n | s | items | fields].
  - exact Hnull.
  - apply Hbool.
  - apply Hnum.
  - apply Hstr.
  - apply Harr. induction items as [| x xs IHxs]; constructor; [apply IH | exact IHxs].
  - apply Hobj. induction fields as [| [k x] fs IHfs]; constructor; [apply IH | exact IHfs].
Qed.

Lemma append_nil_r (a : string) : a +:+ "" = a.
Proof. induction a as [| c a IH]; [reflexivity |]. now rewrite append_cons, IH. Qed.

Lemma skip_ws_blank (b s : string) : blank b = true -> skip_ws (b +:+ s) = skip_ws s.
Proof.
  induction b as [| c b IH]; [reflexivity |].
  cbn [blank]. intros [Hc Hb]%andb_true_iff.
  rewrite append_cons, skip_ws_space by exact Hc. now apply IH.
Qed.

Lemma parse_value_blank (fuel : nat) (b s : string) :
  blank b = true -> parse_value fuel (b +:+ s) = parse_value fuel s.
Proof.
  intros Hb. destruct fuel as [| fuel]; [reflexivity |].
  rewrite !parse_value_unfold. now rewrite skip_ws_blank.
Qed.

Lemma parse_elements_unfold (fuel : nat) (acc : list value) (s : string) :
  parse_elements (S fuel) acc s =
  match parse_value fuel s with
  | Some (v, rest) =>
      match skip_ws rest with
      | String c rest' =>
          if (nat_of_ascii c =? 44)%nat then parse_elements fuel (v :: acc) rest'
          else if (nat_of_ascii c =? 93)%nat then Some (VArr (rev (v :: acc)), rest')
          else None
      | "" => None
      end
  | None => None
  end.
Proof. reflexivity. Qed.

Lemma parse_elements_blank (fuel : nat) (acc : list value) (b s : string) :
  blank b = true -> parse_elements fuel acc (b +:+ s) = parse_elements fuel acc s.
Proof.
  intros Hb. destruct fuel as [| fuel]; [reflexivity |].
  rewrite !parse_elements_unfold. now rewrite parse_value_blank.
Qed.

Lemma parse_members_blank (fuel : nat) (acc : list (string * value)) (b s : string) :
  blank b = true -> parse_members fuel acc (b +:+ s) = parse_members fuel acc s.
Proof.
  intros Hb. destruct fuel as [| fuel]; [reflexivity |].
  rewrite !parse_members_unfold. now rewrite skip_ws_blank.
Qed.

(** *** Numbers *)

Lemma parse_digits_text (d : Decimal.uint) (acc : Z) (rest : string) :
  parse_digits acc (NilEmpty.string_of_uint d +:+ rest) = parse_digits (digits_value d acc) rest.
Proof.
  revert acc. induction d; intros acc; cbn [NilEmpty.string_of_uint digits_value];
    try reflexivity; rewrite append_cons; cbn [parse_digits]; apply IHd.
Qed.

Lemma digits_value_acc (d : Decimal.uint) (p : positive) :
  digits_value d (Z.pos p) = Z.pos (Pos.of_uint_acc d p).
Proof.
  revert p. induction d; intros p; cbn [digits_value Pos.of_uint_acc];
    try reflexivity; rewrite <- IHd; f_equal; lia.
Qed.

Lemma digits_value_of_uint (d : Decimal.uint) : digits_value d 0 = Z.of_N (Pos.of_uint d).
Proof.
  induction d; cbn [digits_value Pos.of_uint Z.of_N];
    [reflexivity | exact IHd | apply (digits_value_acc d) ..].
Qed.

Lemma parse_digits_stop (acc : Z) (rest : string) :
  ends_number rest = true -> parse_digits acc rest = (acc, rest).
Proof.
  destruct rest as [| c rest]; [reflexivity |].
  cbn [ends_number parse_digits]. intros [Hc _]%andb_true_iff.
  apply negb_true_iff in Hc. now rewrite Hc.
Qed.

Lemma string_of_uint_head (d : Decimal.uint) :
  d <> Decimal.Nil ->
  exists c s, NilEmpty.string_of_uint d = String c s /\ is_digit c = true.
Proof.
  destruct d; [congruence | ..]; intros _; cbn [NilEmpty.string_of_uint];
    eexists _, _; (split; [reflexivity | reflexivity]).
Qed.

Lemma nzhead_head (d d' : Decimal.uint) : Decimal.nzhead d <> Decimal.D0 d'.
Proof. induction d; cbn [Decimal.nzhead]; (discriminate || exact IHd). Qed.

Lemma to_uint_head (p : positive) (d' : Decimal.uint) : Pos.to_uint p <> Decimal.D0 d'.
Proof.
  pose proof (DecimalPos.Unsigned.to_of (Pos.to_uint p)) as H.
  rewrite DecimalPos.Unsigned.of_to in H. cbn [N.to_uint] in H.
  unfold Decimal.unorm in H.
  pose proof (nzhead_head (Pos.to_uint p)) as Hhead.
  destruct (Decimal.nzhead (Pos.to_uint p)) eqn:E;
    [exfalso; now apply (DecimalPos.Unsigned.to_uint_nonzero p)
    | exfalso; now apply (Hhead u)
    | rewrite H; discriminate ..].
Qed.

Lemma string_of_uint_first (d : Decimal.uint) :
  d <> Decimal.Nil -> (forall d', d <> Decimal.D0 d') ->
  exists c s, NilEmpty.string_of_uint d = String c s /\ is_digit c = true /\
              (nat_of_ascii c =? 48)%nat = false.
Proof.
  destruct d; [congruence | intros _ H; now destruct (H d) | ..]; intros _ _;
    cbn [NilEmpty.string_of_uint]; eexists _, _; repeat split.
Qed.

Lemma parse_unsigned (p : positive) (rest : string) :
  ends_number rest = true ->
  exists c s,
    NilZero.string_of_uint (Pos.to_uint p) +:+ rest = String c s /\ is_digit c = true /\
    leading_zero (String c s) = false /\
    parse_digits 0 (String c s) = (Z.pos p, rest).
Proof.
  intros Hrest.
  pose proof (DecimalPos.Unsigned.to_uint_nonnil p) as Hnil.
  assert (Hz : NilZero.string_of_uint (Pos.to_uint p) = NilEmpty.string_of_uint (Pos.to_uint p)).
  { unfold NilZero.string_of_uint. destruct (Pos.to_uint p); congruence. }
  destruct (string_of_uint_first _ Hnil (to_uint_head p)) as (c & s & Hcs & Hc & Hzero).
  exists c, (s +:+ rest). rewrite Hz. split; [now rewrite Hcs |]. split; [exact Hc |].
  split.
  { unfold leading_zero. rewrite Hzero. now destruct (s +:+ rest). }
  rewrite <- append_cons, <- Hcs, parse_digits_text, parse_digits_stop by exact Hrest.
  now rewrite digits_value_of_uint, DecimalPos.Unsigned.of_to.
Qed.

Lemma ends_number_tail (rest : string) (n : Z) :
  ends_number rest = true ->
  match rest with
  | String d _ =>
      if (nat_of_ascii d =? 46)%nat || (nat_of_ascii d =? 101)%nat || (nat_of_ascii d =? 69)%nat
      then None else Some (n, rest)
  | "" => Some (n, rest)
  end = Some (n, rest).
Proof.
  destruct rest as [| d rest]; [reflexivity |].
  cbn [ends_number]. intros [_ Hd]%andb_true_iff. apply negb_true_iff in Hd. now rewrite Hd.
Qed.

Lemma zero_alone (rest : string) :
  ends_number rest = true -> leading_zero (String "0" rest) = false.
Proof.
  destruct rest as [| d rest]; [reflexivity |].
  cbn [ends_number leading_zero]. intros [Hd _]%andb_true_iff.
  apply negb_true_iff in Hd. now rewrite Hd.
Qed.

Lemma parse_number_text (n : Z) (rest : string) :
  ends_number rest = true ->
  parse_number (string_of_Z n +:+ rest) = Some (n, rest).
Proof.
  intros Hrest. unfold string_of_Z. destruct n as [| p | p]; cbn [Z.to_int NilZero.string_of_int].
  - change (NilZero.string_of_uint (Decimal.D0 Decimal.Nil) +:+ rest) with (String "0" rest).
    unfold parse_number.
    change (nat_of_ascii "0" =? 45)%nat with false. cbv iota.
    change (is_digit "0") with true. cbv iota.
    rewrite (zero_alone rest Hrest).
    cbn [parse_digits]. change (is_digit "0") with true. cbv iota.
    rewrite parse_digits_stop by exact Hrest. now apply ends_number_tail.
  - destruct (parse_unsigned p rest Hrest) as (c & s & -> & Hc & Hlead & Hparse).
    unfold parse_number.
    assert (Hminus : (nat_of_ascii c =? 45)%nat = false).
    { revert Hc. unfold is_digit. intros [H1 H2]%andb_true_iff.
      apply Nat.leb_le in H1. apply Nat.eqb_neq. lia. }
    rewrite Hminus, Hc, Hlead, Hparse. now apply ends_number_tail.
  - destruct (parse_unsigned p rest Hrest) as (c & s & Heq & Hc & Hlead & Hparse).
    rewrite append_cons, Heq. unfold parse_number.
    change (nat_of_ascii "-" =? 45)%nat with true. cbv iota.
    rewrite Hc, Hlead, Hparse. now apply (ends_number_tail rest (- Z.pos p)).
Qed.

Lemma string_of_Z_head (n : Z) :
  exists c s, string_of_Z n = String c s /\ (is_digit c = true \/ c = "-"%char).
Proof.
  unfold string_of_Z. destruct n as [| p | p]; cbn [Z.to_int NilZero.string_of_int].
  - eexists _, _. split; [reflexivity | now left].
  - destruct (parse_unsigned p "" eq_refl) as (c & s & Heq & Hc & _ & _).
    rewrite append_nil_r in Heq. eexists _, _. split; [exact Heq | now left].
  - eexists _, _. split; [reflexivity | now right].
Qed.

(** *** The first character of a text decides how it is read *)

Lemma starts_value_not_ws (c : ascii) : starts_value c = true -> is_ws c = false.
Proof. destruct c as [[] [] [] [] [] [] [] []]; (reflexivity || discriminate). Qed.

Lemma starts_value_not_closing (c : ascii) :
  starts_value c = true ->
  (nat_of_ascii c =? 93)%nat = false /\ (nat_of_ascii c =? 125)%nat = false.
Proof. destruct c as [[] [] [] [] [] [] [] []]; (now split) || discriminate. Qed.

Lemma number_head (c : ascii) :
  is_digit c = true \/ c = "-"%char ->
  starts_value c = true /\
  (nat_of_ascii c =? 34)%nat = false /\ (nat_of_ascii c =? 123)%nat = false /\
  (nat_of_ascii c =? 91)%nat = false /\ (nat_of_ascii c =? 110)%nat = false /\
  (nat_of_ascii c =? 116)%nat = false /\ (nat_of_ascii c =? 102)%nat = false.
Proof.
  intros [H | ->]; [| repeat split; reflexivity].
  revert H. destruct c as [[] [] [] [] [] [] [] []]; (discriminate || (intros _; repeat split; reflexivity)).
Qed.

Lemma parse_value_string (fuel : nat) (s : string) :
  parse_value (S fuel) (String dquote s) =
  match parse_string_body s with
  | Some (str, rest') => Some (VStr str, rest')
  | None => None
  end.
Proof. reflexivity. Qed.

Lemma parse_value_array (fuel : nat) (s : string) :
  parse_value (S fuel) (String "[" s) =
  match skip_ws s with
  | String d rest' =>
      if (nat_of_ascii d =? 93)%nat then Some (VArr [], rest')
      else parse_elements fuel [] (String d rest')
  | "" => None
  end.
Proof. reflexivity. Qed.

Lemma parse_value_object (fuel : nat) (s : string) :
  parse_value (S fuel) (String "{" s) =
  match skip_ws s with
  | String d rest' =>
      if (nat_of_ascii d =? 125)%nat then Some (VObj [], rest')
      else parse_members fuel [] (String d rest')
  | "" => None
  end.
Proof. reflexivity. Qed.

Lemma parse_value_number (fuel : nat) (c : ascii) (s : string) :
  is_digit c = true \/ c = "-"%char ->
  parse_value (S fuel) (String c s) =
  match parse_number (String c s) with
  | Some (z, rest') => Some (VNum z, rest')
  | None => None
  end.
Proof.
  intros Hc. destruct (number_head c Hc) as (Hv & H1 & H2 & H3 & H4 & H5 & H6).
  rewrite parse_value_unfold, skip_ws_stop by now apply starts_value_not_ws.
  cbv zeta. now rewrite H1, H2, H3, H4, H5, H6.
Qed.

(** *** The layout of arrays and objects *)

Lemma blank_append (a b : string) : blank (a +:+ b) = blank a && blank b.
Proof.
  induction a as [| c a IH]; [reflexivity |].
  rewrite append_cons. cbn [blank]. now rewrite IH, andb_assoc.
Qed.

Lemma blank_lead (gap indent : string) :
  blank gap = true -> blank indent = true -> blank (lead_of gap indent) = true.
Proof.
  intros Hg Hi. unfold lead_of. destruct (String.eqb gap ""); [reflexivity |].
  cbn [blank]. now rewrite blank_append, Hg, Hi.
Qed.

Lemma blank_trail (gap indent : string) :
  blank indent = true -> blank (trail_of gap indent) = true.
Proof.
  intros Hi. unfold trail_of. destruct (String.eqb gap ""); [reflexivity |].
  cbn [blank]. now rewrite Hi.
Qed.

Lemma join_elements (lead trail : string) (p : string) (ps : list string) (rest : string) :
  join (String "," lead) (p :: ps) +:+ trail +:+ String "]" rest
  = p +:+ elements_text lead trail ps rest.
Proof.
  revert p. induction ps as [| q ps IH]; intros p; [reflexivity |].
  change (join (String "," lead) (p :: q :: ps))
    with (p +:+ String "," lead +:+ join (String "," lead) (q :: ps)).
  rewrite !append_assoc, append_cons, IH. reflexivity.
Qed.

Lemma join_members (lead trail : string) (p : string) (ps : list string) (rest : string) :
  join (String "," lead) (p :: ps) +:+ trail +:+ String "}" rest
  = p +:+ members_text lead trail ps rest.
Proof.
  revert p. induction ps as [| q ps IH]; intros p; [reflexivity |].
  change (join (String "," lead) (p :: q :: ps))
    with (p +:+ String "," lead +:+ join (String "," lead) (q :: ps)).
  rewrite !append_assoc, append_cons, IH. reflexivity.
Qed.

Lemma serialize_array (gap indent : string) (x : value) (xs : list value) (rest : string) :
  serialize gap indent (VArr (x :: xs)) +:+ rest
  = String "[" (lead_of gap indent +:+ serialize gap (indent +:+ gap) x
                 +:+ elements_text (lead_of gap indent) (trail_of gap indent)
                       (map (serialize gap (indent +:+ gap)) xs) rest).
Proof.
  change (serialize gap indent (VArr (x :: xs)))
    with (let partial := map (serialize gap (indent +:+ gap)) (x :: xs) in
          if String.eqb gap "" then "[" +:+ join "," partial +:+ "]"
          else "[" +:+ String newline (indent +:+ gap)
                   +:+ join ("," +:+ String newline (indent +:+ gap)) partial
                   +:+ String newline indent +:+ "]").
  cbv zeta. unfold lead_of, trail_of. cbn [map].
  destruct (String.eqb gap "").
  - rewrite !append_assoc, append_cons, !append_nil_l. f_equal.
    exact (join_elements "" "" _ _ rest).
  - rewrite !append_assoc, append_cons, !append_nil_l. f_equal.
    f_equal.
    exact (join_elements (String newline (indent +:+ gap)) (String newline indent) _ _ rest).
Qed.

Lemma serialize_object (gap indent : string) (kv : string * value)
  (fields : list (string * value)) (rest : string) :
  serialize gap indent (VObj (kv :: fields)) +:+ rest
  = String "{" (lead_of gap indent +:+ member gap indent kv
                 +:+ members_text (lead_of gap indent) (trail_of gap indent)
                       (map (member gap indent) fields) rest).
Proof.
  change (serialize gap indent (VObj (kv :: fields)))
    with (let partial :=
            map (fun '(k, x) =>
                   quote k +:+ (if String.eqb gap "" then ":" else ": ")
                           +:+ serialize gap (indent +:+ gap) x) (kv :: fields) in
          if String.eqb gap "" then "{" +:+ join "," partial +:+ "}"
          else "{" +:+ String newline (indent +:+ gap)
                   +:+ join ("," +:+ String newline (indent +:+ gap)) partial
                   +:+ String newline indent +:+ "}").
  cbv zeta.
  rewrite (map_ext _ (member gap indent)) by (intros [k x]; reflexivity).
  unfold lead_of, trail_of. cbn [map].
  destruct (String.eqb gap "").
  - rewrite !append_assoc, append_cons, !append_nil_l. f_equal.
    exact (join_members "" "" _ _ rest).
  - rewrite !append_assoc, append_cons, !append_nil_l. f_equal.
    f_equal.
    exact (join_members (String newline (indent +:+ gap)) (String newline indent) _ _ rest).
Qed.

Lemma serialize_head (gap indent : string) (v : value) :
  exists c s, serialize gap indent v = String c s /\ starts_value c = true.
Proof.
  destruct v as [| [] | n | str | [| x xs] | [| kv fields]];
    try (eexists _, _; split; reflexivity).
  - destruct (string_of_Z_head n) as (c & s & Heq & Hc).
    exists c, s. split; [exact Heq | now apply number_head].
  - pose proof (serialize_array gap indent x xs "") as H. rewrite append_nil_r in H.
    eexists _, _. split; [exact H | reflexivity].
  - pose proof (serialize_object gap indent kv fields "") as H. rewrite append_nil_r in H.
    eexists _, _. split; [exact H | reflexivity].
Qed.

Lemma ends_number_blank (b : string) (c : ascii) (rest : string) :
  blank b = true -> ends_number (String c rest) = true ->
  ends_number (b +:+ String c rest) = true.
Proof.
  destruct b as [| d b]; [now intros |].
  cbn [blank]. intros [Hd _]%andb_true_iff _. rewrite append_cons. cbn [ends_number].
  revert Hd. destruct d as [[] [] [] [] [] [] [] []]; (reflexivity || discriminate).
Qed.

Lemma ends_number_elements (lead trail : string) (ps : list string) (rest : string) :
  blank trail = true -> ends_number (elements_text lead trail ps rest) = true.
Proof.
  intros Ht. destruct ps as [| p ps]; [| reflexivity].
  cbn [elements_text]. now apply ends_number_blank.
Qed.

Lemma ends_number_members (lead trail : string) (ps : list string) (rest : string) :
  blank trail = true -> ends_number (members_text lead trail ps rest) = true.
Proof.
  intros Ht. destruct ps as [| p ps]; [| reflexivity].
  cbn [members_text]. now apply ends_number_blank.
Qed.

(** *** Elements and members *)

Lemma parse_elements_text (gap indent : string) (xs : list value) :
  blank gap = true -> blank indent = true ->
  Forall reads_back xs -> forallb distinct_keys xs = true ->
  forall (x : value) (acc : list value) (fuel : nat) (rest : string),
    reads_back x -> distinct_keys x = true ->
    list_sum (map (fun x => S (weight x)) (x :: xs)) <= fuel ->
    parse_elements fuel acc
      (serialize gap (indent +:+ gap) x
       +:+ elements_text (lead_of gap indent) (trail_of gap indent)
             (map (serialize gap (indent +:+ gap)) xs) rest)
    = Some (VArr (rev acc ++ x :: xs), rest).
Proof.
  intros Hgap Hindent Hxs. 
  assert (Hin : blank (indent +:+ gap) = true) by now rewrite blank_append, Hgap, Hindent.
  induction Hxs as [| y ys Hy Hys IH]; intros Hd x acc fuel rest Hx Hdx Hfuel.
  - unfold list_sum in Hfuel; cbn [map fold_right] in Hfuel. destruct fuel as [| fuel]; [lia |].
    rewrite parse_elements_unfold.
    rewrite Hx; [| assumption | assumption | assumption
                 | now apply ends_number_elements, blank_trail | lia].
    cbn [map elements_text]. rewrite skip_ws_blank by now apply blank_trail.
    rewrite skip_ws_stop by reflexivity.
    change (nat_of_ascii "]" =? 44)%nat with false.
    change (nat_of_ascii "]" =? 93)%nat with true. cbv iota.
    reflexivity.
  - cbn [forallb] in Hd. apply andb_true_iff in Hd as [Hdy Hdys].
    unfold list_sum in Hfuel; cbn [map fold_right] in Hfuel. destruct fuel as [| fuel]; [lia |].
    rewrite parse_elements_unfold.
    rewrite Hx; [| assumption | assumption | assumption
                 | now apply ends_number_elements, blank_trail | lia].
    cbn [map elements_text]. rewrite skip_ws_stop by reflexivity.
    change (nat_of_ascii "," =? 44)%nat with true. cbv iota.
    rewrite parse_elements_blank by now apply blank_lead.
    rewrite (IH Hdys y (x :: acc) fuel rest Hy Hdy); [| unfold list_sum; cbn [map fold_right]; lia].
    cbn [rev]. now rewrite <- app_assoc.
Qed.

Lemma set_field_fresh (k : string) (v : value) (acc : list (string * value)) :
  k ∉ map fst acc -> set_field k v acc = acc ++ [(k, v)].
Proof.
  induction acc as [| [k' v'] acc IH]; [reflexivity |].
  cbn [map fst set_field]. intros [Hk Hacc]%not_elem_of_cons.
  destruct (String.eqb_spec k k') as [-> | _]; [congruence |].
  cbn [app]. now rewrite IH.
Qed.

Lemma fresh_key (k : string) (acc rest : list string) :
  NoDup (acc ++ k :: rest) -> k ∉ acc.
Proof.
  intros (_ & H & _)%NoDup_app Hk. apply (H k Hk). apply elem_of_cons. now left.
Qed.

Lemma parse_members_member (fuel : nat) (acc : list (string * value))
  (gap indent : string) (k : string) (x : value) (tail : string) :
  parse_members (S fuel) acc (member gap indent (k, x) +:+ tail) =
  match parse_value fuel (serialize gap (indent +:+ gap) x +:+ tail) with
  | Some (v, rest) =>
      match skip_ws rest with
      | String c rest' =>
          if (nat_of_ascii c =? 44)%nat
          then parse_members fuel (set_field k v acc) rest'
          else if (nat_of_ascii c =? 125)%nat
          then Some (VObj (set_field k v acc), rest')
          else None
      | "" => None
      end
  | None => None
  end.
Proof.
  unfold member. cbn [fst snd].
  rewrite !append_assoc, quote_append, parse_members_unfold.
  rewrite skip_ws_stop by reflexivity.
  change (nat_of_ascii dquote =? 34)%nat with true. cbv iota.
  rewrite parse_quote_body.
  destruct (String.eqb gap "").
  - rewrite append_cons, append_nil_l, skip_ws_stop by reflexivity.
    change (nat_of_ascii ":" =? 58)%nat with true. cbv iota. reflexivity.
  - rewrite append_cons, skip_ws_stop by reflexivity.
    change (nat_of_ascii ":" =? 58)%nat with true. cbv iota.
    now rewrite (parse_value_blank fuel " ") by reflexivity.
Qed.

Lemma parse_members_text (gap indent : string) (fields : list (string * value)) :
  blank gap = true -> blank indent = true ->
  Forall (fun kv => reads_back (snd kv)) fields ->
  forallb (fun '(_, x) => distinct_keys x) fields = true ->
  forall (k : string) (x : value) (acc : list (string * value)) (fuel : nat) (rest : string),
    reads_back x -> distinct_keys x = true ->
    NoDup (map fst (acc ++ (k, x) :: fields)) ->
    list_sum (map (fun '(_, x) => S (weight x)) ((k, x) :: fields)) <= fuel ->
    parse_members fuel acc
      (member gap indent (k, x)
       +:+ members_text (lead_of gap indent) (trail_of gap indent)
             (map (member gap indent) fields) rest)
    = Some (VObj (acc ++ (k, x) :: fields), rest).
Proof.
  intros Hgap Hindent Hfs.
  assert (Hin : blank (indent +:+ gap) = true) by now rewrite blank_append, Hgap, Hindent.
  induction Hfs as [| [k' y] ys Hy Hys IH]; intros Hd k x acc fuel rest Hx Hdx Hnodup Hfuel.
  - unfold list_sum in Hfuel; cbn [map fold_right] in Hfuel. destruct fuel as [| fuel]; [lia |].
    rewrite parse_members_member.
    rewrite Hx; [| assumption | assumption | assumption
                 | now apply ends_number_members, blank_trail | lia].
    cbn [map members_text]. rewrite skip_ws_blank by now apply blank_trail.
    rewrite skip_ws_stop by reflexivity.
    change (nat_of_ascii "}" =? 44)%nat with false.
    change (nat_of_ascii "}" =? 125)%nat with true. cbv iota.
    rewrite set_field_fresh; [reflexivity |].
    rewrite map_app in Hnodup. now apply fresh_key in Hnodup.
  - cbn [forallb] in Hd. apply andb_true_iff in Hd as [Hdy Hdys].
    unfold list_sum in Hfuel; cbn [map fold_right] in Hfuel. destruct fuel as [| fuel]; [lia |].
    rewrite parse_members_member.
    rewrite Hx; [| assumption | assumption | assumption
                 | now apply ends_number_members, blank_trail | lia].
    cbn [map members_text]. rewrite skip_ws_stop by reflexivity.
    change (nat_of_ascii "," =? 44)%nat with true. cbv iota.
    rewrite parse_members_blank by now apply blank_lead.
    assert (Hfresh : k ∉ map fst acc).
    { rewrite map_app in Hnodup. now apply fresh_key in Hnodup. }
    rewrite set_field_fresh by exact Hfresh.
    cbn [snd] in Hy.
    rewrite (IH Hdys k' y (acc ++ [(k, x)]) fuel rest Hy Hdy);
      [now rewrite <- app_assoc | now rewrite <- app_assoc | unfold list_sum; cbn [map fold_right]; lia].
Qed.

Lemma keys_once_NoDup (ks : list string) : keys_once ks = true -> NoDup ks.
Proof.
  induction ks as [| k ks IH]; [constructor |].
  cbn [keys_once]. intros [Hk Hks]%andb_true_iff. constructor; [| now apply IH].
  apply negb_true_iff in Hk. intros Hin%list_elem_of_In.
  assert (H : existsb (String.eqb k) ks = true).
  { apply existsb_exists. exists k. split; [exact Hin | apply String.eqb_refl]. }
  congruence.
Qed.

(** *** The text of a value is read back as the value *)

Lemma parse_serialize (v : value) : reads_back v.
Proof.
  induction v as [| b | n | s | items IH | fields IH] using value_nested_ind;
    intros gap indent rest fuel Hgap Hindent Hd Hrest Hfuel;
    (destruct fuel as [| fuel]; [cbn [weight] in Hfuel; lia |]).
  - reflexivity.
  - destruct b; reflexivity.
  - cbn [serialize].
    destruct (string_of_Z_head n) as (c & s & Heq & Hc).
    pose proof (parse_number_text n rest Hrest) as Hparse.
    rewrite Heq, append_cons in *.
    now rewrite parse_value_number, Hparse.
  - cbn [serialize]. rewrite quote_append, parse_value_string.
    now rewrite parse_quote_body.
  - destruct items as [| x xs]; [reflexivity |].
    rewrite serialize_array, parse_value_array.
    rewrite skip_ws_blank by now apply blank_lead.
    cbn [distinct_keys forallb] in Hd. apply andb_true_iff in Hd as [Hdx Hdxs].
    apply Forall_cons_1 in IH as [Hx Hxs].
    pose proof (parse_elements_text gap indent xs Hgap Hindent Hxs Hdxs x [] fuel rest Hx Hdx)
      as Hparse.
    destruct (serialize_head gap (indent +:+ gap) x) as (c & s & Heq & Hc).
    rewrite Heq, append_cons in *.
    rewrite skip_ws_stop by now apply starts_value_not_ws.
    destruct (starts_value_not_closing c Hc) as [-> _].
    apply Hparse. cbn [weight] in Hfuel. unfold list_sum in *. lia.
  - destruct fields as [| [k x] fs]; [reflexivity |].
    rewrite serialize_object, parse_value_object.
    rewrite skip_ws_blank by now apply blank_lead.
    cbn [distinct_keys] in Hd. apply andb_true_iff in Hd as [Hkeys Hd].
    cbn [forallb] in Hd. apply andb_true_iff in Hd as [Hdx Hdxs].
    apply Forall_cons_1 in IH as [Hx Hxs]. cbn [snd] in Hx.
    pose proof (parse_members_text gap indent fs Hgap Hindent Hxs Hdxs k x [] fuel rest Hx Hdx)
      as Hparse.
    assert (Hhead : exists s, forall tail,
               member gap indent (k, x) +:+ tail = String dquote (s tail)).
    { eexists (fun tail => _). intros tail. unfold member. cbn [fst snd].
      rewrite !append_assoc, quote_append. reflexivity. }
    destruct Hhead as (s & Hs). rewrite Hs in *.
    rewrite skip_ws_stop by reflexivity.
    change (nat_of_ascii dquote =? 125)%nat with false. cbv iota.
    apply Hparse; [now apply keys_once_NoDup | cbn [weight] in Hfuel; unfold list_sum in *; lia].
Qed.

(** *** The text is long enough for its reading *)

Lemma length_elements_text (lead trail : string) (ps : list string) (rest : string) :
  list_sum (map (fun p => S (String.length p)) ps) + 1
  <= String.length (elements_text lead trail ps rest).
Proof.
  induction ps as [| p ps IH]; cbn [elements_text map].
  - rewrite length_append. cbn [String.length]. unfold list_sum. cbn [fold_right]. lia.
  - cbn [String.length]. rewrite !length_append.
    unfold list_sum in *. cbn [fold_right]. lia.
Qed.

Lemma length_members_text (lead trail : string) (ps : list string) (rest : string) :
  list_sum (map (fun p => S (String.length p)) ps) + 1
  <= String.length (members_text lead trail ps rest).
Proof.
  induction ps as [| p ps IH]; cbn [members_text map].
  - rewrite length_append. cbn [String.length]. unfold list_sum. cbn [fold_right]. lia.
  - cbn [String.length]. rewrite !length_append.
    unfold list_sum in *. cbn [fold_right]. lia.
Qed.

Lemma list_sum_le {A B} (f : A -> nat) (g : B -> nat) (h : A -> B) (xs : list A) :
  Forall (fun x => f x <= g (h x)) xs ->
  list_sum (map f xs) <= list_sum (map g (map h xs)).
Proof.
  induction 1 as [| x xs Hx Hxs IH]; [reflexivity |].
  unfold list_sum in *. cbn [map fold_right]. lia.
Qed.

Lemma length_member (gap indent : string) (k : string) (x : value) :
  String.length (serialize gap (indent +:+ gap) x)
  <= String.length (member gap indent (k, x)).
Proof. unfold member. cbn [fst snd]. rewrite !length_append. lia. Qed.

Lemma weight_le_length (v : value) (gap indent : string) :
  weight v <= String.length (serialize gap indent v).
Proof.
  revert gap indent.
  induction v as [| b | n | s | items IH | fields IH] using value_nested_ind; intros gap indent.
  - cbn. lia.
  - destruct b; cbn; lia.
  - cbn [serialize weight]. destruct (string_of_Z_head n) as (c & s & -> & _).
    cbn [String.length]. lia.
  - cbn [serialize weight]. unfold quote. cbn [String.length]. lia.
  - destruct items as [| x xs]; [cbn; lia |].
    pose proof (serialize_array gap indent x xs "") as H. rewrite append_nil_r in H.
    rewrite H. cbn [String.length weight]. rewrite !length_append.
    apply Forall_cons_1 in IH as [Hx Hxs].
    pose proof (length_elements_text (lead_of gap indent) (trail_of gap indent)
                  (map (serialize gap (indent +:+ gap)) xs) "") as Hlen.
    pose proof (list_sum_le (fun x => S (weight x)) (fun p => S (String.length p))
                  (serialize gap (indent +:+ gap)) xs) as Hsum.
    specialize (Hx gap (indent +:+ gap)).
    assert (Hall : Forall (fun x => S (weight x)
                                    <= S (String.length (serialize gap (indent +:+ gap) x))) xs).
    { eapply Forall_impl; [exact Hxs |]. intros y Hy. cbn beta in Hy. specialize (Hy gap (indent +:+ gap)). lia. }
    specialize (Hsum Hall). unfold list_sum in *. cbn [map fold_right]. lia.
  - destruct fields as [| [k x] fs]; [cbn; lia |].
    pose proof (serialize_object gap indent (k, x) fs "") as H. rewrite append_nil_r in H.
    rewrite H. cbn [String.length weight]. rewrite !length_append.
    apply Forall_cons_1 in IH as [Hx Hxs]. cbn [snd] in Hx.
    pose proof (length_members_text (lead_of gap indent) (trail_of gap indent)
                  (map (member gap indent) fs) "") as Hlen.
    pose proof (list_sum_le (fun '(_, x) => S (weight x)) (fun p => S (String.length p))
                  (member gap indent) fs) as Hsum.
    specialize (Hx gap (indent +:+ gap)).
    pose proof (length_member gap indent k x) as Hm.
    assert (Hall : Forall (fun kv : string * value =>
                             (let '(_, x) := kv in S (weight x))
                             <= S (String.length (member gap indent kv))) fs).
    { eapply Forall_impl; [exact Hxs |]. intros [k' y] Hy. cbn [snd] in Hy.
      specialize (Hy gap (indent +:+ gap)).
      pose proof (length_member gap indent k' y). lia. }
    specialize (Hsum Hall). unfold list_sum in *. cbn [map fold_right]. lia.
Qed.

(** [JSON.parse] after [JSON.stringify], with an indentation of two spaces
    and without. *)
Lemma parse_text (gap : string) (v : value) :
  blank gap = true -> distinct_keys v = true ->
  JSON.parse (serialize gap "" v) = Some v.
Proof.
  intros Hgap Hd. unfold JSON.parse.
  pose proof (parse_serialize v gap "" "" (S (String.length (serialize gap "" v)))
                Hgap eq_refl Hd eq_refl) as H.
  rewrite append_nil_r in H. rewrite H; [reflexivity |].
  pose proof (weight_le_length v gap ""). lia.
Qed.

Lemma parse_stringify_2 (v : value) :
  distinct_keys v = true -> JSON.parse (stringify_2 v) = Some v.
Proof. now apply parse_text. Qed.

Lemma parse_stringify (v : value) :
  distinct_keys v = true -> JSON.parse (stringify v) = Some v.
Proof. now apply parse_text. Qed.

(** A number of a JSON text does not start with a zero that a digit
    follows. *)
Example parse_leading_zero :
  JSON.parse "01" = None /\ JSON.parse "-012" = None /\
  JSON.parse "[0, -0, 10, 102]" = Some (VArr [VNum 0; VNum 0; VNum 10; VNum 102]).
Proof. repeat split. Qed.

End JSONRoundTrip.

(** ** The profile files *)

Section ProfileFilesFacts.
Import JS JSON FS ProfileFetcher ProfileFiles JSONLayout Samples.

(** What is taken out of a value that holds its keys once does so too. *)
Lemma distinct_keys_assoc (k : string) (fields : list (string * value)) (x : value) :
  forallb (fun '(_, x) => distinct_keys x) fields = true ->
  assoc k fields = Some x -> distinct_keys x = true.
Proof.
  induction fields as [| [k' y] fields IH]; [discriminate |].
  cbn [forallb assoc]. intros [Hy Hrest]%andb_true_iff.
  destruct (String.eqb k k'); [now intros [= <-] | now apply IH].
Qed.

Lemma distinct_keys_prop (v : value) (k : string) (x : value) :
  distinct_keys v = true -> prop v k = Some x -> distinct_keys x = true.
Proof.
  destruct v; try discriminate. cbn [distinct_keys prop].
  intros [_ H]%andb_true_iff. now apply distinct_keys_assoc.
Qed.

Lemma distinct_keys_opt_prop (o : option value) (k : string) (x : value) :
  (forall v, o = Some v -> distinct_keys v = true) ->
  opt_prop o k = Some x -> distinct_keys x = true.
Proof.
  intros Ho. destruct o as [v |]; [| discriminate].
  specialize (Ho v eq_refl). destruct v; try discriminate; now apply distinct_keys_prop.
Qed.

Lemma distinct_keys_or_else (a : option value) (b : value) :
  (forall v, a = Some v -> distinct_keys v = true) -> distinct_keys b = true ->
  distinct_keys (or_else a b) = true.
Proof.
  intros Ha Hb. unfold or_else. destruct a as [v |]; [| exact Hb].
  destruct (truthy (Some v)); [now apply Ha | exact Hb].
Qed.

Lemma distinct_keys_index (items : option value) (i : nat) (x : value) :
  (forall v, items = Some v -> distinct_keys v = true) ->
  index (elements items) i = Some x -> distinct_keys x = true.
Proof.
  intros Hitems. destruct items as [[| | | | xs |] |]; try (destruct i; discriminate).
  specialize (Hitems _ eq_refl). cbn [distinct_keys elements] in *.
  unfold index. intros Hx%nth_error_In.
  rewrite forallb_forall in Hitems. now apply Hitems.
Qed.

Lemma distinct_keys_medals (ms : list ServiceMedal) :
  forallb distinct_keys (map medal_json ms) = true.
Proof. induction ms as [| m ms IH]; [reflexivity | exact IH]. Qed.

Lemma distinct_keys_parsed (date : string) (response : value) (id : string) :
  distinct_keys response = true ->
  distinct_keys (profile_json (parseProfileResponse date response id)) = true.
Proof.
  intros Hd.
  assert (Hprop : forall k v, prop response k = Some v -> distinct_keys v = true).
  { intros k v. now apply distinct_keys_prop. }
  assert (Hcmd : forall k,
             distinct_keys (or_else (opt_prop (prop response "commendation") k) (VNum 0)) = true).
  { intros k. apply distinct_keys_or_else; [| reflexivity].
    intros v. apply distinct_keys_opt_prop. apply Hprop. }
  assert (Hitems : forall v, display_items_defidx response = Some v -> distinct_keys v = true).
  { intros v. apply distinct_keys_opt_prop. apply Hprop. }
  assert (Heq : distinct_keys (equippedMedal (parseProfileResponse date response id)) = true).
  { cbn [parseProfileResponse equippedMedal].
    destruct (truthy (display_items_defidx response) && isArray (display_items_defidx response));
      [| reflexivity].
    unfold nullish.
    destruct (index (elements (display_items_defidx response)) 0) as [x |] eqn:E;
      [| reflexivity].
    destruct x; try reflexivity; now apply (distinct_keys_index _ _ _ Hitems E). }
  unfold profile_json.
  cbn [parseProfileResponse steamId64 commendations friendly leader teacher medals xpLevel
       fetchedAt] in *.
  destruct (prop response "player_level") as [level |] eqn:Elevel;
    cbn [app distinct_keys map fst keys_once existsb forallb];
    rewrite ?Hcmd, ?Heq, ?distinct_keys_medals, ?(Hprop _ _ Elevel); reflexivity.
Qed.

Lemma access_dir_ensured (dir : string) (fs : FS) :
  access_dir dir (ensureOutputDirectory dir fs) = true.
Proof.
  unfold ensureOutputDirectory. destruct (access_dir dir fs) eqn:E; [exact E |].
  unfold access_dir, mkdir. cbn [dirs]. apply bool_decide_eq_true. set_solver.
Qed.

Lemma files_ensured (dir : string) (fs : FS) : files (ensureOutputDirectory dir fs) = files fs.
Proof. unfold ensureOutputDirectory. now destruct (access_dir dir fs). Qed.

Lemma saveProfileToFile_valid (dir : string) (p : PlayerProfile) (fs : FS) :
  test_17_digits (steamId64 p) = true ->
  saveProfileToFile dir p fs
  = ({| dirs := dirs (ensureOutputDirectory dir fs);
        files := <[profile_path dir (steamId64 p) := stringify_2 (profile_json p)]> (files fs) |},
     None).
Proof.
  intros Hid. unfold saveProfileToFile, writeFile. rewrite Hid. cbn [negb].
  change (dirname (profile_path dir (steamId64 p))) with dir.
  now rewrite access_dir_ensured, files_ensured.
Qed.

Lemma loaded_after_save (outputDir date id : string) (response : value) (fs : FS) :
  test_17_digits id = true -> distinct_keys response = true ->
  let profile := parseProfileResponse date response id in
  loadProfileFromFile outputDir id (fst (saveProfileToFile outputDir profile fs))
  = profile_json profile.
Proof.
  intros Hid Hd profile.
  rewrite saveProfileToFile_valid by exact Hid. cbn [fst].
  unfold loadProfileFromFile, readFile. rewrite Hid. cbn [negb files].
  change (steamId64 profile) with id.
  rewrite lookup_insert_eq, parse_stringify_2; [reflexivity |].
  now apply distinct_keys_parsed.
Qed.

(** X1. A profile written to the cache is read back as the object
    [JSON.stringify] saw. *)
Theorem saved_profile_is_loaded
  (outputDir date id : string) (response : value) (fs : FS) :
  test_17_digits id = true -> distinct_keys response = true ->
  let profile := parseProfileResponse date response id in
  let saved := saveProfileToFile outputDir profile fs in
  snd saved = None /\
  loadProfileFromFile outputDir id (fst saved) = profile_json profile.
Proof.
  intros Hid Hd profile saved. split.
  - subst saved. rewrite saveProfileToFile_valid by exact Hid. reflexivity.
  - exact (loaded_after_save outputDir date id response fs Hid Hd).
Qed.

Lemma saved_profile_is_loaded_witness :
  let profile := parseProfileResponse "2024-01-01T00:00:00.000Z" sample_response
                   "76561198000000000" in
  let saved := saveProfileToFile "/srv/app/output/profiles" profile empty_disk in
  snd saved = None /\
  loadProfileFromFile "/srv/app/output/profiles" "76561198000000000" (fst saved)
  = profile_json profile.
Proof.
  apply (saved_profile_is_loaded "/srv/app/output/profiles" "2024-01-01T00:00:00.000Z"
           "76561198000000000" sample_response empty_disk); reflexivity.
Defined.

Lemma append_inj_l (a b c : string) : a +:+ c = b +:+ c -> a = b.
Proof.
  revert b. induction a as [| x a IH]; intros [| y b] H.
  - reflexivity.
  - exfalso. apply (f_equal String.length) in H.
    rewrite append_nil_l, append_cons in H. cbn [String.length] in H.
    rewrite length_append in H. lia.
  - exfalso. apply (f_equal String.length) in H.
    rewrite append_nil_l, append_cons in H. cbn [String.length] in H.
    rewrite length_append in H. lia.
  - rewrite !append_cons in H. injection H as -> H. f_equal. now apply IH.
Qed.

(** X2. Saving a profile leaves the cached profiles of all other identifiers as
    they were, and for an identifier that is not 17 digits nothing is
    written and nothing is read. *)
Theorem profile_files_by_identifier
  (outputDir : string) (profile : PlayerProfile) (fs : FS) :
  let saved := saveProfileToFile outputDir profile fs in
  (forall id, id <> steamId64 profile ->
     loadProfileFromFile outputDir id (fst saved) = loadProfileFromFile outputDir id fs) /\
  (test_17_digits (steamId64 profile) = false ->
     fst saved = fs /\
     snd saved = Some (Error ("Invalid Steam ID 64 format: " +:+ steamId64 profile))) /\
  (forall id disk, test_17_digits id = false -> loadProfileFromFile outputDir id disk = VNull).
Proof.
  intros saved. split; [| split].
  - intros id Hid. subst saved.
    destruct (test_17_digits (steamId64 profile)) eqn:E.
    + rewrite saveProfileToFile_valid by exact E. cbn [fst].
      unfold loadProfileFromFile, readFile. cbn [files].
      rewrite lookup_insert_ne; [reflexivity |].
      unfold profile_path. intros [= H%append_inj_l]. congruence.
    + unfold saveProfileToFile. now rewrite E.
  - intros E. subst saved. unfold saveProfileToFile. rewrite E. now split.
  - intros id disk E. unfold loadProfileFromFile. now rewrite E.
Qed.

Lemma profile_files_by_identifier_witness :
  let profile := parseProfileResponse "2024-01-01T00:00:00.000Z" sample_response
                   "76561198000000000" in
  let saved := saveProfileToFile "/srv/app/output/profiles" profile empty_disk in
  loadProfileFromFile "/srv/app/output/profiles" "76561198000000001" (fst saved)
  = loadProfileFromFile "/srv/app/output/profiles" "76561198000000001" empty_disk /\
  loadProfileFromFile "/srv/app/output/profiles" "../../etc/passwd" (fst saved) = VNull.
Proof.
  intros profile saved.
  pose proof (profile_files_by_identifier "/srv/app/output/profiles" profile empty_disk)
    as (Hother & _ & Hmalformed).
  split.
  - apply Hother. discriminate.
  - apply Hmalformed. reflexivity.
Defined.

End ProfileFilesFacts.

(** ** The equipped medal and the account identifier *)

Section ProfileMore.
Import JS JSON ProfileFetcher ProfileFiles JSONLayout Samples.

Lemma fold_Set_add_head (xs : list Z) (a : Z) (acc : list Z) :
  exists rest, fold_left Set_add xs (a :: acc) = a :: rest.
Proof.
  revert acc. induction xs as [| x xs IH]; intros acc; [now exists acc |].
  cbn [fold_left]. unfold Set_add at 2.
  destruct (Set_has x (a :: acc)); [apply IH |]. cbn [app]. apply IH.
Qed.

(** X5. When the equipped medal of a parsed profile is a number, it is the
    first of the medals of the profile. *)
Theorem equipped_medal_heads_the_medals
  (date : string) (profile : value) (id : string) (n : Z) :
  equippedMedal (parseProfileResponse date profile id) = VNum n ->
  exists rest, medals (parseProfileResponse date profile id) = {| medalId := n |} :: rest.
Proof.
  cbn [parseProfileResponse equippedMedal medals].
  destruct (truthy (display_items_defidx profile) && isArray (display_items_defidx profile));
    [| discriminate].
  destruct (display_items_defidx profile) as [[| | | | xs |] |]; cbn [elements index nth_error];
    try discriminate.
  destruct xs as [| x xs]; [discriminate |].
  cbn [nth_error nullish]. intros Hx.
  assert (Heq : x = VNum n) by (destruct x; (discriminate || exact Hx)).
  subst x. cbn [filter_numbers]. unfold new_Set. cbn [fold_left]. unfold Set_add at 2.
  cbn [Set_has existsb app].
  destruct (fold_Set_add_head (filter_numbers xs) n []) as (rest & ->).
  cbn [map]. eexists. reflexivity.
Qed.

Lemma equipped_medal_heads_the_medals_witness :
  exists rest,
    medals (parseProfileResponse "2024-01-01T00:00:00.000Z" sample_response "76561198000000000")
    = {| medalId := 4873 |} :: rest.
Proof.
  apply (equipped_medal_heads_the_medals "2024-01-01T00:00:00.000Z" sample_response
           "76561198000000000" 4873).
  reflexivity.
Defined.

(** *** [steamId64ToAccountId] *)

Lemma digits_in_text (d : Decimal.uint) (acc : Z) :
  digits_in 10 acc (NilEmpty.string_of_uint d) = Some (digits_value d acc).
Proof.
  revert acc. induction d; intros acc; cbn [NilEmpty.string_of_uint digits_value];
    [reflexivity | ..];
    cbn [digits_in]; apply IHd.
Qed.

Lemma is_digit_not_space (c : ascii) : is_digit c = true -> is_space c = false.
Proof. destruct c as [[] [] [] [] [] [] [] []]; (reflexivity || discriminate). Qed.

Lemma digit_is_no_prefix (c : ascii) :
  is_digit c = true ->
  let n := nat_of_ascii c in
  ((n =? 120) || (n =? 88) || (n =? 111) || (n =? 79) || (n =? 98) || (n =? 66))%nat = false /\
  (n =? 43)%nat = false /\ (n =? 45)%nat = false.
Proof. destruct c as [[] [] [] [] [] [] [] []]; (now repeat split) || discriminate. Qed.

Lemma digits_of_uint (d : Decimal.uint) :
  forallb is_digit (list_ascii_of_string (NilEmpty.string_of_uint d)) = true.
Proof.
  induction d; cbn [NilEmpty.string_of_uint list_ascii_of_string forallb];
    (reflexivity || exact IHd).
Qed.

Lemma trim_end_digits (s : string) :
  forallb is_digit (list_ascii_of_string s) = true -> trim_end s = s.
Proof.
  induction s as [| c s IH]; [reflexivity |].
  cbn [list_ascii_of_string forallb]. intros [Hc Hs]%andb_true_iff.
  cbn [trim_end]. rewrite (IH Hs). destruct s; [| reflexivity].
  now rewrite (is_digit_not_space c Hc).
Qed.

Lemma trim_digits (s : string) :
  forallb is_digit (list_ascii_of_string s) = true -> trim s = s.
Proof.
  intros Hs. unfold trim.
  assert (H : trim_start s = s).
  { destruct s as [| c s]; [reflexivity |].
    cbn [list_ascii_of_string forallb] in Hs. apply andb_true_iff in Hs as [Hc _].
    cbn [trim_start]. now rewrite (is_digit_not_space c Hc). }
  rewrite H. now apply trim_end_digits.
Qed.

Lemma BigInt_digits (s : string) :
  s <> "" -> forallb is_digit (list_ascii_of_string s) = true ->
  BigInt s = digits_in 10 0 s.
Proof.
  intros Hne Hs. unfold BigInt. rewrite (trim_digits s Hs).
  destruct s as [| c s]; [congruence |].
  cbn [list_ascii_of_string forallb] in Hs. apply andb_true_iff in Hs as [Hc Hs].
  destruct (digit_is_no_prefix c Hc) as (_ & Hplus & Hminus). cbv zeta in Hplus, Hminus.
  assert (Hprefix : prefixed (String c s) = None).
  { unfold prefixed. destruct s as [| l s]; [reflexivity |].
    destruct (nat_of_ascii c =? 48)%nat; [| reflexivity].
    cbn [list_ascii_of_string forallb] in Hs. apply andb_true_iff in Hs as [Hl _].
    destruct (digit_is_no_prefix l Hl) as (H & _). cbv zeta in H.
    repeat (apply orb_false_iff in H as [H ?]).
    repeat match goal with E : (_ =? _)%nat = false |- _ => rewrite E; clear E end.
    reflexivity. }
  rewrite Hprefix, Hplus, Hminus. reflexivity.
Qed.

Lemma BigInt_of_decimal (n : Z) : (0 <= n)%Z -> BigInt (string_of_Z n) = Some n.
Proof.
  intros Hn. unfold string_of_Z. destruct n as [| p | p]; [reflexivity | | lia].
  cbn [Z.to_int NilZero.string_of_int].
  pose proof (DecimalPos.Unsigned.to_uint_nonnil p) as Hnil.
  assert (Hz : NilZero.string_of_uint (Pos.to_uint p) = NilEmpty.string_of_uint (Pos.to_uint p)).
  { unfold NilZero.string_of_uint. destruct (Pos.to_uint p); congruence. }
  rewrite Hz, BigInt_digits.
  - now rewrite digits_in_text, digits_value_of_uint, DecimalPos.Unsigned.of_to.
  - destruct (string_of_uint_head _ Hnil) as (c & s & -> & _). discriminate.
  - apply digits_of_uint.
Qed.

(** X6. The account identifier is what is left of the identifier below 2^32:
    for a number that is not negative, written in decimal,
    [steamId64ToAccountId] returns the number modulo 2^32. *)
Theorem steamId64ToAccountId_low_bits (n : Z) :
  (0 <= n)%Z ->
  steamId64ToAccountId (string_of_Z n) = Some (n mod 2 ^ 32)%Z.
Proof.
  intros Hn. unfold steamId64ToAccountId. rewrite (BigInt_of_decimal n Hn).
  cbn [fmap option_fmap option_map]. f_equal.
  change 4294967295%Z with (Z.ones 32). now apply Z.land_ones.
Qed.

Lemma steamId64ToAccountId_low_bits_witness :
  steamId64ToAccountId "76561199441016438" = Some 1480750710%Z.
Proof.
  exact (steamId64ToAccountId_low_bits 76561199441016438 ltac:(lia)).
Defined.

End ProfileMore.

(** ** The profile route and the cache *)

Section RouteCache.
Import JS JSON FS ProfileFiles JSONLayout APIServer Samples.

(** X4. A profile is served, from the cache or fresh, only for a well-formed
    identifier and only while the coordinator connection is ready; from the
    cache only when the cache is enabled, the file holds a profile and
    the request does not force a fetch; fresh only when the fetch was
    resolved, with the profile it was resolved with. *)
Theorem profile_served_only_when_ready (env : Surroundings) (req : Request) (r : Response) :
  profile_route env req = Some r ->
  status r = 200%Z ->
  test_17_digits (steamId64 req) = true /\ isGcReady env = true /\
  match body r with
  | cached_body cached =>
      ENABLE_FILE_CACHE env = Some "true" /\ force req <> Some "true" /\
      APIServer.loadProfileFromFile env = Some cached /\ truthy (Some cached) = true
  | profile_body profile => fetchProfile env = ProfileFetcher.Resolved profile
  | error_body _ _ => False
  end.
Proof.
  unfold profile_route.
  destruct (test_17_digits (steamId64 req)); cbn [negb]; [| intros [= <-]; discriminate].
  destruct (isGcReady env); cbn [negb]; [| intros [= <-]; discriminate].
  destruct (served_from_cache env req) eqn:Hcache.
  - unfold served_from_cache in Hcache.
    destruct (ENABLE_FILE_CACHE env) as [flag |]; [| discriminate].
    apply andb_true_iff in Hcache as [[Hflag Htruthy]%andb_true_iff Hforce].
    apply String.eqb_eq in Hflag. subst flag.
    destruct (APIServer.loadProfileFromFile env) as [cached |]; [| discriminate].
    intros [= <-] _. cbn [body]. repeat split; try assumption.
    intros Hf. rewrite Hf in Hforce. discriminate.
  - destruct (fetchProfile env) as [| profile | error]; try discriminate.
    + intros [= <-] _. now repeat split.
    + intros [= <-]. discriminate.
Qed.

Lemma profile_served_only_when_ready_witness :
  let env := {| isGcReady := true; ENABLE_FILE_CACHE := Some "true";
                APIServer.loadProfileFromFile := Some (VObj [("steamId64", VStr "76561198000000000")]);
                fetchProfile := ProfileFetcher.Pending |} in
  let req := {| steamId64 := "76561198000000000"; force := Some "false" |} in
  test_17_digits (steamId64 req) = true /\ isGcReady env = true /\
  ENABLE_FILE_CACHE env = Some "true" /\ force req <> Some "true" /\
  APIServer.loadProfileFromFile env = Some (VObj [("steamId64", VStr "76561198000000000")]) /\
  truthy (Some (VObj [("steamId64", VStr "76561198000000000")])) = true.
Proof.
  intros env req.
  exact (profile_served_only_when_ready env req
           {| status := 200; body := cached_body (VObj [("steamId64", VStr "76561198000000000")]) |}
           eq_refl eq_refl).
Defined.

(** X3. With the cache enabled and the connection ready, a profile that was
    saved for an identifier is what the route answers the next request for
    that identifier with, without waiting for a fetch; a request that
    forces a fetch is answered by the fetch instead. *)
Theorem saved_profile_is_served_from_the_cache
  (outputDir date id : string) (response : value) (fs : FS)
  (outcome : ProfileFetcher.promise) (forced : option string) :
  test_17_digits id = true -> distinct_keys response = true ->
  let profile := ProfileFetcher.parseProfileResponse date response id in
  let disk := fst (saveProfileToFile outputDir profile fs) in
  let env := {| isGcReady := true; ENABLE_FILE_CACHE := Some "true";
                APIServer.loadProfileFromFile :=
                  Some (ProfileFiles.loadProfileFromFile outputDir id disk);
                fetchProfile := outcome |} in
  profile_route env {| steamId64 := id; force := forced |}
  = if match forced with Some f => String.eqb f "true" | None => false end
    then match outcome with
         | ProfileFetcher.Resolved fresh => Some {| status := 200; body := profile_body fresh |}
         | ProfileFetcher.Rejected error =>
             Some {| status := 500;
                     body := error_body "Failed to fetch player profile"
                               (Some (errorMessage error)) |}
         | ProfileFetcher.Pending => None
         end
    else Some {| status := 200; body := cached_body (profile_json profile) |}.
Proof.
  intros Hid Hd profile disk env.
  pose proof (loaded_after_save outputDir date id response fs Hid Hd) as Hload.
  unfold profile_route, served_from_cache.
  cbn [steamId64 force isGcReady ENABLE_FILE_CACHE APIServer.loadProfileFromFile fetchProfile env].
  rewrite Hid. cbn [negb]. cbv zeta in Hload. fold profile in Hload. fold disk in Hload.
  rewrite Hload.
  cbn [String.eqb Ascii.eqb Bool.eqb andb truthy].
  destruct (match forced with Some f => String.eqb f "true" | None => false end);
    reflexivity.
Qed.

Lemma saved_profile_is_served_from_the_cache_witness :
  let profile := ProfileFetcher.parseProfileResponse "2024-01-01T00:00:00.000Z" sample_response
                   "76561198000000000" in
  let disk := fst (saveProfileToFile "/srv/app/output/profiles" profile empty_disk) in
  let env := {| isGcReady := true; ENABLE_FILE_CACHE := Some "true";
                APIServer.loadProfileFromFile :=
                  Some (ProfileFiles.loadProfileFromFile "/srv/app/output/profiles"
                          "76561198000000000" disk);
                fetchProfile := ProfileFetcher.Pending |} in
  profile_route env {| steamId64 := "76561198000000000"; force := None |}
  = Some {| status := 200; body := cached_body (profile_json profile) |}.
Proof.
  exact (saved_profile_is_served_from_the_cache "/srv/app/output/profiles"
           "2024-01-01T00:00:00.000Z" "76561198000000000" sample_response empty_disk
           ProfileFetcher.Pending None eq_refl eq_refl).
Defined.

End RouteCache.

(** ** What [trim] removes *)

Section Trim.
Import JS WhiteSpace.

Lemma is_space_white (c : ascii) : is_space c = true <-> is_white c.
Proof.
  unfold is_space, is_white, code_units. cbn [In].
  rewrite !orb_true_iff, andb_true_iff, !Nat.eqb_eq, !Nat.leb_le. lia.
Qed.

Lemma is_space_not_white (c : ascii) : is_space c = false <-> ~ is_white c.
Proof.
  rewrite <- is_space_white. destruct (is_space c); split; congruence.
Qed.

Lemma all_white_nil : all_white "".
Proof. intros c []. Qed.

Lemma all_white_cons (c : ascii) (s : string) :
  all_white (String c s) <-> is_white c /\ all_white s.
Proof.
  unfold all_white. cbn [list_ascii_of_string In]. split.
  - intros H. split; [apply H; now left | intros d Hd; apply H; now right].
  - intros [Hc Hs] d [<- | Hd]; [exact Hc | now apply Hs].
Qed.

Lemma trim_start_white (lead s : string) :
  all_white lead -> trim_start (lead +:+ s) = trim_start s.
Proof.
  induction lead as [| c lead IH]; [reflexivity |].
  intros [Hc Hlead]%all_white_cons. change (String c lead +:+ s) with (String c (lead +:+ s)).
  cbn [trim_start]. apply is_space_white in Hc. rewrite Hc. now apply IH.
Qed.

Lemma trim_start_all_white (lead : string) : all_white lead -> trim_start lead = "".
Proof.
  induction lead as [| c lead IH]; [reflexivity |].
  intros [Hc Hlead]%all_white_cons. cbn [trim_start].
  apply is_space_white in Hc. rewrite Hc. now apply IH.
Qed.

Lemma trim_start_solid (s : string) :
  (forall c rest, s = String c rest -> ~ is_white c) -> trim_start s = s.
Proof.
  destruct s as [| c s]; [reflexivity |]. intros H. cbn [trim_start].
  specialize (H c s eq_refl). apply is_space_not_white in H. now rewrite H.
Qed.

Lemma trim_end_all_white (trail : string) : all_white trail -> trim_end trail = "".
Proof.
  induction trail as [| c trail IH]; [reflexivity |].
  intros [Hc Htrail]%all_white_cons. cbn [trim_end]. rewrite (IH Htrail).
  apply is_space_white in Hc. now rewrite Hc.
Qed.

Lemma trim_end_white (s trail : string) :
  all_white trail -> trim_end (s +:+ trail) = trim_end s.
Proof.
  intros Htrail. induction s as [| c s IH]; [now apply trim_end_all_white |].
  change (String c s +:+ trail) with (String c (s +:+ trail)).
  cbn [trim_end]. now rewrite IH.
Qed.

Lemma trim_end_solid (s : string) :
  (forall init c, s = init +:+ String c "" -> ~ is_white c) -> trim_end s = s.
Proof.
  induction s as [| c s IH]; [reflexivity |]. intros H. cbn [trim_end].
  destruct s as [| d s].
  - cbn [trim_end]. specialize (H "" c eq_refl). apply is_space_not_white in H.
    now rewrite H.
  - rewrite IH; [reflexivity |].
    intros init x Heq. apply (H (String c init) x). now rewrite Heq.
Qed.

(** [trim] removes the white space a text starts and ends with, and nothing
    else. *)
Lemma trim_spec (lead core trail : string) :
  all_white lead -> all_white trail -> trimmed core ->
  trim (lead +:+ core +:+ trail) = core.
Proof.
  intros Hlead Htrail [Hfirst Hlast]. unfold trim.
  rewrite trim_start_white by exact Hlead.
  destruct core as [| c core].
  - change ("" +:+ trail) with trail. now rewrite trim_start_all_white.
  - change (String c core +:+ trail) with (String c (core +:+ trail)).
    rewrite trim_start_solid.
    + change (String c (core +:+ trail)) with (String c core +:+ trail).
      rewrite trim_end_white by exact Htrail. now apply trim_end_solid.
    + intros x rest [= <- _]. now apply (Hfirst c core).
Qed.

Lemma trim_start_splits (s : string) :
  exists lead, s = lead +:+ trim_start s /\ all_white lead.
Proof.
  induction s as [| c s (lead & Hs & Hlead)]; [exists ""; split; [reflexivity | apply all_white_nil] |].
  cbn [trim_start]. destruct (is_space c) eqn:Hc.
  - exists (String c lead). split.
    + change (String c lead +:+ trim_start s) with (String c (lead +:+ trim_start s)).
      now rewrite <- Hs.
    + apply all_white_cons. split; [now apply is_space_white | exact Hlead].
  - exists "". split; [reflexivity | apply all_white_nil].
Qed.

Lemma trim_end_splits (s : string) :
  exists trail, s = trim_end s +:+ trail /\ all_white trail.
Proof.
  induction s as [| c s (trail & Hs & Htrail)]; [exists ""; split; [reflexivity | apply all_white_nil] |].
  cbn [trim_end]. destruct (trim_end s) as [| d r] eqn:E.
  - destruct (is_space c) eqn:Hc.
    + exists (String c trail). split.
      * change ("" +:+ String c trail) with (String c ("" +:+ trail)). now rewrite <- Hs.
      * apply all_white_cons. split; [now apply is_space_white | exact Htrail].
    + exists trail. split; [| exact Htrail].
      change (String c "" +:+ trail) with (String c ("" +:+ trail)). now rewrite <- Hs.
  - exists trail. split; [| exact Htrail].
    change (String c (String d r) +:+ trail) with (String c (String d r +:+ trail)).
    now rewrite <- Hs.
Qed.

Lemma trim_end_last (s init : string) (c : ascii) :
  trim_end s = init +:+ String c "" -> ~ is_white c.
Proof.
  revert init. induction s as [| x s IH]; intros init.
  - cbn [trim_end]. destruct init; discriminate.
  - cbn [trim_end]. destruct (trim_end s) as [| d r] eqn:E.
    + destruct (is_space x) eqn:Hx; [destruct init; discriminate |].
      destruct init as [| y init].
      * intros [= <-]. now apply is_space_not_white.
      * change (String y init +:+ String c "") with (String y (init +:+ String c "")).
        intros H. exfalso. injection H as _ H. destruct init; discriminate H.
    + destruct init as [| y init].
      * intros H. exfalso. change ("" +:+ String c "") with (String c "") in H.
        congruence.
      * change (String y init +:+ String c "") with (String y (init +:+ String c "")).
        intros [= _ H]. now apply (IH init).
Qed.

Lemma trimmed_trim (s : string) : trimmed (trim s).
Proof.
  unfold trim. split.
  - intros c rest H.
    destruct (trim_start s) as [| d r] eqn:E; [discriminate H |].
    assert (Hd : is_space d = false).
    { clear H. induction s as [| x s IH]; [discriminate E |].
      cbn [trim_start] in E. destruct (is_space x) eqn:Hx; [now apply IH |].
      now injection E as <- _. }
    cbn [trim_end] in H. destruct (trim_end r); rewrite ?Hd in H;
      injection H as <- _; now apply is_space_not_white.
  - intros init c H. now apply (trim_end_last (trim_start s) init c).
Qed.

(** Every text is its [trim] between white space. *)
Lemma trim_splits (s : string) :
  exists lead trail,
    s = lead +:+ trim s +:+ trail /\ all_white lead /\ all_white trail /\ trimmed (trim s).
Proof.
  destruct (trim_start_splits s) as (lead & Hs & Hlead).
  destruct (trim_end_splits (trim_start s)) as (trail & Ht & Htrail).
  exists lead, trail. unfold trim at 1. rewrite <- Ht, <- Hs.
  repeat split; try assumption; apply trimmed_trim.
Qed.

Lemma all_white_test (s : string) :
  forallb is_space (list_ascii_of_string s) = true -> all_white s.
Proof.
  intros H c Hc. apply is_space_white.
  rewrite forallb_forall in H. now apply H.
Qed.

End Trim.

(** ** The session files *)

Section SessionFiles.
Import JS JSON FS SteamAuth SteamAuthSetup JSONLayout WhiteSpace Samples.

(** *** [trim] *)

Lemma trim_start_head (s : string) :
  trim_start s = "" \/ exists c r, trim_start s = String c r /\ is_space c = false.
Proof.
  induction s as [| c s IH]; [now left |].
  cbn [trim_start]. destruct (is_space c) eqn:E; [exact IH |].
  right. now exists c, s.
Qed.

Lemma trim_end_head (c : ascii) (r : string) :
  is_space c = false -> exists r', trim_end (String c r) = String c r'.
Proof.
  intros Hc. cbn [trim_end]. destruct (trim_end r); rewrite ?Hc; eexists; reflexivity.
Qed.

Lemma trim_end_idem (s : string) : trim_end (trim_end s) = trim_end s.
Proof.
  induction s as [| c s IH]; [reflexivity |].
  cbn [trim_end]. destruct (trim_end s) as [| d r] eqn:E.
  - destruct (is_space c) eqn:Hc; [reflexivity |]. cbn [trim_end]. now rewrite Hc.
  - change (trim_end (String c (String d r)))
      with (match trim_end (String d r) with
            | "" => if is_space c then "" else String c ""
            | String x y => String c (String x y)
            end).
    now rewrite IH.
Qed.

Lemma trim_idem (s : string) : trim (trim s) = trim s.
Proof.
  unfold trim. destruct (trim_start_head s) as [-> | (c & r & -> & Hc)]; [reflexivity |].
  destruct (trim_end_head c r Hc) as (r' & Hr'). rewrite Hr'.
  cbn [trim_start]. rewrite Hc, <- Hr'. apply trim_end_idem.
Qed.

Lemma length_zero (s : string) : (String.length s =? 0)%nat = String.eqb s "".
Proof. now destruct s. Qed.

Lemma trim_empty : trim "" = "".
Proof. reflexivity. Qed.

(** *** The files after a write *)

Lemma access_dir_made (dir : string) (fs : FS) :
  access_dir dir (if access_dir dir fs then fs else mkdir dir fs) = true.
Proof.
  destruct (access_dir dir fs) eqn:E; [exact E |].
  unfold access_dir, mkdir. cbn [dirs]. apply bool_decide_eq_true. set_solver.
Qed.

Lemma files_made (dir : string) (fs : FS) :
  files (if access_dir dir fs then fs else mkdir dir fs) = files fs.
Proof. now destruct (access_dir dir fs). Qed.

Lemma writeFile_ok (p : path) (text : string) (fs : FS) :
  access_dir (dirname p) fs = true ->
  writeFile p text fs = Some {| dirs := dirs fs; files := <[p := text]> (files fs) |}.
Proof. intros H. unfold writeFile. now rewrite H. Qed.

Lemma unlink_ok (p : path) (text : string) (fs : FS) :
  files fs !! p = Some text ->
  unlink p fs = Some {| dirs := dirs fs; files := delete p (files fs) |}.
Proof. intros H. unfold unlink, access. now rewrite H. Qed.

Lemma access_dir_files (d : string) (ds : gset string) (f g : gmap (string * string) string) :
  access_dir d {| dirs := ds; files := f |} = access_dir d {| dirs := ds; files := g |}.
Proof. reflexivity. Qed.

(** [saveLoginKey] of a key that is not blank: the key file holds the
    trimmed key, the probe file is gone. *)
Lemma saveLoginKey_saved (this : Fields) (key : string) (fs : FS) :
  trim key <> "" ->
  let dir := dirname (loginKeyPath this) in
  saveLoginKey this key fs
  = ({| dirs := dirs (if access_dir dir fs then fs else mkdir dir fs);
        files := <[loginKeyPath this := trim key]>
                   (delete (dir, ".write-test") (<[(dir, ".write-test") := "test"]> (files fs))) |},
     true).
Proof.
  intros Hkey dir. unfold saveLoginKey.
  assert (Hne : String.eqb key "" = false).
  { apply String.eqb_neq. intros ->. now apply Hkey. }
  rewrite Hne, length_zero. apply String.eqb_neq in Hkey. rewrite Hkey.
  fold dir.
  pose proof (access_dir_made dir fs) as Hdir. pose proof (files_made dir fs) as Hfiles.
  set (fs1 := if access_dir dir fs then fs else mkdir dir fs) in *.
  rewrite (writeFile_ok (dir, ".write-test") "test" fs1) by exact Hdir.
  cbn [mbind option_bind].
  rewrite (unlink_ok (dir, ".write-test") "test") by (cbn [files]; apply lookup_insert_eq).
  cbn [dirs files].
  rewrite writeFile_ok by exact Hdir.
  unfold readFile. cbn [dirs files]. rewrite lookup_insert_eq.
  rewrite length_zero, Hkey, trim_idem, String.eqb_refl, Hfiles. reflexivity.
Qed.

Lemma saved_key_is_loaded (this : Fields) (key : string) (fs : FS) :
  trim key <> "" ->
  loadLoginKey this (fst (saveLoginKey this key fs)) = Some (trim key).
Proof.
  intros Hkey. rewrite saveLoginKey_saved by exact Hkey. cbn [fst].
  unfold loadLoginKey, access, readFile. cbn [files]. rewrite lookup_insert_eq.
  cbn [negb]. rewrite trim_idem, length_zero.
  apply String.eqb_neq in Hkey. now rewrite Hkey.
Qed.

Lemma saveLoginKey_blank (this : Fields) (key : string) (fs : FS) :
  trim key = "" -> saveLoginKey this key fs = (fs, false).
Proof.
  intros Hblank. unfold saveLoginKey. destruct (String.eqb key ""); [reflexivity |].
  now rewrite Hblank.
Qed.

Lemma saved_key_file (this : Fields) (key : string) (fs : FS) :
  trim key <> "" ->
  files (fst (saveLoginKey this key fs)) !! loginKeyPath this = Some (trim key).
Proof.
  intros Hkey. rewrite saveLoginKey_saved by exact Hkey. cbn [fst files].
  apply lookup_insert_eq.
Qed.

(** X15. A key is saved without the white space it starts and ends with, and
    that is the key [loadLoginKey] returns; a key that holds nothing but
    white space is refused and no file changes. *)
Theorem login_key_round_trip (this : Fields) (fs : FS) (lead core trail : string) :
  all_white lead -> all_white trail -> trimmed core ->
  let saved := saveLoginKey this (lead +:+ core +:+ trail) fs in
  (core = "" -> saved = (fs, false)) /\
  (core <> "" ->
   snd saved = true /\
   files (fst saved) !! loginKeyPath this = Some core /\
   loadLoginKey this (fst saved) = Some core).
Proof.
  intros Hlead Htrail Hcore saved.
  pose proof (trim_spec lead core trail Hlead Htrail Hcore) as Htrim.
  split; intros Hc.
  - apply saveLoginKey_blank. now rewrite Htrim.
  - assert (Hkey : trim (lead +:+ core +:+ trail) <> "") by now rewrite Htrim.
    rewrite <- Htrim. split; [| split].
    + unfold saved. now rewrite saveLoginKey_saved by exact Hkey.
    + now apply saved_key_file.
    + now apply saved_key_is_loaded.
Qed.

Lemma login_key_round_trip_witness :
  let key := String (ascii_of_nat 160) (" s3ss10n-k3y" +:+ String (ascii_of_nat 9) " ") in
  let saved := saveLoginKey sample_fields key empty_disk in
  snd saved = true /\
  files (fst saved) !! ("/srv/app", "loginKey_deepscope.txt") = Some "s3ss10n-k3y" /\
  loadLoginKey sample_fields (fst saved) = Some "s3ss10n-k3y".
Proof.
  intros key saved.
  destruct (login_key_round_trip sample_fields empty_disk
              (String (ascii_of_nat 160) " ") "s3ss10n-k3y" (String (ascii_of_nat 9) " "))
    as [_ H].
  - now apply all_white_test.
  - now apply all_white_test.
  - change "s3ss10n-k3y" with (trim "s3ss10n-k3y"). apply trimmed_trim.
  - apply H. discriminate.
Defined.

(** A key of no-break spaces is refused. *)
Example login_key_of_no_break_spaces :
  saveLoginKey sample_fields (String (ascii_of_nat 160) (String (ascii_of_nat 160) ""))
    empty_disk
  = (empty_disk, false).
Proof. reflexivity. Qed.

(** *** What [saveSessionData] writes *)

Lemma saveSessionData_token (this : Fields) (date : string) (data : Data) (fs : FS) :
  data <> Undefined ->
  let dir := dirname (tokenPath this) in
  saveSessionData this date (tokenPath this) data fs
  = ({| dirs := dirs (if access_dir dir fs then fs else mkdir dir fs);
        files := <[tokenPath this := token_text this date data]> (files fs) |}, true).
Proof.
  intros Hdata dir. unfold saveSessionData. fold dir.
  pose proof (access_dir_made dir fs) as Hdir. pose proof (files_made dir fs) as Hfiles.
  set (fs1 := if access_dir dir fs then fs else mkdir dir fs) in *.
  rewrite bool_decide_eq_true_2 by reflexivity.
  rewrite writeFile_ok by exact Hdir.
  unfold access. cbn [files]. rewrite lookup_insert_eq, Hfiles.
  destruct data; [congruence | reflexivity | reflexivity].
Qed.

Lemma saveSessionData_sentry (this : Fields) (date bytes : string) (fs : FS) :
  sentryPath this <> tokenPath this ->
  let dir := dirname (sentryPath this) in
  saveSessionData this date (sentryPath this) (Buffer bytes) fs
  = ({| dirs := dirs (if access_dir dir fs then fs else mkdir dir fs);
        files := <[sentryPath this := bytes]> (files fs) |}, true).
Proof.
  intros Hne dir. unfold saveSessionData. fold dir.
  pose proof (access_dir_made dir fs) as Hdir. pose proof (files_made dir fs) as Hfiles.
  set (fs1 := if access_dir dir fs then fs else mkdir dir fs) in *.
  rewrite bool_decide_eq_false_2 by exact Hne.
  rewrite writeFile_ok by exact Hdir.
  unfold access. cbn [files]. now rewrite lookup_insert_eq, Hfiles.
Qed.

(** X16. The sentry bytes the client hands over are the bytes [loadSentryFile]
    returns: they are written as they are, not as JSON. *)
Theorem sentry_round_trip (this : Fields) (date bytes : string) (fs : FS) :
  sentryPath this <> tokenPath this ->
  let saved := saveSessionData this date (sentryPath this) (Buffer bytes) fs in
  snd saved = true /\ loadSentryFile this (fst saved) = Some bytes.
Proof.
  intros Hne saved. unfold saved. rewrite saveSessionData_sentry by exact Hne.
  cbn [fst snd]. split; [reflexivity |].
  unfold loadSentryFile, access, readFile. cbn [files]. now rewrite lookup_insert_eq.
Qed.

Lemma sentry_round_trip_witness :
  let saved := saveSessionData sample_fields "2024-01-01T00:00:00.000Z"
                 (sentryPath sample_fields) (Buffer "0123456789abcdefghij") empty_disk in
  snd saved = true /\ loadSentryFile sample_fields (fst saved) = Some "0123456789abcdefghij".
Proof.
  apply (sentry_round_trip sample_fields "2024-01-01T00:00:00.000Z" "0123456789abcdefghij"
           empty_disk).
  discriminate.
Defined.

(** *** The token file, for a token that is not a bare string *)

Lemma loadMachineAuthToken_parsed (this : Fields) (fs : FS) (text : string) (parsed : value) :
  files fs !! tokenPath this = Some text -> JSON.parse text = Some parsed ->
  loadMachineAuthToken this fs
  = if truthy (Some parsed) && typeof_object (Some parsed) && has_prop "token" parsed
    then nullish (prop parsed "token") VNull
    else parsed.
Proof.
  intros Hfile Hparse. unfold loadMachineAuthToken, access, readFile.
  now rewrite Hfile, Hparse.
Qed.

Lemma first_truthy_Some (candidates : list (option value)) (t : value) :
  first_truthy candidates = Some t ->
  truthy (Some t) = true /\ In (Some t) candidates.
Proof.
  unfold first_truthy. destruct (List.find truthy candidates) as [[x |] |] eqn:E;
    try discriminate.
  intros [= ->]. apply find_some in E. tauto.
Qed.

Lemma first_truthy_None (candidates : list (option value)) :
  first_truthy candidates = None -> truthy (first_truthy candidates) = false.
Proof. now intros ->. Qed.

Lemma truthy_not_null (t : value) : truthy (Some t) = true -> nullish (Some t) VNull = t.
Proof. now destruct t. Qed.

Lemma loaded_structured (this : Fields) (date : string) (fs : FS) (t : value) :
  files fs !! tokenPath this = Some (stringify_2 (structured t (accountName this) date)) ->
  distinct_keys t = true -> truthy (Some t) = true ->
  loadMachineAuthToken this fs = t.
Proof.
  intros Hfile Hd Ht.
  rewrite (loadMachineAuthToken_parsed this fs _ (structured t (accountName this) date) Hfile).
  - cbn. now apply truthy_not_null.
  - apply parse_stringify_2. cbn. now rewrite Hd.
Qed.

(** X17. A token that comes as an object: the first of its properties [token],
    [machineAuthToken] and [value] that is truthy is what the token file
    holds as its [token], and what loading the token returns. *)
Theorem token_object_is_unwrapped
  (this : Fields) (date : string) (fs : FS) (fields : list (string * value)) (t : value) :
  distinct_keys (VObj fields) = true ->
  token_of (VObj fields) = Some t ->
  let saved := saveSessionData this date (tokenPath this) (Plain (VObj fields)) fs in
  snd saved = true /\
  (JSON.parse <$> readFile (tokenPath this) (fst saved))
    = Some (Some (structured t (accountName this) date)) /\
  loadMachineAuthToken this (fst saved) = t.
Proof.
  intros Hd Ht saved. unfold token_of in Ht.
  destruct (first_truthy_Some _ _ Ht) as [Htruthy Hin].
  assert (Hdt : distinct_keys t = true).
  { cbn [In] in Hin. destruct Hin as [H | [H | [H | []]]];
      now apply (distinct_keys_prop _ _ _ Hd H). }
  assert (Htext : token_text this date (Plain (VObj fields))
                  = stringify_2 (structured t (accountName this) date)).
  { unfold token_text. rewrite Ht, Htruthy. cbn [negb andb]. now rewrite Htruthy. }
  unfold saved. rewrite saveSessionData_token by discriminate. cbn [fst snd].
  rewrite Htext. split; [reflexivity |]. split.
  - unfold readFile. cbn [files]. rewrite lookup_insert_eq.
    unfold fmap, option_fmap, option_map. f_equal.
    apply parse_stringify_2. cbn. now rewrite Hdt.
  - apply (loaded_structured this date); [cbn [files]; apply lookup_insert_eq | assumption ..].
Qed.

Lemma token_object_is_unwrapped_witness :
  let data := [("steamID", VStr "76561198000000000");
               ("machineAuthToken", VStr "eyAidHlwIjogIkpXVCIgfQ.e30.c2ln")] in
  let saved := saveSessionData sample_fields "2024-01-01T00:00:00.000Z"
                 (tokenPath sample_fields) (Plain (VObj data)) empty_disk in
  snd saved = true /\
  (JSON.parse <$> readFile (tokenPath sample_fields) (fst saved))
    = Some (Some (structured (VStr "eyAidHlwIjogIkpXVCIgfQ.e30.c2ln")
                    (accountName sample_fields) "2024-01-01T00:00:00.000Z")) /\
  loadMachineAuthToken sample_fields (fst saved) = VStr "eyAidHlwIjogIkpXVCIgfQ.e30.c2ln".
Proof.
  intros data.
  apply (token_object_is_unwrapped sample_fields "2024-01-01T00:00:00.000Z" empty_disk data
           (VStr "eyAidHlwIjogIkpXVCIgfQ.e30.c2ln")); reflexivity.
Defined.

Lemma stringify_not_empty (v : value) : String.eqb (stringify v) "" = false.
Proof.
  unfold stringify. destruct (serialize_head "" "" v) as (c & s & -> & _). reflexivity.
Qed.

(** X18. A token that comes as an object with none of these properties is kept
    as its JSON text: loading the token returns that text, a string, not
    the object. *)
Theorem token_object_comes_back_as_text
  (this : Fields) (date : string) (fs : FS) (fields : list (string * value)) :
  fields <> [] ->
  has_prop "token" (VObj fields) = false ->
  token_of (VObj fields) = None ->
  let saved := saveSessionData this date (tokenPath this) (Plain (VObj fields)) fs in
  snd saved = true /\
  (JSON.parse <$> readFile (tokenPath this) (fst saved))
    = Some (Some (structured (VStr (stringify (VObj fields))) (accountName this) date)) /\
  loadMachineAuthToken this (fst saved) = VStr (stringify (VObj fields)).
Proof.
  intros Hne Hkey Ht saved. unfold token_of in Ht.
  assert (Htruthy : truthy (Some (VStr (stringify (VObj fields)))) = true).
  { cbn [truthy]. now rewrite stringify_not_empty. }
  assert (Htext : token_text this date (Plain (VObj fields))
                  = stringify_2 (structured (VStr (stringify (VObj fields)))
                                   (accountName this) date)).
  { unfold token_text. rewrite Ht, Hkey. cbn [truthy negb andb Object_keys_length].
    destruct fields; [congruence |]. cbn [length Nat.ltb Nat.leb].
    now rewrite Htruthy. }
  unfold saved. rewrite saveSessionData_token by discriminate. cbn [fst snd].
  rewrite Htext. split; [reflexivity |]. split.
  - unfold readFile. cbn [files]. rewrite lookup_insert_eq.
    unfold fmap, option_fmap, option_map. f_equal. now apply parse_stringify_2.
  - apply (loaded_structured this date);
      [cbn [files]; apply lookup_insert_eq | reflexivity | assumption].
Qed.

Lemma token_object_comes_back_as_text_witness :
  let data := [("steamID", VStr "76561198000000000"); ("jwt", VStr "eyAi.e30.c2ln")] in
  let saved := saveSessionData sample_fields "2024-01-01T00:00:00.000Z"
                 (tokenPath sample_fields) (Plain (VObj data)) empty_disk in
  snd saved = true /\
  (JSON.parse <$> readFile (tokenPath sample_fields) (fst saved))
    = Some (Some (structured (VStr (stringify (VObj data)))
                    (accountName sample_fields) "2024-01-01T00:00:00.000Z")) /\
  loadMachineAuthToken sample_fields (fst saved) = VStr (stringify (VObj data)).
Proof.
  intros data.
  apply (token_object_comes_back_as_text sample_fields "2024-01-01T00:00:00.000Z" empty_disk
           data); [discriminate | reflexivity | reflexivity].
Defined.

Lemma distinct_keys_bytes (bytes : list ascii) :
  forallb distinct_keys (map (fun c => VNum (Z.of_nat (nat_of_ascii c))) bytes) = true.
Proof. induction bytes as [| c bytes IH]; [reflexivity | exact IH]. Qed.

(** X19. A token that comes as a buffer is written as the JSON form of the
    buffer, and loading the token returns that object, not a buffer. *)
Theorem token_buffer_comes_back_as_object
  (this : Fields) (date bytes : string) (fs : FS) :
  let saved := saveSessionData this date (tokenPath this) (Buffer bytes) fs in
  snd saved = true /\
  readFile (tokenPath this) (fst saved) = Some (stringify_2 (Buffer_toJSON bytes)) /\
  loadMachineAuthToken this (fst saved) = Buffer_toJSON bytes.
Proof.
  intros saved. unfold saved. rewrite saveSessionData_token by discriminate.
  cbn [fst snd]. split; [reflexivity |]. split.
  - unfold readFile. cbn [files]. apply lookup_insert_eq.
  - rewrite (loadMachineAuthToken_parsed this _ (stringify_2 (Buffer_toJSON bytes))
               (Buffer_toJSON bytes)); [reflexivity | cbn [files]; apply lookup_insert_eq |].
    apply parse_stringify_2. unfold Buffer_toJSON.
    cbn [distinct_keys map fst keys_once existsb forallb String.eqb Ascii.eqb Bool.eqb negb andb orb].
    now rewrite distinct_keys_bytes.
Qed.

End SessionFiles.

(** ** The calls of [login] *)

Section LoginCalls.
Import JS JSON FS SteamAuth SteamAuthSetup KeyLoginInvariants JSONLayout WhiteSpace Samples.

(** X20. A key the client hands over with 'loginKey' is, without the white
    space around it, the key the next call of [login] logs on with: as the
    refresh token and alone when it starts with [eyJ] or [eyA], as the
    login key beside the account name otherwise; no password is sent. *)
Theorem saved_key_is_used_by_login
  (s : State) (lead core trail username password : string) (secret : option string) :
  all_white lead -> all_white trail -> trimmed core -> core <> "" ->
  exists s' options,
    run (Running s) [loginKey (lead +:+ core +:+ trail); Login username password secret]
      = Running s' /\
    logOnCalls s' = logOnCalls s ++ [options] /\
    ((exists rest, core = "eyJ" +:+ rest \/ core = "eyA" +:+ rest) ->
     options = {| o_accountName := None; o_password := None; o_loginKey := None;
                  o_refreshToken := Some core; o_machineAuthToken := None;
                  o_shaSentryfile := None; o_twoFactorCode := None |}) /\
    ((forall rest, core <> "eyJ" +:+ rest /\ core <> "eyA" +:+ rest) ->
     options = {| o_accountName := Some username; o_password := None;
                  o_loginKey := Some core; o_refreshToken := None;
                  o_machineAuthToken := None; o_shaSentryfile := None;
                  o_twoFactorCode := None |}) /\
    logins s' !! length (logins s) = Some Pending.
Proof.
  intros Hlead Htrail Hcore Hc.
  pose proof (trim_spec lead core trail Hlead Htrail Hcore) as Htrim.
  assert (Hkey : trim (lead +:+ core +:+ trail) <> "") by now rewrite Htrim.
  pose proof (saved_key_is_loaded (this s) _ (disk s) Hkey) as Hload.
  rewrite Htrim in Hload.
  destruct (key_options_spelled username core) as [Hrefresh Hkeyed].
  eexists. exists (key_options username core). split; [reflexivity |].
  unfold login. cbn [this disk with_disk]. rewrite Hload.
  cbn [loginWithKey start_login logOnCalls with_logOnCalls once with_handlers with_logins
       logins with_disk].
  split; [reflexivity |]. split; [exact Hrefresh |]. split; [exact Hkeyed |].
  rewrite lookup_app_r by lia. now rewrite Nat.sub_diag.
Qed.

Lemma saved_key_is_used_by_login_witness :
  exists s',
    run (Running sample_auth)
        [loginKey (String (ascii_of_nat 160) "s3ss10n-k3y "); Login "deepscope" "hunter2" None]
      = Running s' /\
    logOnCalls s'
    = [{| o_accountName := Some "deepscope"; o_password := None;
          o_loginKey := Some "s3ss10n-k3y"; o_refreshToken := None;
          o_machineAuthToken := None; o_shaSentryfile := None;
          o_twoFactorCode := None |}] /\
    logins s' !! 0 = Some Pending.
Proof.
  destruct (saved_key_is_used_by_login sample_auth (String (ascii_of_nat 160) "")
              "s3ss10n-k3y" " " "deepscope" "hunter2" None)
    as (s' & options & Hrun & Hcalls & _ & Hkeyed & Hlogin).
  - now apply all_white_test.
  - now apply all_white_test.
  - change "s3ss10n-k3y" with (trim "s3ss10n-k3y"). apply trimmed_trim.
  - discriminate.
  - exists s'. split; [exact Hrun |]. split; [| exact Hlogin].
    rewrite Hcalls, Hkeyed; [reflexivity |]. intros rest. split; discriminate.
Defined.

(** X21. Without a key file, [login] logs on with the password, and hands back
    to the client the token and the sentry bytes the client handed over
    before. *)
Theorem password_login_carries_saved_session
  (s : State) (token bytes username password : string) (secret : option string) :
  separate_files (this s) ->
  access (loginKeyPath (this s)) (disk s) = false ->
  token <> "" ->
  exists s',
    run (Running s) [machineAuthToken (Plain (VStr token)); sentry bytes;
                     Login username password secret] = Running s' /\
    logOnCalls s'
    = logOnCalls s
      ++ [{| o_accountName := Some username;
             o_password := Some password;
             o_loginKey := None;
             o_refreshToken := None;
             o_machineAuthToken := Some (VStr token);
             o_shaSentryfile := Some bytes;
             o_twoFactorCode :=
               match secret with
               | Some sec => if String.eqb sec "" then None else Some (generateAuthCode s sec)
               | None => None
               end |}].
Proof.
  intros (Hts & Hkt & Hks) Hnokey Htoken.
  eexists. split; [reflexivity |].
  cbn [this disk with_disk today generateAuthCode].
  rewrite saveSessionData_token by discriminate. cbn [fst].
  rewrite saveSessionData_sentry by congruence. cbn [fst files dirs].
  set (fs := {| dirs := _; files := _ |}).
  assert (Hkeyfile : files fs !! loginKeyPath (this s) = None).
  { unfold fs. cbn [files]. rewrite !lookup_insert_ne by congruence.
    unfold access in Hnokey. now destruct (files (disk s) !! loginKeyPath (this s)). }
  assert (Htruthy : truthy (Some (VStr token)) = true).
  { cbn. apply negb_true_iff. now apply String.eqb_neq. }
  assert (Htokenfile : loadMachineAuthToken (this s) fs = VStr token).
  { apply (loaded_structured (this s) (today s)); [| reflexivity | exact Htruthy].
    unfold fs. cbn [files]. rewrite lookup_insert_ne by congruence.
    rewrite lookup_insert_eq. unfold token_text. now rewrite Htruthy. }
  assert (Hsentry : loadSentryFile (this s) fs = Some bytes).
  { unfold loadSentryFile, access, readFile, fs. cbn [files]. now rewrite lookup_insert_eq. }
  unfold login. cbn [this disk with_disk].
  unfold loadLoginKey, access. rewrite Hkeyfile. cbn [negb].
  rewrite Htokenfile, Hsentry, Htruthy.
  reflexivity.
Qed.

Lemma password_login_carries_saved_session_witness :
  exists s',
    run (Running (constructed sample_fields (fun _ => "2F9J5") "2024-01-01T00:00:00.000Z"
                    empty_disk))
        [machineAuthToken (Plain (VStr "8f3a-machine-token")); sentry "0123456789abcdefghij";
         Login "deepscope" "hunter2" (Some "c2VjcmV0")] = Running s' /\
    logOnCalls s'
    = [] ++ [{| o_accountName := Some "deepscope";
                o_password := Some "hunter2";
                o_loginKey := None;
                o_refreshToken := None;
                o_machineAuthToken := Some (VStr "8f3a-machine-token");
                o_shaSentryfile := Some "0123456789abcdefghij";
                o_twoFactorCode := Some "2F9J5" |}].
Proof.
  apply (password_login_carries_saved_session
           (constructed sample_fields (fun _ => "2F9J5") "2024-01-01T00:00:00.000Z" empty_disk)
           "8f3a-machine-token" "0123456789abcdefghij" "deepscope" "hunter2" (Some "c2VjcmV0")).
  - repeat split; discriminate.
  - reflexivity.
  - discriminate.
Defined.

(** *** The promise of a call *)

Lemma settle_resolved (p q : nat) (s : State) :
  pending_or_resolved p s -> pending_or_resolved p (settle q Resolved s).
Proof.
  unfold pending_or_resolved, settle. intros H.
  destruct (logins s !! q) as [[] |] eqn:Hq; try assumption.
  cbn [logins with_logins]. destruct (Nat.eq_dec q p) as [-> | Hne].
  - right. apply list_lookup_insert_eq. now apply lookup_lt_Some in Hq.
  - now rewrite list_lookup_insert_ne.
Qed.

Lemma settle_resolves (p : nat) (s : State) :
  pending_or_resolved p s -> logins (settle p Resolved s) !! p = Some Resolved.
Proof.
  unfold pending_or_resolved, settle. intros [H | H]; rewrite H; [| assumption].
  cbn [logins with_logins]. apply list_lookup_insert_eq. now apply lookup_lt_Some in H.
Qed.

Lemma logins_loggedOnHandler (h : Handler) (found : Internals) (s : State) :
  logins (loggedOnHandler h found s) = logins (settle (h_login h) Resolved s).
Proof.
  unfold loggedOnHandler.
  assert (H : forall s1 s2, logins s1 = logins s2 ->
                logins (settle (h_login h) Resolved s1) = logins (settle (h_login h) Resolved s2)).
  { intros s1 s2 E. unfold settle. rewrite E.
    destruct (logins s2 !! h_login h) as [[] |]; cbn [logins with_logins]; congruence. }
  destruct (h_method h); [| destruct (found_token found)]; apply H;
    cbn [logins with_disk]; now rewrite logins_removeListener.
Qed.

Lemma loggedOnHandler_pending_or_resolved (p : nat) (h : Handler) (found : Internals) (s : State) :
  pending_or_resolved p s -> pending_or_resolved p (loggedOnHandler h found s).
Proof.
  intros H. unfold pending_or_resolved. rewrite logins_loggedOnHandler.
  now apply settle_resolved.
Qed.

Lemma fold_loggedOn_handlers (p : nat) (found : Internals) (hs : list Handler) (s : State) :
  pending_or_resolved p s ->
  pending_or_resolved p (fold_left (call_handler (emitted_loggedOn found)) hs s).
Proof.
  revert s. induction hs as [| h hs IH]; intros s Hp; [exact Hp |].
  cbn [fold_left]. apply IH. unfold call_handler.
  apply loggedOnHandler_pending_or_resolved. unfold pending_or_resolved in *.
  now rewrite logins_removeListener.
Qed.

Lemma login_starts (username password : string) (secret : option string) (s : State) :
  exists method options,
    login username password secret s = start_login method options s.
Proof.
  unfold login. destruct (loadLoginKey (this s) (disk s)); eexists _, _; reflexivity.
Qed.

(** X22. The promise [login] returns is resolved by the next 'loggedOn' event of
    the client, which also sets the disconnect counter to zero, and
    rejected by the next 'error' event, with the error of the client, as
    long as the watchdog lets the process live. *)
Theorem login_settles_with_the_next_event
  (s : State) (username password : string) (secret : option string) :
  (forall found, exists s',
     run (Running s) [Login username password secret; loggedOn found] = Running s' /\
     logins s' !! length (logins s) = Some Resolved /\
     disconnectCount s' = 0) /\
  (forall e, S (disconnectCount s) < MAX_DISCONNECTS -> exists s',
     run (Running s) [Login username password secret; error e] = Running s' /\
     logins s' !! length (logins s) = Some (Rejected (as_Error e))).
Proof.
  destruct (login_starts username password secret s) as (method & options & Hlogin).
  set (p := length (logins s)).
  set (s1 := login username password secret s) in *.
  assert (Hpending : logins s1 !! p = Some Pending).
  { rewrite Hlogin. cbn [start_login logins with_logOnCalls once with_handlers with_logins].
    rewrite lookup_app_r by (unfold p; lia). unfold p. now rewrite Nat.sub_diag. }
  assert (Hhandlers : handlers s1
                      = handlers s ++ [{| h_event := on_loggedOn; h_method := method; h_login := p |};
                                       {| h_event := on_error; h_method := method; h_login := p |}]).
  { rewrite Hlogin. cbn [start_login handlers with_logOnCalls once with_handlers with_logins].
    now rewrite <- app_assoc. }
  split.
  - intros found. eexists. split; [reflexivity |].
    cbn [logins with_disk disconnectCount]. rewrite count_emit_to_logins.
    split; [| reflexivity].
    unfold emit_to_logins. cbn [event_of handlers with_disconnectCount]. fold s1.
    rewrite Hhandlers, List.filter_app. cbn [List.filter h_event EventName_eqb app].
    rewrite fold_left_app. cbn [fold_left].
    set (s2 := fold_left _ _ _).
    assert (Hp2 : pending_or_resolved p s2).
    { apply fold_loggedOn_handlers. left. exact Hpending. }
    unfold call_handler. rewrite logins_loggedOnHandler. cbn [h_login].
    apply settle_resolves. unfold pending_or_resolved in *.
    now rewrite logins_removeListener.
  - intros e Hcount.
    set (s2 := with_disconnectCount (disconnectCount s1 + 1) s1).
    assert (Hstep : step s1 (error e) = Running (emit_to_logins (emitted_error e) s2)).
    { assert (Hc2 : disconnectCount s2 = S (disconnectCount s)).
      { unfold s2, s1. cbn [disconnectCount with_disconnectCount].
        rewrite count_login. apply Nat.add_1_r. }
      unfold step, handleDisconnect. fold s2. rewrite Hc2.
      apply Nat.leb_gt in Hcount. now rewrite Hcount. }
    exists (emit_to_logins (emitted_error e) s2). split; [exact Hstep |].
    unfold emit_to_logins. cbn [event_of]. unfold s2 at 1. cbn [handlers with_disconnectCount].
    rewrite Hhandlers, List.filter_app. cbn [List.filter h_event EventName_eqb app].
    rewrite fold_left_app. cbn [fold_left].
    set (hs := List.filter _ (handlers s)).
    destruct (fold_error_handlers p e hs s2) as [_ Hp3]; [left; exact Hpending |].
    cbv zeta in Hp3. set (s3 := fold_left _ hs s2) in *.
    unfold call_handler, errorHandler. cbn [h_login h_method].
    assert (Hp4 : pending_or_rejected p e
                    (removeListener {| h_event := on_loggedOn; h_method := method; h_login := p |}
                       (removeListener {| h_event := on_error; h_method := method; h_login := p |}
                          s3))).
    { unfold pending_or_rejected in *. now rewrite !logins_removeListener. }
    destruct method; apply settle_rejects; [| exact Hp4].
    unfold pending_or_rejected in *. exact Hp4.
Qed.

Lemma login_settles_with_the_next_event_witness :
  (exists s',
     run (Running sample_auth)
         [Login "deepscope" "hunter2" None;
          loggedOn {| key_candidates := []; found_token := None |}] = Running s' /\
     logins s' !! length (logins sample_auth) = Some Resolved /\
     disconnectCount s' = 0) /\
  (exists s',
     run (Running (constructed sample_fields (fun _ => "2F9J5") "2024-01-01T00:00:00.000Z"
                     empty_disk))
         [Login "deepscope" "hunter2" None; error (NonError "RateLimitExceeded")] = Running s' /\
     logins s' !! 0 = Some (Rejected (Error "RateLimitExceeded"))).
Proof.
  split.
  - exact (proj1 (login_settles_with_the_next_event sample_auth "deepscope" "hunter2" None)
             {| key_candidates := []; found_token := None |}).
  - apply (proj2 (login_settles_with_the_next_event
                    (constructed sample_fields (fun _ => "2F9J5") "2024-01-01T00:00:00.000Z"
                       empty_disk) "deepscope" "hunter2" None)
             (NonError "RateLimitExceeded")).
    vm_compute. lia.
Defined.

End LoginCalls.

(** ** The key the scan of the client finds *)

Section KeyScan.
Import JS FS SteamAuth SteamAuthSetup KeyLoginInvariants WhiteSpace Samples.

Lemma scan_keeps_first_usable (this : Fields) (candidates : list string) (fs : FS) :
  match List.find usable candidates with
  | Some key =>
      files (tryExtractLoginKeyFromClient this candidates fs) !! loginKeyPath this
        = Some (trim key) /\
      loadLoginKey this (tryExtractLoginKeyFromClient this candidates fs) = Some (trim key)
  | None => tryExtractLoginKeyFromClient this candidates fs = fs
  end.
Proof.
  revert fs. induction candidates as [| key rest IH]; intros fs; [reflexivity |].
  cbn [List.find tryExtractLoginKeyFromClient]. unfold usable at 1.
  destruct (String.eqb_spec (trim key) "") as [Hblank | Hkey]; cbn [negb].
  - rewrite (saveLoginKey_blank this key fs Hblank). apply IH.
  - pose proof (saved_key_is_loaded this key fs Hkey) as Hload.
    pose proof (saved_key_file this key fs Hkey) as Hfile.
    pose proof (saveLoginKey_saved this key fs Hkey) as Hsaved. cbv zeta in Hsaved.
    destruct (saveLoginKey this key fs) as [fs' saved].
    injection Hsaved as _ ->. now split.
Qed.

Lemma find_after_blanks (blanks others : list string) (lead core trail : string) :
  (forall b, In b blanks -> all_white b) ->
  all_white lead -> all_white trail -> trimmed core -> core <> "" ->
  List.find usable (blanks ++ (lead +:+ core +:+ trail) :: others)
  = Some (lead +:+ core +:+ trail).
Proof.
  intros Hblanks Hlead Htrail Hcore Hc.
  induction blanks as [| b blanks IH]; cbn [app List.find].
  - unfold usable. rewrite (trim_spec lead core trail Hlead Htrail Hcore).
    apply String.eqb_neq in Hc. now rewrite Hc.
  - assert (Hb : trim b = "").
    { unfold trim. rewrite trim_start_all_white; [reflexivity |]. apply Hblanks. now left. }
    unfold usable at 1. rewrite Hb. cbn [String.eqb negb].
    apply IH. intros x Hx. apply Hblanks. now right.
Qed.

Lemma same_setup_loggedOnHandler (h : Handler) (found : Internals) (s : State) :
  same_setup s (loggedOnHandler h found s).
Proof.
  unfold loggedOnHandler. cbv zeta.
  set (s1 := removeListener _ s).
  assert (H1 : same_setup s s1) by apply same_setup_removeListener.
  destruct (h_method h).
  - eapply same_setup_trans; [exact H1 | apply same_setup_settle].
  - set (s2 := with_disk _ s1).
    assert (H2 : same_setup s1 s2) by apply same_setup_with_disk.
    destruct (found_token found) as [token |].
    + set (s3 := with_disk _ s2).
      assert (H3 : same_setup s2 s3) by apply same_setup_with_disk.
      eapply same_setup_trans; [exact H1 |]. eapply same_setup_trans; [exact H2 |].
      eapply same_setup_trans; [exact H3 |]. apply same_setup_settle.
    + eapply same_setup_trans; [exact H1 |]. eapply same_setup_trans; [exact H2 |].
      apply same_setup_settle.
Qed.

Lemma same_setup_loggedOn_handlers (found : Internals) (hs : list Handler) (s : State) :
  same_setup s (fold_left (call_handler (emitted_loggedOn found)) hs s).
Proof.
  revert s. induction hs as [| h hs IH]; intros s; [apply same_setup_refl |].
  cbn [fold_left]. eapply same_setup_trans; [| apply IH].
  unfold call_handler.
  eapply same_setup_trans; [apply same_setup_removeListener |].
  apply same_setup_loggedOnHandler.
Qed.

(** X26. Of the strings the scan of the client comes upon at a 'loggedOn'
    event, the first that holds more than white space is saved as the key,
    without the white space around it, whatever the key file held before
    and whatever the scan comes upon afterwards; the next call of [login]
    logs on with it and sends no password. *)
Theorem key_found_at_login_is_used
  (s : State) (found : Internals) (blanks others : list string)
  (lead core trail username password : string) (secret : option string) :
  key_candidates found = blanks ++ (lead +:+ core +:+ trail) :: others ->
  (forall b, In b blanks -> all_white b) ->
  all_white lead -> all_white trail -> trimmed core -> core <> "" ->
  exists s' options,
    run (Running s) [loggedOn found; Login username password secret] = Running s' /\
    files (disk s') !! loginKeyPath (this s) = Some core /\
    logOnCalls s' = logOnCalls s ++ [options] /\
    ((exists rest, core = "eyJ" +:+ rest \/ core = "eyA" +:+ rest) ->
     options = {| o_accountName := None; o_password := None; o_loginKey := None;
                  o_refreshToken := Some core; o_machineAuthToken := None;
                  o_shaSentryfile := None; o_twoFactorCode := None |}) /\
    ((forall rest, core <> "eyJ" +:+ rest /\ core <> "eyA" +:+ rest) ->
     options = {| o_accountName := Some username; o_password := None;
                  o_loginKey := Some core; o_refreshToken := None;
                  o_machineAuthToken := None; o_shaSentryfile := None;
                  o_twoFactorCode := None |}).
Proof.
  intros Hfound Hblanks Hlead Htrail Hcore Hc.
  pose proof (trim_spec lead core trail Hlead Htrail Hcore) as Htrim.
  destruct (key_options_spelled username core) as [Hrefresh Hkeyed].
  eexists. exists (key_options username core). split; [reflexivity |].
  set (s0 := emit_to_logins (emitted_loggedOn found) (with_disconnectCount 0 s)).
  assert (Hsame : same_setup (with_disconnectCount 0 s) s0)
    by apply same_setup_loggedOn_handlers.
  destruct Hsame as [Hthis Hcalls _]. cbn [this logOnCalls with_disconnectCount] in Hthis, Hcalls.
  pose proof (scan_keeps_first_usable (this s0) (key_candidates found) (disk s0)) as Hscan.
  assert (Hfind : List.find usable (key_candidates found) = Some (lead +:+ core +:+ trail))
    by (rewrite Hfound; now apply find_after_blanks).
  rewrite Hfind, Htrim in Hscan. destruct Hscan as [Hfile Hload].
  unfold login. cbn [this disk with_disk]. rewrite Hload.
  cbn [loginWithKey start_login logOnCalls with_logOnCalls once with_handlers with_logins
       logins with_disk this disk].
  rewrite Hcalls, <- Hthis. now repeat split.
Qed.

Lemma key_found_at_login_is_used_witness :
  exists s',
    run (Running sample_auth)
        [loggedOn {| key_candidates :=
                       ["   "; String (ascii_of_nat 160) ""; " eyAfresh.token "; "another"];
                     found_token := None |};
         Login "deepscope" "hunter2" None]
      = Running s' /\
    files (disk s') !! ("/srv/app", "loginKey_deepscope.txt") = Some "eyAfresh.token" /\
    logOnCalls s'
    = [{| o_accountName := None; o_password := None; o_loginKey := None;
          o_refreshToken := Some "eyAfresh.token"; o_machineAuthToken := None;
          o_shaSentryfile := None; o_twoFactorCode := None |}].
Proof.
  destruct (key_found_at_login_is_used sample_auth
              {| key_candidates :=
                   ["   "; String (ascii_of_nat 160) ""; " eyAfresh.token "; "another"];
                 found_token := None |}
              ["   "; String (ascii_of_nat 160) ""] ["another"]
              " " "eyAfresh.token" " " "deepscope" "hunter2" None)
    as (s' & options & Hrun & Hfile & Hcalls & Hrefresh & _).
  - reflexivity.
  - intros b [<- | [<- | []]]; now apply all_white_test.
  - now apply all_white_test.
  - now apply all_white_test.
  - change "eyAfresh.token" with (trim "eyAfresh.token"). apply trimmed_trim.
  - discriminate.
  - exists s'. split; [exact Hrun |]. split; [exact Hfile |].
    rewrite Hcalls, Hrefresh; [reflexivity |]. exists "fresh.token". now right.
Defined.

End KeyScan.

(** ** Waiting for the coordinator *)

Section WaitForReady.
Import JS GCConnection GCWait.

(** *** The flags *)

Lemma ready_is_connected (es : list Event) (c : GCConnection) :
  (isReady c = true -> isConnected c = true) ->
  isReady (GCConnection.run c es) = true -> isConnected (GCConnection.run c es) = true.
Proof.
  revert c. induction es as [| e es IH]; intros c Hc; [exact Hc |].
  cbn [GCConnection.run fold_left]. apply IH.
  destruct e as [| reason | status | err]; cbn [handle]; try (intros; reflexivity || discriminate).
  destruct (status =? 2)%Z; [discriminate |].
  destruct (status =? 4)%Z; [exact Hc |].
  destruct (status =? 3)%Z; cbn [negb]; [exact Hc | discriminate].
Qed.

(** X10. Whenever the connection is ready it is connected: the two tests of
    [isGcReady] agree, and so do [isGcReady] and the test [waitForReady]
    makes. *)
Theorem ready_implies_connected (es : list Event) :
  let c := GCConnection.run constructed es in
  (isReady c = true -> isConnected c = true) /\ isGcReady c = isReady c.
Proof.
  intros c.
  assert (H : isReady c = true -> isConnected c = true).
  { apply ready_is_connected. discriminate. }
  split; [exact H |]. unfold isGcReady.
  destruct (isReady c); [now rewrite H | reflexivity].
Qed.

(** *** The calls leave each other alone *)

Lemma eqb_of_call (k : nat) (l x : Listener) :
  Listener_eqb l x = true -> of_call k x = of_call k l.
Proof.
  destruct l as [i | i], x as [j | j]; cbn; try discriminate;
    intros H%Nat.eqb_eq; now subst.
Qed.

Lemma view_with_connection (k : nat) (c : GCConnection) (w : World) :
  view k (with_connection c w) = view k w.
Proof. reflexivity. Qed.

Lemma view_with_clock (k : nat) (t : N) (w : World) : view k (with_clock t w) = view k w.
Proof. reflexivity. Qed.

Lemma view_on (k : nat) (l : Listener) (w : World) :
  view k (on l w) = if of_call k l then v_on l (view k w) else view k w.
Proof.
  unfold view, on, v_on. cbn [listeners timers waits with_listeners v_listeners v_timers v_wait].
  rewrite List.filter_app. cbn [List.filter].
  destruct (of_call k l); [reflexivity | now rewrite app_nil_r].
Qed.

Lemma view_removeListener (k : nat) (l : Listener) (w : World) :
  view k (removeListener l w) = if of_call k l then v_removeListener l (view k w) else view k w.
Proof.
  unfold removeListener, v_removeListener. destruct (of_call k l) eqn:Hl.
  - cbn [view v_listeners].
    rewrite (remove_last_filter_sub (Listener_eqb l) (of_call k)).
    + destruct (ProfileFetcher.remove_last (Listener_eqb l) (listeners w)); reflexivity.
    + intros x Hx. now rewrite (eqb_of_call k l x Hx).
  - destruct (ProfileFetcher.remove_last (Listener_eqb l) (listeners w)) as [ls |] eqn:E;
      [| reflexivity].
    unfold view. cbn [listeners timers waits with_listeners].
    rewrite (remove_last_filter_disj _ (of_call k) _ _
               (fun x Hx => eq_trans (eqb_of_call k l x Hx) Hl) E).
    reflexivity.
Qed.

Lemma view_setTimeout (k j : nat) (timeout : N) (w : World) :
  view k (setTimeout j timeout w)
  = if Nat.eqb j k then v_setTimeout j (clock w + delay_of timeout) (view k w) else view k w.
Proof.
  unfold view, setTimeout, v_setTimeout.
  cbn [listeners timers waits with_timers v_listeners v_timers v_wait].
  rewrite List.filter_app. cbn [List.filter]. unfold on_handle at 2. cbn [t_handle].
  destruct (Nat.eqb j k); [reflexivity | now rewrite app_nil_r].
Qed.

Lemma filter_cleared (k j : nat) (ts : list Timer) :
  List.filter (on_handle k) (List.filter (fun t => negb (Nat.eqb (t_handle t) j)) ts)
  = if Nat.eqb j k then [] else List.filter (on_handle k) ts.
Proof.
  destruct (Nat.eqb_spec j k) as [-> | Hne].
  - induction ts as [| t ts IH]; [reflexivity |].
    cbn [List.filter]. destruct (Nat.eqb (t_handle t) k) eqn:E; cbn [negb]; [exact IH |].
    cbn [List.filter]. unfold on_handle at 1. now rewrite E.
  - induction ts as [| t ts IH]; [reflexivity |].
    cbn [List.filter]. destruct (Nat.eqb_spec (t_handle t) j) as [Ej | Ej]; cbn [negb].
    + rewrite IH. unfold on_handle at 2. rewrite Ej.
      apply Nat.eqb_neq in Hne. now rewrite Hne.
    + cbn [List.filter]. now rewrite IH.
Qed.

Lemma view_clearTimeout (k j : nat) (w : World) :
  view k (clearTimeout j w) = if Nat.eqb j k then v_clearTimeout (view k w) else view k w.
Proof.
  unfold view, clearTimeout, v_clearTimeout.
  cbn [listeners timers waits with_timers v_listeners v_timers v_wait].
  rewrite filter_cleared. now destruct (Nat.eqb j k).
Qed.

Lemma view_settle (k j : nat) (outcome : promise) (w : World) :
  view k (settle j outcome w) = if Nat.eqb j k then v_settle outcome (view k w) else view k w.
Proof.
  unfold settle, v_settle. destruct (Nat.eqb_spec j k) as [-> | Hne].
  - cbn [view v_wait]. destruct (waits w !! k) as [[] |] eqn:E; try reflexivity.
    unfold view. cbn [listeners timers waits with_waits].
    rewrite list_lookup_insert_eq; [reflexivity |]. now apply lookup_lt_Some in E.
  - destruct (waits w !! j) as [[] |]; try reflexivity.
    unfold view. cbn [listeners timers waits with_waits].
    now rewrite list_lookup_insert_ne.
Qed.

Lemma view_readyCallback (k j : nat) (w : World) :
  view k (readyCallback j w) = if Nat.eqb j k then v_readyCallback j (view k w) else view k w.
Proof.
  unfold readyCallback, v_readyCallback.
  rewrite view_settle, view_removeListener, view_clearTimeout. cbn [of_call].
  now destruct (Nat.eqb j k).
Qed.

Lemma view_call_listener (k : nat) (l : Listener) (w : World) :
  view k (call_listener w l) = if of_call k l then v_call_listener l (view k w) else view k w.
Proof.
  destruct l as [j | j]; cbn [call_listener v_call_listener of_call].
  - rewrite view_readyCallback, view_removeListener. cbn [of_call]. now destruct (Nat.eqb j k).
  - now destruct (Nat.eqb j k).
Qed.

Lemma view_timeoutCallback (k j : nat) (w : World) :
  view k (timeoutCallback j w)
  = if Nat.eqb j k then v_timeoutCallback j (view k w) else view k w.
Proof.
  unfold timeoutCallback, v_timeoutCallback.
  rewrite view_settle, !view_removeListener. cbn [of_call]. now destruct (Nat.eqb j k).
Qed.

Lemma wait_has_timer_view (k : nat) (w : World) :
  has_timer k w = match v_timers (view k w) with [] => false | _ :: _ => true end.
Proof.
  unfold has_timer, view. cbn [v_timers].
  induction (timers w) as [| t ts IH]; cbn [existsb List.filter]; [reflexivity |].
  unfold on_handle at 1. destruct (Nat.eqb (t_handle t) k); [reflexivity | exact IH].
Qed.

Lemma view_fire (k : nat) (t : Timer) (w : World) :
  view k (fire w t) = if on_handle k t then v_fire k (view k w) else view k w.
Proof.
  unfold fire, v_fire, on_handle. destruct (Nat.eqb_spec (t_handle t) k) as [-> | Hne].
  - rewrite wait_has_timer_view. destruct (v_timers (view k w)) eqn:E; [reflexivity |].
    rewrite view_timeoutCallback, view_clearTimeout, !Nat.eqb_refl. reflexivity.
  - destruct (has_timer (t_handle t) w); [| reflexivity].
    rewrite view_timeoutCallback, view_clearTimeout.
    apply Nat.eqb_neq in Hne. now rewrite Hne.
Qed.

(** *** What the listeners and the timers do to a call in one of its phases *)

Lemma wait_phase_call_listener (k : nat) (now : N) (v : View) (l : Listener) :
  phase k now v -> of_call k l = true ->
  v_call_listener l v = match l with readyHandler _ => granted v | statusHandler _ => v end.
Proof.
  intros Hv Hl. destruct l as [j | j]; [| reflexivity].
  cbn [of_call] in Hl. apply Nat.eqb_eq in Hl. subst j.
  destruct Hv; try reflexivity.
  unfold v_call_listener, v_readyCallback, v_removeListener, v_clearTimeout, v_settle,
    granted, is_waiting, waiting.
  cbn [v_listeners v_timers v_wait ProfileFetcher.remove_last Listener_eqb].
  rewrite Nat.eqb_refl.
  cbn [v_listeners v_timers v_wait ProfileFetcher.remove_last Listener_eqb].
  rewrite Nat.eqb_refl. reflexivity.
Qed.

Lemma wait_phase_fire (k : nat) (now : N) (v : View) :
  phase k now v ->
  v_fire k v = if is_waiting v then over (Rejected (Error "GC connection timeout")) else v.
Proof.
  intros Hv. destruct Hv; try reflexivity.
  unfold v_fire, v_timeoutCallback, v_removeListener, v_clearTimeout, v_settle,
    is_waiting, waiting.
  cbn [v_listeners v_timers v_wait ProfileFetcher.remove_last Listener_eqb].
  rewrite Nat.eqb_refl.
  cbn [v_listeners v_timers v_wait ProfileFetcher.remove_last Listener_eqb].
  rewrite Nat.eqb_refl. reflexivity.
Qed.

Lemma phase_granted (k : nat) (now : N) (v : View) : phase k now v -> phase k now (granted v).
Proof. intros Hv. destruct Hv; cbn; constructor; assumption. Qed.

Lemma granted_idem (v : View) : granted (granted v) = granted v.
Proof. unfold granted. destruct (is_waiting v) eqn:E; [reflexivity | now rewrite E]. Qed.

Lemma wait_clock_removeListener (l : Listener) (w : World) : clock (removeListener l w) = clock w.
Proof. unfold removeListener. now destruct (ProfileFetcher.remove_last _ _). Qed.

Lemma wait_clock_settle (k : nat) (o : promise) (w : World) : clock (settle k o w) = clock w.
Proof. unfold settle. now destruct (waits w !! k) as [[] |]. Qed.

Lemma wait_clock_call_listener (w : World) (l : Listener) : clock (call_listener w l) = clock w.
Proof.
  destruct l; [| reflexivity]. unfold call_listener, readyCallback.
  rewrite wait_clock_settle, wait_clock_removeListener. cbn [clearTimeout clock with_timers].
  apply wait_clock_removeListener.
Qed.

Lemma wait_clock_fire (w : World) (t : Timer) : clock (fire w t) = clock w.
Proof.
  unfold fire, timeoutCallback. destruct (has_timer _ _); [| reflexivity].
  now rewrite wait_clock_settle, !wait_clock_removeListener.
Qed.

Lemma connection_removeListener (l : Listener) (w : World) :
  connection (removeListener l w) = connection w.
Proof. unfold removeListener. now destruct (ProfileFetcher.remove_last _ _). Qed.

Lemma connection_settle (k : nat) (o : promise) (w : World) :
  connection (settle k o w) = connection w.
Proof. unfold settle. now destruct (waits w !! k) as [[] |]. Qed.

Lemma connection_call_listener (w : World) (l : Listener) :
  connection (call_listener w l) = connection w.
Proof.
  destruct l; [| reflexivity]. unfold call_listener, readyCallback.
  rewrite connection_settle, connection_removeListener.
  cbn [clearTimeout connection with_timers]. apply connection_removeListener.
Qed.

Lemma connection_fire (w : World) (t : Timer) : connection (fire w t) = connection w.
Proof.
  unfold fire, timeoutCallback. destruct (has_timer _ _); [| reflexivity].
  now rewrite connection_settle, !connection_removeListener.
Qed.

Lemma fold_kept {A B} (f : World -> A -> World) (g : World -> B) (xs : list A) (w : World) :
  (forall w x, g (f w x) = g w) -> g (fold_left f xs w) = g w.
Proof.
  intros Hf. revert w. induction xs as [| x xs IH]; intros w; [reflexivity |].
  cbn [fold_left]. now rewrite IH, Hf.
Qed.

(** The listeners called for an event, and the timers fired as time
    passes, seen from call [k]. *)
Lemma fold_call_listener (k : nat) (now : N) (ls : list Listener) (w : World) :
  phase k now (view k w) ->
  view k (fold_left call_listener ls w)
  = if existsb (Listener_eqb (readyHandler k)) ls then granted (view k w) else view k w.
Proof.
  revert w. induction ls as [| l ls IH]; intros w Hv; [reflexivity |].
  cbn [fold_left existsb].
  assert (Hl : view k (call_listener w l)
               = if Listener_eqb (readyHandler k) l then granted (view k w) else view k w).
  { rewrite view_call_listener. destruct (of_call k l) eqn:Hk.
    - rewrite (wait_phase_call_listener k now _ l Hv Hk).
      destruct l as [j | j]; cbn [of_call Listener_eqb] in *; [| reflexivity].
      now rewrite Nat.eqb_sym, Hk.
    - destruct l as [j | j]; cbn [of_call Listener_eqb] in *; [| reflexivity].
      now rewrite Nat.eqb_sym, Hk. }
  rewrite IH.
  - rewrite Hl. destruct (Listener_eqb (readyHandler k) l); cbn [orb]; [| reflexivity].
    rewrite granted_idem. now destruct (existsb _ ls).
  - rewrite Hl.
    destruct (Listener_eqb (readyHandler k) l); [now apply phase_granted | exact Hv].
Qed.

Lemma phase_expired (k : nat) (now : N) (v : View) :
  phase k now v ->
  phase k now (if is_waiting v then over (Rejected (Error "GC connection timeout")) else v).
Proof. intros Hv. destruct Hv; cbn; constructor; assumption. Qed.

Lemma fold_fire (k : nat) (now : N) (ts : list Timer) (w : World) :
  phase k now (view k w) ->
  view k (fold_left fire ts w)
  = if existsb (on_handle k) ts && is_waiting (view k w)
    then over (Rejected (Error "GC connection timeout"))
    else view k w.
Proof.
  revert w. induction ts as [| t ts IH]; intros w Hv; [reflexivity |].
  cbn [fold_left existsb].
  assert (Ht : view k (fire w t)
               = if on_handle k t && is_waiting (view k w)
                 then over (Rejected (Error "GC connection timeout")) else view k w).
  { rewrite view_fire. destruct (on_handle k t); [| reflexivity].
    now rewrite (wait_phase_fire k now). }
  rewrite IH.
  - rewrite Ht. destruct (on_handle k t); cbn [orb andb]; [| reflexivity].
    destruct (is_waiting (view k w)) eqn:E; cbn [is_waiting over v_wait];
      [now rewrite andb_false_r | now rewrite E, andb_false_r].
  - rewrite Ht.
    destruct (on_handle k t); cbn [andb]; [now apply phase_expired | exact Hv].
Qed.

(** *** One step, seen from call [k] *)

Lemma existsb_filter {A} (p q : A -> bool) (l : list A) :
  existsb p (List.filter q l) = existsb (fun x => q x && p x) l.
Proof.
  induction l as [| x l IH]; [reflexivity |].
  cbn [List.filter existsb]. destruct (q x); cbn [existsb andb]; now rewrite IH.
Qed.

Lemma existsb_insert (p : Timer -> bool) (t : Timer) (ts : list Timer) :
  existsb p (insert_by_due t ts) = p t || existsb p ts.
Proof.
  induction ts as [| u ts IH]; [reflexivity |].
  cbn [insert_by_due]. destruct (t_due t <? t_due u)%N; [reflexivity |].
  cbn [existsb]. rewrite IH. destruct (p t), (p u); reflexivity.
Qed.

Lemma existsb_by_due (p : Timer -> bool) (ts : list Timer) :
  existsb p (by_due ts) = existsb p ts.
Proof.
  unfold by_due.
  assert (H : forall acc, existsb p (fold_left (fun sorted t => insert_by_due t sorted) ts acc)
                          = existsb p acc || existsb p ts).
  { induction ts as [| t ts IH]; intros acc; [now rewrite orb_false_r |].
    cbn [fold_left existsb]. rewrite IH, existsb_insert.
    destruct (p t), (existsb p acc); reflexivity. }
  now rewrite H.
Qed.

Lemma phase_waiting (k : nat) (now : N) (w : World) :
  phase k now (view k w) -> is_waiting (view k w) = true ->
  exists due, view k w = waiting k due /\ (now < due)%N.
Proof.
  intros Hv Hw. remember (view k w) as v eqn:Ev.
  destruct Hv as [| due Hdue | |]; try discriminate. now exists due.
Qed.

Lemma In_view_listeners (k : nat) (l : Listener) (w : World) :
  In l (v_listeners (view k w)) -> In l (listeners w).
Proof. unfold view. cbn [v_listeners]. now intros [H _]%filter_In. Qed.

Lemma emit_view (k : nat) (e : Event) (w : World) :
  phase k (clock w) (view k w) ->
  view k (emit e w) = match e with connectedToGC => granted (view k w) | _ => view k w end.
Proof.
  intros Hv. unfold emit.
  rewrite (fold_call_listener k (clock w)) by exact Hv.
  rewrite view_with_connection, existsb_filter.
  destruct (existsb _ (listeners w)) eqn:E.
  - apply existsb_exists in E as (l & _ & [Hl He]%andb_true_iff).
    destruct l as [j | j]; [| discriminate].
    destruct e; (reflexivity || discriminate).
  - destruct e; try reflexivity.
    unfold granted. destruct (is_waiting (view k w)) eqn:W; [| reflexivity].
    destruct (phase_waiting k _ w Hv W) as (due & Hdue & _).
    assert (Hin : In (readyHandler k) (listeners w)).
    { apply (In_view_listeners k). rewrite Hdue. right. now left. }
    assert (Htrue : existsb (fun x => listens_to connectedToGC x
                                      && Listener_eqb (readyHandler k) x) (listeners w) = true).
    { apply existsb_exists. exists (readyHandler k). split; [exact Hin |].
      cbn. apply Nat.eqb_refl. }
    congruence.
Qed.

Lemma advance_view (k : nat) (dt : N) (w : World) :
  phase k (clock w) (view k w) ->
  view k (advance dt w) = expired (clock w + dt) (view k w).
Proof.
  intros Hv. unfold advance.
  rewrite (fold_fire k (clock w)) by exact Hv.
  rewrite view_with_clock, existsb_by_due, existsb_filter. unfold expired.
  cbn [clock with_clock timers].
  assert (H : existsb (fun x => (t_due x <=? clock w + dt)%N && on_handle k x) (timers w)
              = existsb (fun t => (t_due t <=? clock w + dt)%N) (v_timers (view k w))).
  { unfold view. cbn [v_timers]. rewrite existsb_filter.
    induction (timers w) as [| t ts IH]; [reflexivity |].
    cbn [existsb]. rewrite IH. now rewrite (andb_comm (on_handle k t)). }
  rewrite H. now rewrite andb_comm.
Qed.

Lemma wait_view (k : nat) (timeout : N) (w : World) :
  consistent w ->
  view k (waitForReady timeout w)
  = if Nat.eqb k (length (waits w))
    then (if isReady (connection w) then over Resolved
          else waiting k (clock w + delay_of timeout))
    else view k w.
Proof.
  intros Hw. specialize (Hw k). unfold waitForReady.
  destruct (Nat.eqb_spec k (length (waits w))) as [-> | Hne].
  - assert (Hnone : v_wait (view (length (waits w)) w) = None)
      by (unfold view; cbn [v_wait]; apply lookup_ge_None_2; lia).
    assert (Hu : view (length (waits w)) w = unborn)
      by (destruct Hw; (reflexivity || discriminate)).
    destruct (isReady (connection w)).
    + unfold view in *. cbn [listeners timers waits with_waits v_listeners v_timers v_wait] in *.
      injection Hu as Hl Ht _. rewrite Hl, Ht.
      rewrite lookup_app_r by lia. now rewrite Nat.sub_diag.
    + unfold once. rewrite !view_on, view_setTimeout. cbn [of_call].
      rewrite !Nat.eqb_refl.
      unfold view in *. cbn [listeners timers waits with_waits v_listeners v_timers v_wait] in *.
      injection Hu as Hl Ht _.
      unfold v_on, v_setTimeout, waiting. cbn [v_listeners v_timers v_wait clock with_waits].
      rewrite Hl, Ht. rewrite lookup_app_r by lia. now rewrite Nat.sub_diag.
  - assert (Hlookup : forall p, (waits w ++ [p]) !! k = waits w !! k).
    { intros p. destruct (Nat.lt_ge_cases k (length (waits w))) as [Hlt | Hge].
      - now rewrite lookup_app_l.
      - rewrite !lookup_ge_None_2; [reflexivity | lia |].
        rewrite length_app. cbn [length]. lia. }
    destruct (isReady (connection w)).
    + unfold view. cbn [listeners timers waits with_waits]. now rewrite Hlookup.
    + unfold once. rewrite !view_on, view_setTimeout. cbn [of_call].
      apply Nat.eqb_neq in Hne. rewrite Nat.eqb_sym, Hne.
      unfold view. cbn [listeners timers waits with_waits]. now rewrite Hlookup.
Qed.

Lemma delay_pos (timeout : N) : (0 < delay_of timeout)%N.
Proof.
  unfold delay_of. destruct (1 <=? timeout)%N eqn:E; cbn [andb]; [| lia].
  apply N.leb_le in E. destruct (timeout <=? 2147483647)%N; lia.
Qed.

Lemma wait_clock_step (w : World) (s : Step) : clock (step w s) = (clock w + duration s)%N.
Proof.
  destruct s as [timeout | e | dt]; cbn [step duration].
  - unfold waitForReady. destruct (isReady (connection w)); cbn; lia.
  - unfold emit. rewrite (fold_kept call_listener clock) by apply wait_clock_call_listener.
    cbn. lia.
  - unfold advance. now rewrite (fold_kept fire clock) by apply wait_clock_fire.
Qed.

Lemma step_view (k : nat) (w : World) (s : Step) :
  consistent w ->
  view k (step w s)
  = match s with
    | Wait timeout =>
        if Nat.eqb k (length (waits w))
        then (if isReady (connection w) then over Resolved
              else waiting k (clock w + delay_of timeout))
        else view k w
    | Emit connectedToGC => granted (view k w)
    | Emit _ => view k w
    | Advance dt => expired (clock w + dt) (view k w)
    end.
Proof.
  intros Hw. destruct s as [timeout | e | dt]; cbn [step].
  - now apply wait_view.
  - now apply emit_view.
  - now apply advance_view.
Qed.

Lemma wait_consistent_step (w : World) (s : Step) : consistent w -> consistent (step w s).
Proof.
  intros Hw k. rewrite wait_clock_step, step_view by exact Hw. specialize (Hw k).
  destruct s as [timeout | e | dt]; cbn [duration].
  - rewrite N.add_0_r. destruct (Nat.eqb k (length (waits w))); [| exact Hw].
    destruct (isReady (connection w)); constructor. pose proof (delay_pos timeout). lia.
  - rewrite N.add_0_r. destruct e; try exact Hw. now apply phase_granted.
  - unfold expired. destruct Hw as [| due Hdue | |]; cbn; try constructor.
    rewrite orb_false_r. destruct (due <=? clock w + dt)%N eqn:E; constructor.
    apply N.leb_gt in E. exact E.
Qed.

Lemma wait_consistent_init : consistent init.
Proof. intros k. unfold view, init. cbn. constructor. Qed.

Lemma wait_consistent_run (ss : list Step) (w : World) : consistent w -> consistent (run w ss).
Proof.
  revert w. induction ss as [| s ss IH]; intros w Hw; [exact Hw |].
  cbn [run fold_left]. apply IH. now apply wait_consistent_step.
Qed.

(** *** A call that waits, and a call that is over *)

Lemma view_waits (k : nat) (w : World) : waits w !! k = v_wait (view k w).
Proof. reflexivity. Qed.

Lemma wait_listening_view (k : nat) (w : World) :
  listening k w = match v_listeners (view k w) with [] => false | _ :: _ => true end.
Proof.
  unfold listening, view. cbn [v_listeners].
  induction (listeners w) as [| l ls IH]; cbn [existsb List.filter]; [reflexivity |].
  destruct (of_call k l); [reflexivity | exact IH].
Qed.

Lemma born (k : nat) (w : World) (p : promise) :
  v_wait (view k w) = Some p -> Nat.eqb k (length (waits w)) = false.
Proof.
  unfold view. cbn [v_wait]. intros H%lookup_lt_Some. apply Nat.eqb_neq. lia.
Qed.

Lemma over_step (k : nat) (q : promise) (w : World) (s : Step) :
  consistent w -> q <> Pending -> view k w = over q -> view k (step w s) = over q.
Proof.
  intros Hw Hq Hv. rewrite step_view by exact Hw.
  destruct s as [timeout | e | dt].
  - rewrite (born k w q) by now rewrite Hv. exact Hv.
  - rewrite Hv. destruct e, q; try reflexivity; congruence.
  - rewrite Hv. destruct q; try reflexivity; congruence.
Qed.

Lemma over_run (k : nat) (q : promise) (ss : list Step) (w : World) :
  consistent w -> q <> Pending -> view k w = over q -> view k (run w ss) = over q.
Proof.
  revert w. induction ss as [| s ss IH]; intros w Hw Hq Hv; [exact Hv |].
  cbn [run fold_left]. apply IH; [now apply wait_consistent_step | exact Hq |].
  now apply over_step.
Qed.

Lemma wait_waiting_step (k : nat) (due : N) (w : World) (s : Step) :
  consistent w -> view k w = waiting k due -> is_connected s = false ->
  view k (step w s)
  = if (due <=? clock w + duration s)%N
    then over (Rejected (Error "GC connection timeout"))
    else waiting k due.
Proof.
  intros Hw Hv Hs. pose proof (Hw k) as Hk. rewrite Hv in Hk.
  assert (Hdue : (clock w < due)%N) by (inversion Hk; assumption).
  rewrite step_view by exact Hw.
  destruct s as [timeout | e | dt]; cbn [duration].
  - rewrite (born k w Pending) by now rewrite Hv.
    rewrite N.add_0_r. apply N.leb_gt in Hdue. now rewrite Hdue.
  - rewrite N.add_0_r. apply N.leb_gt in Hdue. rewrite Hdue.
    destruct e; (exact Hv || discriminate).
  - rewrite Hv. unfold expired. cbn. rewrite orb_false_r.
    now destruct (due <=? clock w + dt)%N.
Qed.

Lemma quiet_run (k : nat) (due : N) (ss : list Step) (w : World) :
  consistent w -> view k w = waiting k due ->
  forallb (fun s => negb (is_connected s)) ss = true ->
  view k (run w ss)
  = if (due <=? clock w + elapsed ss)%N
    then over (Rejected (Error "GC connection timeout"))
    else waiting k due.
Proof.
  revert w. induction ss as [| s ss IH]; intros w Hw Hv Hss.
  - cbn [run fold_left elapsed fold_right]. rewrite N.add_0_r.
    pose proof (Hw k) as Hk. rewrite Hv in Hk.
    assert (Hdue : (clock w < due)%N) by (inversion Hk; assumption).
    apply N.leb_gt in Hdue. now rewrite Hdue.
  - cbn [forallb] in Hss. apply andb_true_iff in Hss as [Hs Hss].
    apply negb_true_iff in Hs.
    cbn [run fold_left]. change (fold_left step ss (step w s)) with (run (step w s) ss).
    pose proof (wait_waiting_step k due w s Hw Hv Hs) as Hstep.
    assert (Hel : elapsed (s :: ss) = (duration s + elapsed ss)%N)
      by (unfold elapsed; destruct s; cbn [fold_right duration]; lia).
    rewrite Hel.
    destruct (due <=? clock w + duration s)%N eqn:E.
    + rewrite (over_run k (Rejected (Error "GC connection timeout")) ss (step w s)
                 (wait_consistent_step w s Hw)); [| discriminate | exact Hstep].
      apply N.leb_le in E.
      assert (E' : (due <=? clock w + (duration s + elapsed ss))%N = true)
        by (apply N.leb_le; lia).
      now rewrite E'.
    + rewrite (IH (step w s) (wait_consistent_step w s Hw) Hstep Hss).
      rewrite wait_clock_step. now rewrite N.add_assoc.
Qed.

Lemma connection_step (w : World) (s : Step) :
  connection (step w s)
  = match s with Emit e => handle (connection w) e | _ => connection w end.
Proof.
  destruct s as [timeout | e | dt]; cbn [step].
  - unfold waitForReady. now destruct (isReady (connection w)).
  - unfold emit. now rewrite (fold_kept call_listener connection)
      by apply connection_call_listener.
  - unfold advance. now rewrite (fold_kept fire connection) by apply connection_fire.
Qed.

Lemma connection_run (ss : list Step) (w : World) :
  connection (run w ss) = GCConnection.run (connection w) (events ss).
Proof.
  revert w. induction ss as [| s ss IH]; intros w; [reflexivity |].
  cbn [run fold_left]. change (fold_left step ss (step w s)) with (run (step w s) ss).
  rewrite IH, connection_step. destruct s; reflexivity.
Qed.

Lemma run_snoc_step (w : World) (ss : list Step) (s : Step) :
  run w (ss ++ [s]) = step (run w ss) s.
Proof. unfold run. now rewrite fold_left_app. Qed.

(** X11. A call of [waitForReady] that finds the connection ready is granted at
    once, and registers nothing.  One that does not is granted by the
    'connectedToGC' event that arrives before the timeout has passed,
    whatever else happens meanwhile: its promise is resolved, the connection
    is ready at that moment, and neither a listener nor the timer of the
    call is left. *)
Theorem waitForReady_is_granted (before : list Step) (timeout : N) :
  let w := run init before in
  let k := length (waits w) in
  (isReady (connection w) = true ->
     let w' := waitForReady timeout w in
     waits w' !! k = Some Resolved /\ listeners w' = listeners w /\ timers w' = timers w /\
     isGcReady (connection w') = true) /\
  (isReady (connection w) = false ->
     forall between : list Step,
       forallb (fun s => negb (is_connected s)) between = true ->
       (elapsed between < delay_of timeout)%N ->
       let w' := run (waitForReady timeout w) (between ++ [Emit connectedToGC]) in
       waits w' !! k = Some Resolved /\ isGcReady (connection w') = true /\
       listening k w' = false /\ has_timer k w' = false).
Proof.
  intros w k.
  assert (Hw : consistent w) by apply wait_consistent_run, wait_consistent_init.
  split.
  - intros Hready w'. unfold w', waitForReady. rewrite Hready.
    cbn [waits listeners timers connection with_waits].
    split; [| split; [reflexivity | split; [reflexivity |]]].
    + rewrite lookup_app_r by (unfold k; lia). unfold k. now rewrite Nat.sub_diag.
    + unfold isGcReady. rewrite Hready. cbn [andb].
      unfold w in *. rewrite connection_run in *.
      apply ready_is_connected; [discriminate | exact Hready].
  - intros Hnot between Hquiet Hshort w'.
    set (w1 := waitForReady timeout w).
    assert (Hw1 : consistent w1) by apply (wait_consistent_step w (Wait timeout) Hw).
    assert (Hv1 : view k w1 = waiting k (clock w + delay_of timeout)).
    { unfold w1. rewrite wait_view by exact Hw. unfold k. now rewrite Nat.eqb_refl, Hnot. }
    assert (Hc1 : clock w1 = clock w).
    { exact (eq_trans (wait_clock_step w (Wait timeout)) (N.add_0_r _)). }
    set (w2 := run w1 between).
    assert (Hw2 : consistent w2) by now apply wait_consistent_run.
    assert (Hv2 : view k w2 = waiting k (clock w + delay_of timeout)).
    { unfold w2. rewrite (quiet_run k (clock w + delay_of timeout)) by assumption.
      rewrite Hc1.
      assert (E : (clock w + delay_of timeout <=? clock w + elapsed between)%N = false)
        by (apply N.leb_gt; lia).
      now rewrite E. }
    assert (Hv' : view k w' = over Resolved).
    { unfold w'. rewrite run_snoc_step.
      change (run (waitForReady timeout w) between) with w2.
      rewrite step_view by exact Hw2. now rewrite Hv2. }
    rewrite view_waits, wait_listening_view, wait_has_timer_view, Hv'.
    split; [reflexivity |]. split; [| split; reflexivity].
    unfold w'. rewrite run_snoc_step, connection_step. reflexivity.
Qed.

Lemma waitForReady_is_granted_witness :
  (let w' := waitForReady 30000 (run init [Emit connectedToGC; Emit (connectionStatus 4)]) in
   waits w' !! 0 = Some Resolved /\ listeners w' = [] /\ timers w' = [] /\
   isGcReady (connection w') = true) /\
  (let w' := run (waitForReady 30000 (run init [Emit (connectionStatus 3)]))
                 ([Advance 12000; Emit (connectionStatus 3); Wait 5000; Advance 6000]
                  ++ [Emit connectedToGC]) in
   waits w' !! 0 = Some Resolved /\ isGcReady (connection w') = true /\
   listening 0 w' = false /\ has_timer 0 w' = false).
Proof.
  split.
  - apply (proj1 (waitForReady_is_granted [Emit connectedToGC; Emit (connectionStatus 4)] 30000)).
    reflexivity.
  - apply (proj2 (waitForReady_is_granted [Emit (connectionStatus 3)] 30000)).
    + reflexivity.
    + reflexivity.
    + reflexivity.
Defined.

(** X12. A call of [waitForReady] that does not find the connection ready and
    sees no 'connectedToGC' event until its timeout has passed is rejected
    with the timeout error; neither a listener nor the timer of the call is
    left, and a 'connectedToGC' event that arrives later changes nothing
    for it. *)
Theorem waitForReady_times_out (before : list Step) (timeout : N) (after : list Step) :
  let w := run init before in
  let k := length (waits w) in
  isReady (connection w) = false ->
  forallb (fun s => negb (is_connected s)) after = true ->
  (delay_of timeout <= elapsed after)%N ->
  let w' := run (waitForReady timeout w) after in
  waits w' !! k = Some (Rejected (Error "GC connection timeout")) /\
  listening k w' = false /\ has_timer k w' = false /\
  forall later : list Step,
    waits (run w' later) !! k = Some (Rejected (Error "GC connection timeout")) /\
    listening k (run w' later) = false /\ has_timer k (run w' later) = false.
Proof.
  intros w k Hnot Hquiet Hlong w'.
  assert (Hw : consistent w) by apply wait_consistent_run, wait_consistent_init.
  set (w1 := waitForReady timeout w).
  assert (Hw1 : consistent w1) by apply (wait_consistent_step w (Wait timeout) Hw).
  assert (Hv1 : view k w1 = waiting k (clock w + delay_of timeout)).
  { unfold w1. rewrite wait_view by exact Hw. unfold k. now rewrite Nat.eqb_refl, Hnot. }
  assert (Hc1 : clock w1 = clock w).
  { exact (eq_trans (wait_clock_step w (Wait timeout)) (N.add_0_r _)). }
  assert (Hw' : consistent w') by now apply wait_consistent_run.
  assert (Hv' : view k w' = over (Rejected (Error "GC connection timeout"))).
  { unfold w'. fold w1. rewrite (quiet_run k (clock w + delay_of timeout)) by assumption.
    rewrite Hc1.
    assert (E : (clock w + delay_of timeout <=? clock w + elapsed after)%N = true)
      by (apply N.leb_le; lia).
    now rewrite E. }
  rewrite view_waits, wait_listening_view, wait_has_timer_view, Hv'.
  split; [reflexivity |]. split; [reflexivity |]. split; [reflexivity |].
  intros later.
  rewrite view_waits, wait_listening_view, wait_has_timer_view.
  rewrite (over_run k (Rejected (Error "GC connection timeout")) later w' Hw'
             ltac:(discriminate) Hv').
  repeat split; reflexivity.
Qed.

Lemma waitForReady_times_out_witness :
  let w' := run (waitForReady 30000 (run init [])) [Advance 29999; Emit (connectionStatus 3);
                                                    Advance 1] in
  waits w' !! 0 = Some (Rejected (Error "GC connection timeout")) /\
  listening 0 w' = false /\ has_timer 0 w' = false /\
  waits (run w' [Emit connectedToGC]) !! 0 = Some (Rejected (Error "GC connection timeout")).
Proof.
  intros w'.
  destruct (waitForReady_times_out [] 30000
              [Advance 29999; Emit (connectionStatus 3); Advance 1])
    as (Hp & Hl & Ht & Hlater); [reflexivity | reflexivity | vm_compute; discriminate |].
  split; [exact Hp |]. split; [exact Hl |]. split; [exact Ht |].
  exact (proj1 (Hlater [Emit connectedToGC])).
Defined.

(** X13. Whenever the promise of a call of [waitForReady] becomes resolved, the
    connection is ready at that moment. *)
Theorem waitForReady_resolved_means_ready (ss : list Step) (s : Step) (k : nat) :
  let w := run init ss in
  waits w !! k <> Some Resolved ->
  waits (step w s) !! k = Some Resolved ->
  isGcReady (connection (step w s)) = true.
Proof.
  intros w Hbefore Hafter.
  assert (Hw : consistent w) by apply wait_consistent_run, wait_consistent_init.
  rewrite view_waits in Hbefore, Hafter. rewrite step_view in Hafter by exact Hw.
  rewrite connection_step.
  destruct s as [timeout | e | dt].
  - destruct (Nat.eqb k (length (waits w))); [| congruence].
    destruct (isReady (connection w)) eqn:Hready; [| discriminate].
    unfold isGcReady. rewrite Hready. cbn [andb].
    unfold w in *. rewrite connection_run in *.
    apply ready_is_connected; [discriminate | exact Hready].
  - destruct e; try congruence. reflexivity.
  - exfalso. unfold expired in Hafter.
    destruct (is_waiting (view k w) && _); [discriminate | congruence].
Qed.

Lemma waitForReady_resolved_means_ready_witness :
  isGcReady (connection (step (run init [Wait 30000; Advance 1000]) (Emit connectedToGC))) = true.
Proof.
  apply (waitForReady_resolved_means_ready [Wait 30000; Advance 1000] (Emit connectedToGC) 0).
  - discriminate.
  - reflexivity.
Defined.

End WaitForReady.

(** ** Responses *)

Section ResponsesFacts.
Import JS ProfileFetcher Calls Responses Samples.

(** *** What no step changes *)

Lemma settings_settle (k : nat) (o : promise) (w : World) : settings (settle k o w) = settings w.
Proof. unfold settle. now destruct (requests w !! k) as [[id []] |]. Qed.

Lemma settings_removeListener (ev : string) (k : nat) (w : World) :
  settings (removeListener ev k w) = settings w.
Proof. unfold removeListener. now destruct (remove_last _ _). Qed.

Lemma settings_call_listener (payload : option value) (w : World) (l : Listener) :
  settings (call_listener payload w l) = settings w.
Proof.
  unfold call_listener, responseHandler.
  assert (H : settings (if l_once l then removeListener (l_event l) (l_handler l) w else w)
              = settings w)
    by (destruct (l_once l); [apply settings_removeListener | reflexivity]).
  destruct (negb (truthy payload) || negb (typeof_object payload)); [assumption |].
  destruct payload as [tp |]; [| assumption].
  match goal with |- context [match ?c with Some _ => _ | None => _ end] => destruct c end;
    rewrite settings_settle, settings_removeListener; assumption.
Qed.

Lemma settings_fire (w : World) (t : Timer) : settings (fire w t) = settings w.
Proof.
  unfold fire, timeoutCallback. destruct (has_timer (t_handle t) w); [| reflexivity].
  now rewrite settings_settle, settings_removeListener.
Qed.

Lemma settings_fetchProfile (id : string) (gc : gc_method) (w : World) :
  settings (fetchProfile id gc w) = settings w.
Proof.
  unfold fetchProfile. destruct (negb (test_17_digits id)); [now rewrite settings_settle |].
  destruct gc; try reflexivity; now rewrite settings_settle, settings_removeListener.
Qed.

Lemma kept_fold {A B} (g : World -> B) (f : World -> A -> World) (xs : list A) (w : World) :
  (forall w x, g (f w x) = g w) -> g (fold_left f xs w) = g w.
Proof.
  intros Hf. revert w. induction xs as [| x xs IH]; intros w; [reflexivity |].
  cbn [fold_left]. now rewrite IH, Hf.
Qed.

Lemma settings_step (w : World) (e : Event) : settings (step w e) = settings w.
Proof.
  destruct e as [id gc | ev payload | dt]; cbn [step].
  - apply settings_fetchProfile.
  - unfold emit. now rewrite (kept_fold settings) by apply settings_call_listener.
  - unfold advance. now rewrite (kept_fold settings) by apply settings_fire.
Qed.

Lemma settings_run (es : list Event) (w : World) : settings (run w es) = settings w.
Proof.
  revert w. induction es as [| e es IH]; intros w; [reflexivity |].
  cbn [run fold_left]. change (fold_left step es (step w e)) with (run (step w e) es).
  now rewrite IH, settings_step.
Qed.

Lemma sent_settle (k : nat) (o : promise) (w : World) : sent (settle k o w) = sent w.
Proof. unfold settle. now destruct (requests w !! k) as [[id []] |]. Qed.

Lemma sent_removeListener (ev : string) (k : nat) (w : World) :
  sent (removeListener ev k w) = sent w.
Proof. unfold removeListener. now destruct (remove_last _ _). Qed.

Lemma sent_call_listener (payload : option value) (w : World) (l : Listener) :
  sent (call_listener payload w l) = sent w.
Proof.
  unfold call_listener, responseHandler.
  assert (H : sent (if l_once l then removeListener (l_event l) (l_handler l) w else w) = sent w)
    by (destruct (l_once l); [apply sent_removeListener | reflexivity]).
  destruct (negb (truthy payload) || negb (typeof_object payload)); [assumption |].
  destruct payload as [tp |]; [| assumption].
  match goal with |- context [match ?c with Some _ => _ | None => _ end] => destruct c end;
    rewrite sent_settle, sent_removeListener; assumption.
Qed.

Lemma sent_fire (w : World) (t : Timer) : sent (fire w t) = sent w.
Proof.
  unfold fire, timeoutCallback. destruct (has_timer (t_handle t) w); [| reflexivity].
  now rewrite sent_settle, sent_removeListener.
Qed.

(** X7. The coordinator is asked once for every call with a well-formed
    identifier on a client that has the method, in the order of the calls,
    and at no other occasion: not again after a timeout, and not for a
    response. *)
Theorem requests_sent_once_per_call (es : list Event) (w : World) :
  sent (run w es) = sent w ++ sends es.
Proof.
  revert w. induction es as [| e es IH]; intros w; [now rewrite app_nil_r |].
  cbn [run fold_left]. change (fold_left step es (step w e)) with (run (step w e) es).
  rewrite IH. unfold sends. cbn [flat_map]. fold (sends es). rewrite app_assoc. f_equal.
  destruct e as [id gc | ev payload | dt]; cbn [step].
  - unfold fetchProfile. destruct (test_17_digits id); cbn [negb].
    + destruct gc; rewrite ?sent_settle, ?sent_removeListener; try reflexivity.
      now rewrite app_nil_r.
    + rewrite sent_settle. destruct gc; now rewrite app_nil_r.
  - unfold emit. rewrite (kept_fold sent) by apply sent_call_listener. now rewrite app_nil_r.
  - unfold advance. rewrite (kept_fold sent) by apply sent_fire. now rewrite app_nil_r.
Qed.

(** *** The listener of a call among the listeners of its event *)

Lemma filter_single_split {A} (p : A -> bool) (x : A) (l : list A) :
  List.filter p l = [x] ->
  exists l1 l2, l = l1 ++ x :: l2 /\
                (forall y, In y l1 -> p y = false) /\ (forall y, In y l2 -> p y = false).
Proof.
  induction l as [| a l IH]; [discriminate |].
  cbn [List.filter]. destruct (p a) eqn:Ha.
  - intros [= -> Hrest]. exists [], l. split; [reflexivity |]. split; [intros y [] |].
    intros y Hy. destruct (p y) eqn:Hp; [| reflexivity].
    assert (Hin : In y (List.filter p l)) by (apply filter_In; now split).
    rewrite Hrest in Hin. destruct Hin.
  - intros H. destruct (IH H) as (l1 & l2 & -> & H1 & H2).
    exists (a :: l1), l2. split; [reflexivity |]. split; [| exact H2].
    intros y [<- | Hy]; [exact Ha | now apply H1].
Qed.

Lemma filter_comm {A} (p q : A -> bool) (l : list A) :
  List.filter p (List.filter q l) = List.filter q (List.filter p l).
Proof.
  induction l as [| a l IH]; [reflexivity |].
  cbn [List.filter]. destruct (p a) eqn:Hp, (q a) eqn:Hq; cbn [List.filter];
    rewrite ?Hp, ?Hq, IH; reflexivity.
Qed.

(** An event reaches a call through the one listener the call has on it. *)
Lemma emit_on_call (k : nat) (ev : string) (payload : option value) (w : World) (l : Listener) :
  v_listeners (view k w) = [l] -> l_handler l = k -> l_event l = ev ->
  view k (emit ev payload w)
  = v_call_listener (today w) (enableFileCache w) (writeFault w) payload l (view k w).
Proof.
  intros Hl Hk Hev. unfold emit.
  set (snapshot := List.filter (fun l => String.eqb (l_event l) ev) (listeners w)).
  assert (Hsnap : List.filter (on_handler k) snapshot = [l]).
  { unfold snapshot. rewrite filter_comm.
    change (List.filter (on_handler k) (listeners w)) with (v_listeners (view k w)).
    rewrite Hl. cbn [List.filter]. now rewrite Hev, String.eqb_refl. }
  destruct (filter_single_split _ _ _ Hsnap) as (l1 & l2 & -> & H1 & H2).
  rewrite fold_left_app. cbn [fold_left].
  assert (Hoff : forall ls, (forall y, In y ls -> on_handler k y = false) ->
                            forall y, In y ls -> l_handler y <> k).
  { intros ls H y Hy. specialize (H y Hy). unfold on_handler in H. now apply Nat.eqb_neq. }
  rewrite fold_call_listener_other by now apply Hoff.
  set (w1 := fold_left (call_listener payload) l1 w).
  assert (Hs1 : settings w1 = settings w)
    by (unfold w1; now rewrite (kept_fold settings) by apply settings_call_listener).
  assert (Hv1 : view k w1 = view k w)
    by (unfold w1; apply fold_call_listener_other; now apply Hoff).
  rewrite <- Hk at 1. rewrite view_call_listener_self, Hk, Hv1.
  unfold settings in Hs1. now injection Hs1 as -> -> ->.
Qed.

Lemma emit_off_call (k : nat) (ev : string) (payload : option value) (w : World) :
  (forall l, In l (v_listeners (view k w)) -> l_event l <> ev) ->
  view k (emit ev payload w) = view k w.
Proof.
  intros H. unfold emit. apply fold_call_listener_other.
  intros l [Hl Hev]%filter_In Hk. apply String.eqb_eq in Hev.
  apply (H l); [| exact Hev].
  unfold view. cbn [v_listeners]. apply filter_In. split; [exact Hl |].
  unfold on_handler. now apply Nat.eqb_eq.
Qed.

(** *** What the listener does to a call that waits *)

Lemma is_object_guard (payload : option value) :
  negb (truthy payload) || negb (typeof_object payload) = negb (is_object payload).
Proof. unfold is_object. now destruct (truthy payload), (typeof_object payload). Qed.

Lemma call_listener_waiting (date : string) (cache : bool) (fault : option exn)
  (payload : option value) (id : string) (k : nat) (due : N) :
  v_call_listener date cache fault payload
    {| l_event := eventName id; l_handler := k; l_once := true |} (waiting id k due)
  = match payload with
    | Some tp =>
        if is_object payload then answered_view (answered date cache fault tp id) id
        else orphan id k due
    | None => orphan id k due
    end.
Proof.
  unfold v_call_listener. cbn [l_once l_event l_handler].
  unfold waiting at 1. rewrite v_removeListener_live.
  unfold v_responseHandler. rewrite is_object_guard.
  destruct payload as [tp |]; [| reflexivity].
  destruct (is_object (Some tp)); cbn [negb]; [| reflexivity].
  unfold answered, v_clearTimeout, v_steamId64.
  cbn [v_request v_listeners v_timers v_deregistered req_steamId64].
  destruct (if cache then fault else None); rewrite v_removeListener_gone; reflexivity.
Qed.

(** *** A call that goes on waiting *)

Lemma elapsed_cons (e : Event) (es : list Event) :
  elapsed (e :: es) = (duration e + elapsed es)%N.
Proof. unfold elapsed. destruct e; cbn [fold_right duration]; lia. Qed.

Lemma elapsed_app (es es' : list Event) : elapsed (es ++ es') = (elapsed es + elapsed es')%N.
Proof.
  induction es as [| e es IH]; [reflexivity |].
  cbn [app]. rewrite !elapsed_cons, IH. lia.
Qed.

Lemma clock_run (es : list Event) (w : World) : clock (run w es) = (clock w + elapsed es)%N.
Proof.
  revert w. induction es as [| e es IH]; intros w; [cbn; lia |].
  cbn [run fold_left]. change (fold_left step es (step w e)) with (run (step w e) es).
  rewrite IH, clock_step, elapsed_cons. lia.
Qed.

Lemma waiting_stays (id : string) (k : nat) (due : N) (es : list Event) (w : World) :
  view k w = waiting id k due ->
  (forall payload, ~ In (Emit (eventName id) payload) es) ->
  (clock w + elapsed es < due)%N ->
  view k (run w es) = waiting id k due.
Proof.
  revert w. induction es as [| e es IH]; intros w Hv Hquiet Hshort; [exact Hv |].
  cbn [run fold_left]. change (fold_left step es (step w e)) with (run (step w e) es).
  rewrite elapsed_cons in Hshort.
  destruct (waiting_step id k due w e Hv) as [[Hc Hv'] | [Hc Hv']].
  - lia.
  - intros payload Heq. apply (Hquiet payload). now left.
  - apply IH; [exact Hv' | |].
    + intros payload Hin. apply (Hquiet payload). now right.
    + rewrite clock_step. lia.
  - rewrite clock_step in Hc. lia.
Qed.

(** *** A call whose listener is used up *)

Lemma fire_orphan (id : string) (k : nat) (due : N) :
  v_fire k (orphan id k due) = timed_out id.
Proof. reflexivity. Qed.

Lemma fold_fire_orphan (id : string) (k : nat) (due : N) (ts : list Timer) (w : World) :
  view k w = timed_out id \/
  (view k w = orphan id k due /\ exists t, In t ts /\ t_handle t = k) ->
  view k (fold_left fire ts w) = timed_out id.
Proof.
  revert w. induction ts as [| t ts IH]; cbn [fold_left]; intros w H.
  - destruct H as [H | (_ & t & [] & _)]. assumption.
  - apply IH. destruct (Nat.eq_dec (t_handle t) k) as [Heq | Hne].
    + left. rewrite <- Heq at 1. rewrite view_fire_self, Heq.
      destruct H as [-> | (-> & _)].
      * apply settled_fire, settled_timed_out.
      * apply fire_orphan.
    + rewrite view_fire_other by assumption.
      destruct H as [H | (H & t' & [<- | Hin] & Ht')]; [now left | contradiction |].
      right. split; [assumption |]. now exists t'.
Qed.

Lemma orphan_step (id : string) (k : nat) (due : N) (w : World) (e : Event) :
  view k w = orphan id k due ->
  (clock w < due)%N ->
  ((clock (step w e) < due)%N /\ view k (step w e) = orphan id k due) \/
  ((due <= clock (step w e))%N /\ view k (step w e) = timed_out id).
Proof.
  intros Hv Hclock.
  pose proof (clock_step w e) as Hc.
  destruct e as [id' gc | ev payload | dt]; cbn [step duration] in Hc |- *.
  - left. split; [lia |]. rewrite view_fetchProfile_other; [assumption |].
    assert (Hr : requests w !! k = Some {| req_steamId64 := id; req_promise := Pending |})
      by (change (requests w !! k) with (v_request (view k w)); now rewrite Hv).
    apply lookup_lt_Some in Hr. lia.
  - left. split; [lia |]. rewrite emit_off_call; [assumption |].
    rewrite Hv. intros l [].
  - unfold advance in *.
    set (w' := with_clock (clock w + dt)%N w) in *.
    change (view k w) with (view k w') in Hv.
    destruct (N.lt_ge_cases (clock w + dt) due) as [Hlt | Hge].
    + left. split; [lia |]. rewrite fold_fire_other; [assumption |].
      intros t Ht Hk. apply filter_In in Ht as [Ht Hdue].
      assert (Hin : In t (v_timers (view k w'))).
      { unfold view. cbn [v_timers]. apply filter_In. split; [assumption |].
        unfold on_handle. now apply Nat.eqb_eq. }
      rewrite Hv in Hin. unfold orphan in Hin. cbn [v_timers In] in Hin.
      destruct Hin as [<- | []].
      cbn [t_due] in Hdue. apply N.leb_le in Hdue. cbn [clock with_clock w'] in Hdue.
      unfold w' in Hdue. cbn [clock with_clock] in Hdue. lia.
    + right. split; [lia |]. apply (fold_fire_orphan id k due). right.
      split; [assumption |].
      exists {| t_handle := k; t_due := due |}. split; [| reflexivity].
      apply filter_In. split.
      * assert (Hin : In {| t_handle := k; t_due := due |} (v_timers (view k w')))
          by (rewrite Hv; now left).
        unfold view in Hin. cbn [v_timers] in Hin. now apply filter_In in Hin.
      * apply N.leb_le. unfold w'. cbn [t_due clock with_clock]. lia.
Qed.

Lemma orphan_run (id : string) (k : nat) (due : N) (es : list Event) (w : World) :
  view k w = orphan id k due ->
  (clock w < due)%N ->
  (due <= clock w + elapsed es)%N ->
  view k (run w es) = timed_out id.
Proof.
  revert w. induction es as [| e es IH]; intros w Hv Hclock Hdue.
  - cbn [elapsed fold_right] in Hdue. lia.
  - cbn [run fold_left]. change (fold_left step es (step w e)) with (run (step w e) es).
    rewrite elapsed_cons in Hdue.
    destruct (orphan_step id k due w e Hv Hclock) as [[Hc Hv'] | [Hc Hv']].
    + apply IH; try assumption. rewrite clock_step. lia.
    + rewrite settled_run; rewrite Hv'; [reflexivity | apply settled_timed_out].
Qed.

(** *** The two ways a response event ends *)

Lemma call_then_quiet (cache : bool) (fault : option exn) (date : string)
  (before : list Event) (id : string) (between : list Event) :
  test_17_digits id = true ->
  (forall p, ~ In (Emit (eventName id) p) between) ->
  (elapsed between < PROFILE_REQUEST_TIMEOUT_MS)%N ->
  let w := run (init cache fault date) before in
  let k := length (requests w) in
  let w2 := run (fetchProfile id MethodReturns w) between in
  view k w2 = waiting id k (clock w + PROFILE_REQUEST_TIMEOUT_MS) /\
  settings w2 = (date, cache, fault) /\
  clock w2 = (clock w + elapsed between)%N.
Proof.
  intros Hid Hquiet Hshort w k w2.
  assert (Hw : consistent w) by apply consistent_run, consistent_init.
  split; [| split].
  - apply waiting_stays; [now apply fetchProfile_waiting | exact Hquiet |].
    rewrite clock_fetchProfile. lia.
  - unfold w2, w. now rewrite !settings_run, settings_fetchProfile, settings_run.
  - unfold w2. now rewrite clock_run, clock_fetchProfile.
Qed.

Lemma emitted_to_waiting (id : string) (k : nat) (due : N) (payload : option value)
  (w2 : World) :
  view k w2 = waiting id k due ->
  view k (emit (eventName id) payload w2)
  = v_call_listener (today w2) (enableFileCache w2) (writeFault w2) payload
      {| l_event := eventName id; l_handler := k; l_once := true |} (waiting id k due).
Proof.
  intros Hv.
  rewrite (emit_on_call k (eventName id) payload w2
             {| l_event := eventName id; l_handler := k; l_once := true |});
    [now rewrite Hv | now rewrite Hv | reflexivity | reflexivity].
Qed.

(** X8. The first event [playersProfile#id] that is emitted after a call for
    [id] has sent its request settles the call when it arrives before the
    timeout of 30000 ms and its payload is an object or an array, whatever
    other calls, events for other identifiers and passing of time came
    between: the promise is resolved with the profile parsed from the
    payload or, when the file cache is enabled and the profile file could
    not be written, rejected with the error of the writing; the listener is
    off the client, removed once, and the timer is cleared. *)
Theorem response_in_time_settles_the_call
  (cache : bool) (fault : option exn) (date : string) (before : list Event)
  (id : string) (between : list Event) (payload : value) :
  test_17_digits id = true ->
  (exists fields, payload = VObj fields) \/ (exists items, payload = VArr items) ->
  (forall p, ~ In (Emit ("playersProfile#" +:+ id) p) between) ->
  (elapsed between < 30000)%N ->
  let w := run (init cache fault date) before in
  let k := length (requests w) in
  let w' := run (fetchProfile id MethodReturns w)
                (between ++ [Emit ("playersProfile#" +:+ id) (Some payload)]) in
  promise_of k w'
  = Some (match (if cache then fault else None) with
          | None => Resolved (parseProfileResponse date payload id)
          | Some error => Rejected error
          end) /\
  listening k w' = false /\ has_timer k w' = false /\ times_deregistered k w' = 1.
Proof.
  intros Hid Hshape Hquiet Hshort w k w'.
  assert (Hobj : is_object (Some payload) = true)
    by (destruct Hshape as [(fields & ->) | (items & ->)]; reflexivity).
  change ("playersProfile#" +:+ id) with (eventName id) in *.
  change 30000%N with PROFILE_REQUEST_TIMEOUT_MS in Hshort.
  change (match (if cache then fault else None) with
          | None => Resolved (parseProfileResponse date payload id)
          | Some error => Rejected error
          end) with (answered date cache fault payload id).
  destruct (call_then_quiet cache fault date before id between Hid Hquiet Hshort)
    as (Hv2 & Hs2 & _).
  fold w k in Hv2, Hs2. set (w2 := run (fetchProfile id MethodReturns w) between) in *.
  assert (Hv' : view k w' = answered_view (answered date cache fault payload id) id).
  { unfold w', run. rewrite fold_left_app. cbn [fold_left step]. fold (run (fetchProfile id MethodReturns w) between).
    fold w2. rewrite (emitted_to_waiting id k _ _ w2 Hv2).
    unfold settings in Hs2. injection Hs2 as -> -> ->.
    now rewrite call_listener_waiting, Hobj. }
  rewrite promise_of_view, listening_view, has_timer_view, times_deregistered_view, Hv'.
  repeat split.
Qed.

Lemma response_in_time_settles_the_call_witness :
  let w := run (init false None "2024-01-01T00:00:00.000Z") [] in
  let w' := run (fetchProfile "76561199441016438" MethodReturns w)
                ([Advance 29999;
                  Emit "playersProfile#76561198000000000" (Some response_of_someone_else);
                  Call "76561198000000000" MethodReturns]
                 ++ [Emit "playersProfile#76561199441016438" (Some sample_response)]) in
  promise_of 0 w'
  = Some (Resolved
            {| steamId64 := "76561199441016438";
               commendations := {| friendly := VNum 3; leader := VNum 0; teacher := VNum 0 |};
               medals := [{| medalId := 4873 |}; {| medalId := 970 |}];
               equippedMedal := VNum 4873;
               xpLevel := Some (VNum 12);
               fetchedAt := "2024-01-01T00:00:00.000Z" |}) /\
  listening 0 w' = false /\ has_timer 0 w' = false /\ times_deregistered 0 w' = 1.
Proof.
  apply (response_in_time_settles_the_call false None "2024-01-01T00:00:00.000Z" []
           "76561199441016438"
           [Advance 29999;
            Emit "playersProfile#76561198000000000" (Some response_of_someone_else);
            Call "76561198000000000" MethodReturns]
           sample_response).
  - reflexivity.
  - left. eexists. reflexivity.
  - intros p [H | [H | [H | []]]]; discriminate H.
  - reflexivity.
Defined.

(** X9. A response event whose payload is no object uses up the listener of the
    call without settling it: the promise stays pending, and since nothing
    listens for the call any more, a well-formed response that follows is
    lost and the call ends with the timeout. *)
Theorem payload_that_is_no_object_orphans_the_call
  (cache : bool) (fault : option exn) (date : string) (before : list Event)
  (id : string) (between : list Event) (payload : option value) :
  test_17_digits id = true ->
  is_object payload = false ->
  (forall p, ~ In (Emit (eventName id) p) between) ->
  (elapsed between < PROFILE_REQUEST_TIMEOUT_MS)%N ->
  let w := run (init cache fault date) before in
  let k := length (requests w) in
  let w' := run (fetchProfile id MethodReturns w) (between ++ [Emit (eventName id) payload]) in
  promise_of k w' = Some Pending /\
  listening k w' = false /\ has_timer k w' = true /\
  forall later : list Event,
    (PROFILE_REQUEST_TIMEOUT_MS <= elapsed between + elapsed later)%N ->
    promise_of k (run w' later)
    = Some (Rejected (Error ("Timeout waiting for profile response for " +:+ id))).
Proof.
  intros Hid Hobj Hquiet Hshort w k w'.
  destruct (call_then_quiet cache fault date before id between Hid Hquiet Hshort)
    as (Hv2 & Hs2 & Hc2).
  fold w k in Hv2, Hs2, Hc2. set (w2 := run (fetchProfile id MethodReturns w) between) in *.
  assert (Hw' : w' = emit (eventName id) payload w2).
  { unfold w', run. rewrite fold_left_app. reflexivity. }
  assert (Hv' : view k w' = orphan id k (clock w + PROFILE_REQUEST_TIMEOUT_MS)).
  { rewrite Hw', (emitted_to_waiting id k _ _ w2 Hv2), call_listener_waiting, Hobj.
    now destruct payload. }
  assert (Hc' : clock w' = (clock w + elapsed between)%N).
  { rewrite Hw'. change (emit (eventName id) payload w2)
      with (step w2 (Emit (eventName id) payload)).
    rewrite clock_step, Hc2. cbn [duration]. lia. }
  rewrite promise_of_view, listening_view, has_timer_view, Hv'.
  split; [reflexivity |]. split; [reflexivity |]. split; [reflexivity |].
  intros later Hlong. rewrite promise_of_view.
  rewrite (orphan_run id k (clock w + PROFILE_REQUEST_TIMEOUT_MS) later w' Hv');
    [reflexivity | lia | lia].
Qed.

Lemma payload_that_is_no_object_orphans_the_call_witness :
  let w := run (init false None "2024-01-01T00:00:00.000Z") [] in
  let w' := run (fetchProfile "76561199441016438" MethodReturns w)
                ([Advance 1000] ++ [Emit (eventName "76561199441016438") (Some (VStr "busy"))]) in
  promise_of 0 w' = Some Pending /\
  listening 0 w' = false /\ has_timer 0 w' = true /\
  promise_of 0 (run w' [Emit (eventName "76561199441016438") (Some sample_response);
                        Advance 29000])
  = Some (Rejected (Error ("Timeout waiting for profile response for "
                           +:+ "76561199441016438"))).
Proof.
  intros w w'.
  destruct (payload_that_is_no_object_orphans_the_call false None "2024-01-01T00:00:00.000Z" []
              "76561199441016438" [Advance 1000] (Some (VStr "busy")))
    as (Hp & Hl & Ht & Hlater).
  - reflexivity.
  - reflexivity.
  - intros p [H | []]; discriminate H.
  - reflexivity.
  - split; [exact Hp |]. split; [exact Hl |]. split; [exact Ht |].
    apply (Hlater [Emit (eventName "76561199441016438") (Some sample_response); Advance 29000]).
    vm_compute. discriminate.
Defined.

End ResponsesFacts.

(** ** The reconnection monitoring and the unhandled rejections *)

Section MainFacts.
Import JS Main.

Lemma one_loop_stop (m : Monitor) : one_loop m -> one_loop (stop_retry_loop m).
Proof.
  unfold one_loop, stop_retry_loop. destruct (gcReconnectInterval m) as [h |] eqn:E.
  - intros H. cbn [with_gcReconnectInterval clearInterval intervals gcReconnectInterval].
    rewrite H. cbn [List.filter]. now rewrite Nat.eqb_refl.
  - intros H. now rewrite E.
Qed.

Lemma one_loop_step (m : Monitor) (e : Event) : one_loop m -> one_loop (step m e).
Proof.
  intros H. destruct e as [| | | | ready | ready |]; cbn [step].
  - exact H.
  - unfold loggedOn_listener.
    destruct (hasInitialLogin m && negb (isSteamLoggedIn m)); [exact H |].
    destruct (negb (hasInitialLogin m)); exact H.
  - unfold disconnected_listener. apply one_loop_stop. exact H.
  - unfold one_loop in *. unfold start_retry_loop.
    destruct (gcReconnectInterval m) as [h |];
      cbn [setInterval clearInterval with_gcReconnectInterval intervals gcReconnectInterval handles];
      rewrite H; cbn [List.filter]; [now rewrite Nat.eqb_refl | reflexivity].
  - unfold retry_check. destruct ready; [now apply one_loop_stop | exact H].
  - unfold retry_check. destruct ready; [now apply one_loop_stop | exact H].
  - now apply one_loop_stop.
Qed.

(** X23. At any time at most one retry loop of the reconnection monitoring
    runs, and [gcReconnectInterval] is its handle: no interval is left
    running that the variable does not name. *)
Theorem one_retry_loop_at_a_time (es : list Event) :
  intervals (run monitoring es)
  = match gcReconnectInterval (run monitoring es) with Some h => [h] | None => [] end.
Proof.
  change (one_loop (run monitoring es)).
  assert (H : one_loop monitoring) by reflexivity.
  revert H. generalize monitoring. unfold run.
  induction es as [| e es IH]; intros m H; [exact H |].
  cbn [fold_left]. apply IH. now apply one_loop_step.
Qed.

Lemma stop_retry_loop_flags (m : Monitor) :
  isSteamLoggedIn (stop_retry_loop m) = isSteamLoggedIn m /\
  hasInitialLogin (stop_retry_loop m) = hasInitialLogin m /\
  reinitialisations (stop_retry_loop m) = reinitialisations m.
Proof. unfold stop_retry_loop. now destruct (gcReconnectInterval m). Qed.

Lemma start_retry_loop_flags (m : Monitor) :
  isSteamLoggedIn (start_retry_loop m) = isSteamLoggedIn m /\
  hasInitialLogin (start_retry_loop m) = hasInitialLogin m /\
  reinitialisations (start_retry_loop m) = reinitialisations m.
Proof. unfold start_retry_loop. now destruct (gcReconnectInterval m). Qed.

Lemma reinitialisations_step (m : Monitor) (e : Event) :
  reinitialisations (step m e) + waiting_for_login (step m e)
  <= reinitialisations m + waiting_for_login m + (if is_disconnected e then 1 else 0).
Proof.
  unfold waiting_for_login.
  destruct e as [| | | | ready | ready |]; cbn [step is_disconnected].
  - cbn. lia.
  - unfold loggedOn_listener. destruct m as [logged initial handle running given count].
    cbn [hasInitialLogin isSteamLoggedIn]. destruct initial, logged; cbn; lia.
  - unfold disconnected_listener.
    destruct (stop_retry_loop_flags (with_isSteamLoggedIn false m)) as (-> & _ & ->).
    cbn. destruct (isSteamLoggedIn m); lia.
  - destruct (start_retry_loop_flags m) as (-> & _ & ->). lia.
  - unfold retry_check. destruct ready; [| lia].
    destruct (stop_retry_loop_flags m) as (-> & _ & ->). lia.
  - unfold retry_check. destruct ready; [| lia].
    destruct (stop_retry_loop_flags m) as (-> & _ & ->). lia.
  - destruct (stop_retry_loop_flags m) as (-> & _ & ->). lia.
Qed.

Lemma reinitialisations_run (es : list Event) (m : Monitor) :
  reinitialisations (run m es) + waiting_for_login (run m es)
  <= reinitialisations m + waiting_for_login m + length (List.filter is_disconnected es).
Proof.
  revert m. unfold run. induction es as [| e es IH]; intros m; cbn [fold_left List.filter].
  - cbn [length]. lia.
  - specialize (IH (step m e)). pose proof (reinitialisations_step m e) as Hstep.
    destruct (is_disconnected e); cbn [length]; lia.
Qed.

Lemma initial_window_step (m : Monitor) (e : Event) :
  is_initial_window_over e = false ->
  hasInitialLogin m = false -> reinitialisations m = 0 ->
  hasInitialLogin (step m e) = false /\ reinitialisations (step m e) = 0.
Proof.
  intros He Hw Hr.
  destruct e as [| | | | ready | ready |]; cbn [step]; try discriminate.
  - unfold loggedOn_listener. rewrite Hw. cbn. now split.
  - unfold disconnected_listener.
    destruct (stop_retry_loop_flags (with_isSteamLoggedIn false m)) as (_ & -> & ->). now split.
  - destruct (start_retry_loop_flags m) as (_ & -> & ->). now split.
  - unfold retry_check. destruct ready; [| now split].
    destruct (stop_retry_loop_flags m) as (_ & -> & ->). now split.
  - unfold retry_check. destruct ready; [| now split].
    destruct (stop_retry_loop_flags m) as (_ & -> & ->). now split.
  - destruct (stop_retry_loop_flags m) as (_ & -> & ->). now split.
Qed.

Lemma initial_window_run (es : list Event) (m : Monitor) :
  existsb is_initial_window_over es = false ->
  hasInitialLogin m = false -> reinitialisations m = 0 ->
  reinitialisations (run m es) = 0.
Proof.
  revert m. unfold run. induction es as [| e es IH]; intros m Hes Hw Hr; [exact Hr |].
  cbn [existsb] in Hes. apply orb_false_iff in Hes as [He Hes].
  cbn [fold_left]. destruct (initial_window_step m e He Hw Hr) as [Hw' Hr'].
  now apply IH.
Qed.

(** X24. The coordinator connection is re-initialised at most once for each
    'disconnected' event of the client (a disconnect that no 'loggedOn'
    has answered yet counts among them), and never before the timeout that
    ends the initial window has fired. *)
Theorem reinitialised_once_per_disconnect (es : list Event) :
  let m := run monitoring es in
  reinitialisations m + (if isSteamLoggedIn m then 0 else 1)
  <= length (List.filter is_disconnected es) /\
  (existsb is_initial_window_over es = false -> reinitialisations m = 0).
Proof.
  intros m. split.
  - pose proof (reinitialisations_run es monitoring) as H.
    unfold waiting_for_login in H. cbn [monitoring isSteamLoggedIn reinitialisations] in H.
    subst m. lia.
  - intros Hes. now apply initial_window_run.
Qed.

(** A reconnection after the initial window is answered by one
    re-initialisation, a second 'loggedOn' by none. *)
Example reinitialised_after_a_disconnect :
  reinitialisations (run monitoring [initial_window_over; disconnected; loggedOn; loggedOn]) = 1 /\
  reinitialisations (run monitoring [disconnected; loggedOn; initial_window_over; loggedOn]) = 0.
Proof. now split. Qed.

(** *** Unhandled rejections *)

Lemma startsWith_append (part rest : string) : startsWith (part +:+ rest) part = true.
Proof.
  induction part as [| c part IH]; [now destruct rest |].
  rewrite append_cons. cbn [startsWith]. now rewrite Ascii.eqb_refl.
Qed.

Lemma startsWith_split (part s : string) :
  startsWith s part = true -> exists rest, s = part +:+ rest.
Proof.
  revert s. induction part as [| c part IH]; intros s H.
  - exists s. reflexivity.
  - destruct s as [| d s]; [discriminate |]. cbn [startsWith] in H.
    apply andb_true_iff in H as [Hc H]. apply Ascii.eqb_eq in Hc. subst d.
    destruct (IH s H) as (rest & ->). exists rest. now rewrite append_cons.
Qed.

Lemma includes_spec (s part : string) :
  includes s part = true <-> exists before after, s = before +:+ part +:+ after.
Proof.
  split.
  - induction s as [| c s IH]; cbn [includes]; intros H.
    + rewrite orb_false_r in H. destruct (startsWith_split _ _ H) as (after & ->).
      exists "", after. reflexivity.
    + apply orb_true_iff in H as [H | H].
      * destruct (startsWith_split _ _ H) as (after & ->). exists "", after. reflexivity.
      * destruct (IH H) as (before & after & ->).
        exists (String c before), after. now rewrite append_cons.
  - intros (before & after & ->). induction before as [| c before IH].
    + change ("" +:+ part +:+ after) with (part +:+ after).
      destruct (part +:+ after) eqn:E; cbn [includes]; rewrite <- ?E, startsWith_append; reflexivity.
    + rewrite append_cons. cbn [includes]. rewrite IH. apply orb_true_r.
Qed.

(** X25. The listener of 'unhandledRejection' logs a warning exactly for the
    reasons whose message contains [timeout] or [Timeout], and an error for
    all others; the rejections of [fetchProfile] and of [waitForReady] on
    their timeouts are among the warnings. *)
Theorem timeouts_are_warnings (reason : exn) :
  (unhandledRejection reason = warn <->
   exists before after,
     errorMessage reason = before +:+ "timeout" +:+ after \/
     errorMessage reason = before +:+ "Timeout" +:+ after) /\
  (forall steamId64,
     unhandledRejection (Error ("Timeout waiting for profile response for " +:+ steamId64))
     = warn) /\
  unhandledRejection (Error "GC connection timeout") = warn.
Proof.
  split; [| split; [intros id | reflexivity]].
  2: { unfold unhandledRejection.
       assert (E : includes (errorMessage
                     (Error ("Timeout waiting for profile response for " +:+ id)))
                     "Timeout" = true).
       { apply includes_spec. exists "", (" waiting for profile response for " +:+ id).
         reflexivity. }
       now rewrite E, orb_true_r. }
  unfold unhandledRejection. split.
  - destruct (includes (errorMessage reason) "timeout") eqn:E1.
    + intros _. apply includes_spec in E1 as (b & a & H). exists b, a. now left.
    + destruct (includes (errorMessage reason) "Timeout") eqn:E2; [| discriminate].
      intros _. apply includes_spec in E2 as (b & a & H). exists b, a. now right.
  - intros (b & a & [H | H]).
    + assert (E : includes (errorMessage reason) "timeout" = true)
        by (apply includes_spec; eauto).
      now rewrite E.
    + assert (E : includes (errorMessage reason) "Timeout" = true)
        by (apply includes_spec; eauto).
      rewrite E. now rewrite orb_true_r.
Qed.

End MainFacts.
